(** * SPDX package assembly of [sigs.k8s.io/bom]: a shallow embedding of
    [pkg/spdx/implementation.go] and the properties of its tar extraction,
    ignore engine and image assembler.

    Go values are modelled as follows.  A Go [string] is a [string]; an
    [error] is a value of [error], [nil] being [None] of [option error];
    a function returning [(T, error)] returns the pair, as in Go.  The
    operating system, the tar reader, the OCI registry and the other
    collaborators of the package are explicit parameters: every result they
    can hand to the code is a possible value of the parameter. *)

From Stdlib Require Import ZArith Ascii String DecimalString Lia.
From Stdlib Require Import Strings.Byte.
From stdpp Require Import base list strings gmap.

Local Open Scope string_scope.
Local Open Scope list_scope.
Local Open Scope Z_scope.

(** ** Go errors *)

(** [io_EOF] is the sentinel [io.EOF]; the code compares against it with
    [==].  [errorString] is [errors.New] and [fmt.Errorf] without [%w];
    [wrapError pre e] is [fmt.Errorf(pre + "%w", e)]. *)
Inductive error : Type :=
| io_EOF
| errorString (msg : string)
| wrapError (pre : string) (inner : error).

Fixpoint Error (e : error) : string :=
  match e with
  | io_EOF => "EOF"
  | errorString m => m
  | wrapError pre inner => pre +:+ Error inner
  end.

Definition is_EOF (e : error) : bool :=
  match e with io_EOF => true | _ => false end.

Definition io_ErrUnexpectedEOF : error := errorString "unexpected EOF".

(** [err == nil] *)
Definition isNil (err : option error) : bool :=
  match err with None => true | Some _ => false end.

(** ** The Go [strings] package, as far as the code uses it *)
Module strings.

Definition HasPrefix (s pre : string) : bool := String.prefix pre s.

Fixpoint Contains_aux (n : nat) (s sub : string) : bool :=
  String.prefix sub s ||
  match n, s with
  | S n', String _ s' => Contains_aux n' s' sub
  | _, _ => false
  end.

Definition Contains (s sub : string) : bool :=
  Contains_aux (String.length s) s sub.

(** [strings.Split(s, sep)] for a separator of one byte. *)
Fixpoint splitOn (c : ascii) (s : list ascii) : list (list ascii) :=
  match s with
  | [] => [[]]
  | x :: s' =>
      if Ascii.eqb x c then [] :: splitOn c s'
      else match splitOn c s' with
           | h :: t => (x :: h) :: t
           | [] => [[x]]
           end
  end.

Definition Split (s : string) (sep : ascii) : list string :=
  string_of_list_ascii <$> splitOn sep (list_ascii_of_string s).

Definition HasSuffix (s suf : string) : bool :=
  String.prefix (String.rev suf) (String.rev s).

Definition TrimSuffix (s suf : string) : string :=
  if HasSuffix s suf
  then String.substring 0 (String.length s - String.length suf) s
  else s.

End strings.

(** ** The Go [path/filepath] package on a system whose separator is [/] *)
Module filepath.

Definition Separator : ascii := "/"%char.

Definition IsPathSeparator (c : ascii) : bool := Ascii.eqb c Separator.

Definition isDot (c : ascii) : bool := Ascii.eqb c "."%char.

(** The element that starts at the read index ends here: the path is
    exhausted or the next byte is a separator. *)
Definition atElemEnd (l : list ascii) : bool :=
  match l with
  | [] => true
  | c :: _ => IsPathSeparator c
  end.

(** The inner loop of the [..] case of [Clean]: from write index [w], step
    back while [w > dotdot] and the byte at [w] is no separator. *)
Fixpoint backtrack (out : list ascii) (dotdot w : nat) : nat :=
  match w with
  | O => O
  | S w' =>
      if (dotdot <? w)%nat && negb (IsPathSeparator (nth w out Separator))
      then backtrack out dotdot w'
      else w
  end.

(** The main loop of [Clean].  [rest] is the unread part of the path,
    [out] the bytes written so far ([out.w] is its length), [dotdot] the
    index where [..] must stop.  [inElem] is set while the copy loop of
    the default case runs. *)
Fixpoint cleanLoop (rooted inElem : bool) (rest out : list ascii)
    (dotdot : nat) : list ascii :=
  match rest with
  | [] => out
  | c :: rest1 =>
      if inElem then
        if IsPathSeparator c
        then cleanLoop rooted false rest1 out dotdot
        else cleanLoop rooted true rest1 (out ++ [c]) dotdot
      else if IsPathSeparator c then
        cleanLoop rooted false rest1 out dotdot
      else if isDot c && atElemEnd rest1 then
        cleanLoop rooted false rest1 out dotdot
      else
        match rest1 with
        | d :: rest2 =>
            if isDot c && isDot d && atElemEnd rest2 then
              if (dotdot <? length out)%nat then
                cleanLoop rooted false rest2
                  (take (backtrack out dotdot (length out - 1)) out) dotdot
              else if negb rooted then
                let out1 :=
                  (if (0 <? length out)%nat then out ++ [Separator] else out)
                    ++ ["."%char; "."%char] in
                cleanLoop rooted false rest2 out1 (length out1)
              else cleanLoop rooted false rest2 out dotdot
            else
              let out1 :=
                if (rooted && negb (length out =? 1)%nat)
                   || (negb rooted && negb (length out =? 0)%nat)
                then out ++ [Separator] else out in
              cleanLoop rooted true rest1 (out1 ++ [c]) dotdot
        | [] =>
            let out1 :=
              if (rooted && negb (length out =? 1)%nat)
                 || (negb rooted && negb (length out =? 0)%nat)
              then out ++ [Separator] else out in
            cleanLoop rooted true rest1 (out1 ++ [c]) dotdot
        end
  end.

Definition cleanBytes (path : list ascii) : list ascii :=
  match path with
  | [] => ["."%char]
  | c :: rest =>
      let out :=
        if IsPathSeparator c
        then cleanLoop true false rest [Separator] 1
        else cleanLoop false false path [] 0 in
      match out with
      | [] => ["."%char]
      | _ => out
      end
  end.

Definition Clean (path : string) : string :=
  string_of_list_ascii (cleanBytes (list_ascii_of_string path)).

(** [Join] of two elements: the first non-empty element onwards, joined
    by the separator and cleaned; the empty string when both are empty. *)
Definition Join (a b : string) : string :=
  if String.eqb a "" then
    if String.eqb b "" then "" else Clean b
  else Clean (a +:+ "/" +:+ b).

(** Drop the bytes after the last separator (the scan of [Dir] and of
    [Base] from the end of the path). *)
Fixpoint uptoLastSep (l : list ascii) : list ascii :=
  match l with
  | [] => []
  | c :: l' =>
      match uptoLastSep l' with
      | [] => if IsPathSeparator c then [c] else []
      | r => c :: r
      end
  end.

Definition Dir (path : string) : string :=
  Clean (string_of_list_ascii (uptoLastSep (list_ascii_of_string path))).

Fixpoint stripTrailingSeps (l : list ascii) : list ascii :=
  match l with
  | [] => []
  | c :: l' =>
      match stripTrailingSeps l' with
      | [] => if IsPathSeparator c then [] else [c]
      | r => c :: r
      end
  end.

Fixpoint afterLastSep (l : list ascii) : list ascii :=
  match l with
  | [] => []
  | c :: l' =>
      if existsb IsPathSeparator l' then afterLastSep l'
      else if IsPathSeparator c then l' else l
  end.

Definition Base (path : string) : string :=
  match list_ascii_of_string path with
  | [] => "."
  | l =>
      match afterLastSep (stripTrailingSeps l) with
      | [] => "/"
      | b => string_of_list_ascii b
      end
  end.

(** *** Vocabulary of the properties *)

(** An element that stands for itself in a path: it is not empty, holds no
    separator, and is neither [.] nor [..]. *)
Definition plainElem (e : list ascii) : bool :=
  match e with
  | [] => false
  | [c] => negb (IsPathSeparator c) && negb (isDot c)
  | [c; d] =>
      negb (IsPathSeparator c) && negb (IsPathSeparator d)
      && negb (isDot c && isDot d)
  | _ => forallb (λ c, negb (IsPathSeparator c)) e
  end.

(** The elements [es], with a separator between two of them. *)
Fixpoint joinElems (es : list (list ascii)) : list ascii :=
  match es with
  | [] => []
  | [e] => e
  | e :: es' => e ++ Separator :: joinElems es'
  end.

End filepath.

(** ** The tar engine: [ExtractTarballTmp] and [sanitizeExtractPath] *)
Module Tar.

(** *** The collaborators: [io], [archive/tar] and the file system *)

(** What the code reads of a [tar.Header].  [IsDir] is the answer of
    [hdr.FileInfo().IsDir()], which the reader derives from the type flag
    and the mode bits; [Size] is an [int64]. *)
Record Header := { Name : string; IsDir : bool; Size : Z }.

(** [hdr.FileInfo().Name()]: the base name of the entry name, of the
    cleaned entry name for a directory. *)
Definition FileInfoName (h : Header) : string :=
  if IsDir h then filepath.Base (filepath.Clean (Name h))
  else filepath.Base (Name h).

(** An [io.Reader] as a copy sees it: the bytes it delivers, and the error
    with which it stops after them, [io.EOF] or another one. *)
Record Reader := { data : list byte; stop : error }.

(** The reader [archive/tar] hands out for the current entry.  An entry of
    a header-only type (link, symlink, device, directory, fifo) has no
    data section even if its header carries a size: the reader is at
    [io.EOF] at once.  A regular entry delivers [size] bytes; when the
    archive ends before them the reader stops with
    [io.ErrUnexpectedEOF]. *)
Definition regFileReader (headerOnly : bool) (size : Z)
    (payload : list byte) : Reader :=
  let nb := if headerOnly then 0 else size in
  if Z.of_nat (length payload) <? nb
  then {| data := payload; stop := io_ErrUnexpectedEOF |}
  else {| data := take (Z.to_nat nb) payload; stop := io_EOF |}.

(** [io.Copy(dst, io.LimitReader(src, n))]: at most [n] bytes are read,
    none when [n <= 0]; [io.EOF] from the source ends the copy without
    error. *)
Definition CopyLimited (src : Reader) (n : Z) : list byte * option error :=
  let written := take (Z.to_nat n) (data src) in
  if Z.of_nat (length (data src)) <? n then
    (written, if is_EOF (stop src) then None else Some (stop src))
  else (written, None).

(** [io.CopyN(dst, src, n)]: the bytes written to [dst] and the error. *)
Definition CopyN (src : Reader) (n : Z) : list byte * option error :=
  let '(written, err) := CopyLimited src n in
  if Z.of_nat (length written) =? n then (written, None)
  else if (Z.of_nat (length written) <? n) && isNil err
  then (written, Some io_EOF)
  else (written, err).

(** One header of the archive with what the world answers while the code
    extracts it: the reader of its body, and the results of
    [os.MkdirAll] and [os.Create]. *)
Record Entry := {
  hdr : Header;
  body : Reader;
  mkdirAllErr : option error;
  createErr : option error
}.

(** The world one call of [ExtractTarballTmp] runs in. *)
Record World := {
  mkdirTemp : string * option error;
    (* os.MkdirTemp(os.TempDir(), "spdx-tar-extract-") *)
  openErr : option error;          (* os.Open(tarPath) *)
  fileHead : list byte;            (* the first bytes of the file *)
  seekErr : option error;          (* f.Seek(0, 0) *)
  gzipErr : option error;          (* gzip.NewReader(f) *)
  entries : list Entry;            (* the headers tr.Next() returns *)
  nextErr : error
    (* the error of tr.Next() after the last header: io.EOF or another *)
}.

(** [io.ReadFull(f, sample[:])] for the three bytes of [sample]. *)
Definition ReadFull3 (f : list byte) : list byte * option error :=
  match f with
  | a :: b :: c :: _ => ([a; b; c], None)
  | [] => ([], Some io_EOF)
  | _ => (f, Some io_ErrUnexpectedEOF)
  end.

(** The file system and the log. *)
Record FS := { dirs : gset string; files : gmap string (list byte) }.

Inductive LogEvent :=
| LogSkipWhiteout
| LogExtracted (numFiles : Z) (tarPath : string).

Record State := { fs : FS; logs : list LogEvent }.

Definition mkdir (p : string) (st : State) : State :=
  {| fs := {| dirs := {[p]} ∪ dirs (fs st); files := files (fs st) |};
     logs := logs st |}.

Definition writeFile (p : string) (b : list byte) (st : State) : State :=
  {| fs := {| dirs := dirs (fs st); files := <[p := b]> (files (fs st)) |};
     logs := logs st |}.

Definition log (ev : LogEvent) (st : State) : State :=
  {| fs := fs st; logs := logs st ++ [ev] |}.

(** [numFiles++] on a Go [int] of 64 bits. *)
Definition int_incr (n : Z) : Z :=
  if n + 1 <? 2 ^ 63 then n + 1 else n + 1 - 2 ^ 64.

(** *** The code *)

Definition sanitizeExtractPath (tmpDir filePath : string)
    : string * option error :=
  let destpath := filepath.Join tmpDir filePath in
  if negb (strings.HasPrefix destpath (filepath.Clean tmpDir +:+ "/"))
  then ("", Some (errorString (filePath +:+ ": illegal file path")))
  else (destpath, None).

Definition isWhiteout (h : Header) : bool :=
  strings.HasPrefix (filepath.Base (FileInfoName h)) ".wh".

(** How one turn of the [for] loop ends. *)
Inductive StepResult :=
| Continue (st : State) (numFiles : Z)
| Break (st : State) (numFiles : Z)
| Return (st : State) (err : error).

(** The body of the loop, from the test of [IsDir] on. *)
Definition extractEntry (tmpDir : string) (e : Entry) (st : State)
    (numFiles : Z) : StepResult :=
  if IsDir (hdr e) then Continue st numFiles
  else if isWhiteout (hdr e) then Continue (log LogSkipWhiteout st) numFiles
  else
    match mkdirAllErr e with
    | Some err =>
        Return st (wrapError "creating image directory structure: " err)
    | None =>
        let st1 :=
          mkdir (filepath.Join tmpDir (filepath.Dir (Name (hdr e)))) st in
        match sanitizeExtractPath tmpDir (Name (hdr e)) with
        | (_, Some err) => Return st1 err
        | (targetFile, None) =>
            match createErr e with
            | Some err =>
                Return st1 (wrapError "creating image layer file: " err)
            | None =>
                let st2 := writeFile targetFile [] st1 in
                match CopyN (body e) (Size (hdr e)) with
                | (written, Some err) =>
                    let st3 := writeFile targetFile written st2 in
                    if is_EOF err then Break st3 numFiles
                    else Return st3
                           (wrapError "extracting image data: " err)
                | (written, None) =>
                    Continue (writeFile targetFile written st2)
                             (int_incr numFiles)
                end
            end
        end
    end.

(** The [for] loop over the headers of the archive. *)
Fixpoint extractLoop (tmpDir tarPath : string) (es : list Entry)
    (next : error) (st : State) (numFiles : Z) : StepResult :=
  match es with
  | [] =>
      if is_EOF next then Break st numFiles
      else Return st (wrapError ("reading tarfile " +:+ tarPath +:+ ": ") next)
  | e :: es' =>
      match extractEntry tmpDir e st numFiles with
      | Continue st' n' => extractLoop tmpDir tarPath es' next st' n'
      | r => r
      end
  end.

Definition isGzip (sample : list byte) : bool :=
  match sample with
  | [x1f; x8b; x08] => true
  | _ => false
  end.

Definition ExtractTarballTmp (w : World) (tarPath : string) (st : State)
    : State * (string * option error) :=
  let '(tmpDir, err) := mkdirTemp w in
  match err with
  | Some e =>
      (st, (tmpDir,
            Some (wrapError
                    "creating temporary directory for tar extraction: " e)))
  | None =>
      let st := mkdir tmpDir st in
      match openErr w with
      | Some e => (st, (tmpDir, Some (wrapError "opening tarball: " e)))
      | None =>
          match ReadFull3 (fileHead w) with
          | (_, Some e) =>
              (st, ("", Some (wrapError
                                "sampling bytes from file header: " e)))
          | (sample, None) =>
              match seekErr w with
              | Some e =>
                  (st, ("", Some (wrapError "rewinding read pointer: " e)))
              | None =>
                  match (if isGzip sample then gzipErr w else None) with
                  | Some e => (st, ("", Some e))
                  | None =>
                      match extractLoop tmpDir tarPath (entries w)
                              (nextErr w) st 0 with
                      | Return st' e => (st', (tmpDir, Some e))
                      | Break st' n | Continue st' n =>
                          (log (LogExtracted n tarPath) st', (tmpDir, None))
                      end
                  end
              end
          end
      end
  end.

(** *** Vocabulary of the properties *)

(** Every step before the loop succeeded: the temp directory exists, the
    file is open, sampled and rewound, and the gzip reader, if one is
    needed, was built. *)
Definition opens (w : World) : bool :=
  isNil (mkdirTemp w).2 && isNil (openErr w)
  && isNil (ReadFull3 (fileHead w)).2 && isNil (seekErr w)
  && (negb (isGzip (ReadFull3 (fileHead w)).1) || isNil (gzipErr w)).

(** The loop passes over the entry without looking at its name. *)
Definition skipped (e : Entry) : bool :=
  IsDir (hdr e) || isWhiteout (hdr e).

(** The entry is a file entry, and its directory and its destination
    file could be created, the destination being inside [tmpDir]. *)
Definition reachesCopy (tmpDir : string) (e : Entry) : bool :=
  negb (skipped e) && isNil (mkdirAllErr e)
  && isNil (sanitizeExtractPath tmpDir (Name (hdr e))).2
  && isNil (createErr e).

Definition copyErr (e : Entry) : option error :=
  (CopyN (body e) (Size (hdr e))).2.

(** The loop goes on after the entry: it was skipped or extracted. *)
Definition passes (tmpDir : string) (e : Entry) : bool :=
  skipped e || (reachesCopy tmpDir e && isNil (copyErr e)).

(** The copy of the entry ends with [io.EOF]. *)
Definition copyEndsEOF (e : Entry) : bool :=
  negb (skipped e) &&
  match copyErr e with Some err => is_EOF err | None => false end.

(** The entries before the first one whose copy ends with [io.EOF]. *)
Fixpoint beforeBreak (es : list Entry) : list Entry :=
  match es with
  | [] => []
  | e :: es' => if copyEndsEOF e then [] else e :: beforeBreak es'
  end.

(** The number of entries that are neither directories nor whiteouts. *)
Definition fileEntries (es : list Entry) : nat :=
  length (List.filter (λ e, negb (skipped e)) es).

(** The file named [p] lies below [tmpDir], by the test of
    [sanitizeExtractPath]. *)
Definition inside (tmpDir p : string) : bool :=
  strings.HasPrefix p (filepath.Clean tmpDir +:+ "/").

(** The state in which a turn of the loop ends. *)
Definition resultState (r : StepResult) : State :=
  match r with
  | Continue st _ | Break st _ | Return st _ => st
  end.

(** Files outside [tmpDir] are the same in both states. *)
Definition unchangedOutside (tmpDir : string) (s s' : State) : Prop :=
  ∀ p, inside tmpDir p = false → files (fs s') !! p = files (fs s) !! p.

(** The counter after an entry the loop passes. *)
Definition countEntry (n : Z) (e : Entry) : Z :=
  if skipped e then n else int_incr n.

(** The world [w] with the headers [es] in place of its own. *)
Definition withEntries (w : World) (es : list Entry) : World :=
  {| mkdirTemp := mkdirTemp w; openErr := openErr w; fileHead := fileHead w;
     seekErr := seekErr w; gzipErr := gzipErr w; entries := es;
     nextErr := nextErr w |}.

(** The log without the notes on skipped whiteouts. *)
Definition extractionLogs (st : State) : list LogEvent :=
  List.filter
    (λ ev, match ev with LogSkipWhiteout => false | LogExtracted _ _ => true end)
    (logs st).

(** What a state holds apart from the notes on skipped whiteouts. *)
Definition view (st : State) : FS * list LogEvent := (fs st, extractionLogs st).

(** How a turn of the loop ends, seen through [view]. *)
Definition viewResult (r : StepResult)
    : (FS * list LogEvent) * (bool * Z + error) :=
  match r with
  | Continue st n => (view st, inl (true, n))
  | Break st n => (view st, inl (false, n))
  | Return st err => (view st, inr err)
  end.

(** Every directory and every file of [s] exists in [s']. *)
Definition extends (s s' : State) : Prop :=
  dirs (fs s) ⊆ dirs (fs s') ∧
  ∀ p, is_Some (files (fs s) !! p) → is_Some (files (fs s') !! p).

(** *** Sample archives *)

Definition emptyState : State :=
  {| fs := {| dirs := ∅; files := ∅ |}; logs := [] |}.

(** A plain tar file whose headers are [es], extracted to [/tmp/x]. *)
Definition plainTar (es : list Entry) : World :=
  {| mkdirTemp := ("/tmp/x", None); openErr := None;
     fileHead := [x00; x00; x00]; seekErr := None; gzipErr := None;
     entries := es; nextErr := io_EOF |}.

Definition fileEntry (name : string) (payload : list byte) : Entry :=
  {| hdr := {| Name := name; IsDir := false;
               Size := Z.of_nat (length payload) |};
     body := regFileReader false (Z.of_nat (length payload)) payload;
     mkdirAllErr := None; createErr := None |}.

(** A hard link whose header carries the size of the file it links to. *)
Definition linkEntry (name : string) (size : Z) : Entry :=
  {| hdr := {| Name := name; IsDir := false; Size := size |};
     body := regFileReader true size [];
     mkdirAllErr := None; createErr := None |}.

(** An existing file that is shorter than the three sampled bytes. *)
Definition shortFile (head : list byte) : World :=
  {| mkdirTemp := ("/tmp/spdx-tar-extract-1", None); openErr := None;
     fileHead := head; seekErr := None; gzipErr := None;
     entries := []; nextErr := io_EOF |}.

End Tar.

(** ** Results of collaborators and of the methods that return a pointer

    [Ok v] is [(v, nil)]; [Err e] is the zero value, a [nil] pointer or
    slice, with the error [e]. *)
Inductive result (A : Type) : Type :=
| Ok (v : A)
| Err (e : error).
Arguments Ok {A} v.
Arguments Err {A} e.

(** ** The SPDX objects

    The types of the objects are declared in files of the package other
    than [implementation.go]; the records below hold the fields of the
    data model of the spec (section 3) that the code reads or writes. *)
Module SPDX.

(** Modelled from the spec: the relationship types are declared outside
    [implementation.go]; "the taxonomy used by the assembler includes at
    least: CONTAINS, VARIANT_OF, DEPENDS_ON, DESCRIBES". *)
Inductive RelationshipType := CONTAINS | VARIANT_OF | DEPENDS_ON | DESCRIBES.

(** Modelled from the spec: [Relationship] is declared outside
    [implementation.go]; a "typed directed edge from one Package to
    another" with "an optional human comment and a full render flag".  The
    peer, a pointer in the code, is the address of the peer in the store of
    packages. *)
Record Relationship := {
  Peer : nat;
  Type_ : RelationshipType;
  FullRender : bool;
  Comment : string
}.

(** Modelled from the spec: [ExternalRef] is declared outside
    [implementation.go]; "a (category, type, locator) triple attached to a
    Package". *)
Record ExternalRef := { Category : string; RefType : string; Locator : string }.

(** Modelled from the spec: [File] is declared outside
    [implementation.go]; a node with a path "stored relative to a work-dir
    after prefix stripping", a "license-info-in-file tag" and a
    "license-concluded tag". *)
Record File := {
  FileName : string;
  FileWorkDir : string;          (* Options().WorkDir *)
  FilePrefix : string;           (* Options().Prefix *)
  LicenseInfoInFile : string;
  FileLicenseConcluded : string
}.

(** Modelled from the spec: [Package] is declared outside
    [implementation.go]; a node with "name, version, download location,
    license-concluded tag, supplier, file-analysis flag, a sequence of
    contained Files, a sequence of sub-Packages, and a sequence of typed
    Relationships", and with the work directory of its options. *)
#[warnings="-register-all"]
Inductive Package := mkPackage {
  ID : string;
  Name : string;
  Version : string;
  HomePage : string;
  DownloadLocation : string;
  LicenseConcluded : string;
  SupplierPerson : string;
  FilesAnalyzed : bool;
  WorkDir : string;              (* Options().WorkDir *)
  SourceFile : string;           (* the file ReadSourceFile hashed *)
  Files : list File;
  Packages : list Package;
  ExternalRefs : list ExternalRef;
  Relationships : list Relationship
}.

(** Modelled from the spec: [Options] is declared outside
    [implementation.go]; its "recognized fields are exactly" those of
    section 6. *)
Record Options := {
  AddTarFiles : bool;
  AnalyzeLayers : bool;
  ScanImages : bool;
  ScanLicenses : bool;
  OnlyDirectDeps : bool;
  IgnorePatterns : list string;
  NoGitignore : bool;
  LicenseCacheDir : string;
  LicenseData : string
}.

(** Modelled from the spec: [TarballOptions] is declared outside
    [implementation.go]; the code reads and writes its fields [AddFiles]
    and [ExtractDir]. *)
Record TarballOptions := { AddFiles : bool; ExtractDir : string }.

(** [&Package{}]: the zero value of the type. *)
Definition zeroPackage : Package :=
  {| ID := ""; Name := ""; Version := ""; HomePage := "";
     DownloadLocation := ""; LicenseConcluded := ""; SupplierPerson := "";
     FilesAnalyzed := false; WorkDir := ""; SourceFile := ""; Files := [];
     Packages := []; ExternalRefs := []; Relationships := [] |}.

(** Modelled from the spec: [NewPackage] is declared outside
    [implementation.go]; "Packages/Files are created empty". *)
Definition NewPackage : Package := zeroPackage.

(** Assignments to the fields of a package. *)
Definition setID (v : string) (p : Package) : Package :=
  mkPackage v (Name p) (Version p) (HomePage p) (DownloadLocation p)
    (LicenseConcluded p) (SupplierPerson p) (FilesAnalyzed p) (WorkDir p)
    (SourceFile p) (Files p) (Packages p) (ExternalRefs p) (Relationships p).

Definition setName (v : string) (p : Package) : Package :=
  mkPackage (ID p) v (Version p) (HomePage p) (DownloadLocation p)
    (LicenseConcluded p) (SupplierPerson p) (FilesAnalyzed p) (WorkDir p)
    (SourceFile p) (Files p) (Packages p) (ExternalRefs p) (Relationships p).

Definition setVersion (v : string) (p : Package) : Package :=
  mkPackage (ID p) (Name p) v (HomePage p) (DownloadLocation p)
    (LicenseConcluded p) (SupplierPerson p) (FilesAnalyzed p) (WorkDir p)
    (SourceFile p) (Files p) (Packages p) (ExternalRefs p) (Relationships p).

Definition setHomePage (v : string) (p : Package) : Package :=
  mkPackage (ID p) (Name p) (Version p) v (DownloadLocation p)
    (LicenseConcluded p) (SupplierPerson p) (FilesAnalyzed p) (WorkDir p)
    (SourceFile p) (Files p) (Packages p) (ExternalRefs p) (Relationships p).

Definition setDownloadLocation (v : string) (p : Package) : Package :=
  mkPackage (ID p) (Name p) (Version p) (HomePage p) v
    (LicenseConcluded p) (SupplierPerson p) (FilesAnalyzed p) (WorkDir p)
    (SourceFile p) (Files p) (Packages p) (ExternalRefs p) (Relationships p).

Definition setLicenseConcluded (v : string) (p : Package) : Package :=
  mkPackage (ID p) (Name p) (Version p) (HomePage p) (DownloadLocation p)
    v (SupplierPerson p) (FilesAnalyzed p) (WorkDir p)
    (SourceFile p) (Files p) (Packages p) (ExternalRefs p) (Relationships p).

Definition setSupplierPerson (v : string) (p : Package) : Package :=
  mkPackage (ID p) (Name p) (Version p) (HomePage p) (DownloadLocation p)
    (LicenseConcluded p) v (FilesAnalyzed p) (WorkDir p)
    (SourceFile p) (Files p) (Packages p) (ExternalRefs p) (Relationships p).

Definition setFilesAnalyzed (v : bool) (p : Package) : Package :=
  mkPackage (ID p) (Name p) (Version p) (HomePage p) (DownloadLocation p)
    (LicenseConcluded p) (SupplierPerson p) v (WorkDir p)
    (SourceFile p) (Files p) (Packages p) (ExternalRefs p) (Relationships p).

Definition setWorkDir (v : string) (p : Package) : Package :=
  mkPackage (ID p) (Name p) (Version p) (HomePage p) (DownloadLocation p)
    (LicenseConcluded p) (SupplierPerson p) (FilesAnalyzed p) v
    (SourceFile p) (Files p) (Packages p) (ExternalRefs p) (Relationships p).

Definition appendExternalRef (r : ExternalRef) (p : Package) : Package :=
  mkPackage (ID p) (Name p) (Version p) (HomePage p) (DownloadLocation p)
    (LicenseConcluded p) (SupplierPerson p) (FilesAnalyzed p) (WorkDir p)
    (SourceFile p) (Files p) (Packages p) (ExternalRefs p ++ [r])
    (Relationships p).

(** Modelled from the spec: [AddRelationship] is declared outside
    [implementation.go]; a package holds "a sequence of typed
    Relationships to peer Packages", to which the assembler "adds" one. *)
Definition AddRelationship (r : Relationship) (p : Package) : Package :=
  mkPackage (ID p) (Name p) (Version p) (HomePage p) (DownloadLocation p)
    (LicenseConcluded p) (SupplierPerson p) (FilesAnalyzed p) (WorkDir p)
    (SourceFile p) (Files p) (Packages p) (ExternalRefs p)
    (Relationships p ++ [r]).

(** Modelled from the spec: [AddPackage] is declared outside
    [implementation.go]; a package holds "a sequence of sub-Packages", in
    which the assembler "nests" one. *)
Definition AddPackage (sub : Package) (p : Package) : Package :=
  mkPackage (ID p) (Name p) (Version p) (HomePage p) (DownloadLocation p)
    (LicenseConcluded p) (SupplierPerson p) (FilesAnalyzed p) (WorkDir p)
    (SourceFile p) (Files p) (Packages p ++ [sub]) (ExternalRefs p)
    (Relationships p).

(** Modelled from the spec: [NewFile] is declared outside
    [implementation.go]; "Packages/Files are created empty". *)
Definition NewFile : File :=
  {| FileName := ""; FileWorkDir := ""; FilePrefix := "";
     LicenseInfoInFile := ""; FileLicenseConcluded := "" |}.

(** Modelled from the spec: the constant [NONE] is declared outside
    [implementation.go]; "a license-info-in-file tag (may be `NONE`)". *)
Definition NONE : string := "NONE".

(** Modelled from the spec: [AddFile] is declared outside
    [implementation.go]; a package holds "a sequence of contained Files",
    and a worker of the scanner has to "attach the File to the Package". *)
Definition AddFile (f : File) (p : Package) : Package :=
  mkPackage (ID p) (Name p) (Version p) (HomePage p) (DownloadLocation p)
    (LicenseConcluded p) (SupplierPerson p) (FilesAnalyzed p) (WorkDir p)
    (SourceFile p) (Files p ++ [f]) (Packages p) (ExternalRefs p)
    (Relationships p).

(** The two relationships [ImageRefToPackage] adds for a child image. *)
Definition containsRel (peer : nat) : Relationship :=
  {| Peer := peer; Type_ := CONTAINS; FullRender := true;
     Comment := "Container image lager" |}.

Definition variantOfRel (peer : nat) : Relationship :=
  {| Peer := peer; Type_ := VARIANT_OF; FullRender := false;
     Comment := "Image index" |}.

(** The external reference the assembler builds for a purl. *)
Definition purlRef (packageurl : string) : ExternalRef :=
  {| Category := "PACKAGE-MANAGER"; RefType := "purl";
     Locator := packageurl |}.

End SPDX.

(** ** The ignore engine and the directory scanner *)
Module Scan.

(** The collaborator [gitignore] of go-git: [ParsePattern(s, nil)] and
    [NewMatcher(patterns).Match(path, isDir)]. *)
Class Gitignore := {
  Pattern : Type;
  ParsePattern : string → Pattern;
  MatcherMatch : list Pattern → list string → bool → bool
}.

(** One call of the function [fs.WalkDir] hands to its callback. *)
Record WalkEntry := {
  walkPath : string;
  walkErr : option error;
  walkIsDir : bool;               (* d.IsDir() *)
  walkIsSymlink : bool            (* d.Type() == os.ModeSymlink *)
}.

(** The top license of a directory as the classifier reports it. *)
Record License := { LicenseID : string }.

(** The world of a directory scan: the file system, the license reader and
    the workers that process the files. *)
Record World := {
  Abs : string → string * option error;               (* filepath.Abs *)
  WalkDir : string → list WalkEntry;
  Exists : string → bool;                             (* util.Exists *)
  OpenLines : string → result (list string);
    (* os.Open, and the lines bufio.Scanner yields *)
  TrimSpace : string → string;                        (* strings.TrimSpace *)
  NewReaderWithOptions : string → string → option error;
    (* license.NewReaderWithOptions for CacheDir and LicenseDir *)
  ReadTopLicense : string → option License * option error;
  uuidNewString : string;
  processFiles : string → string → SPDX.Package → list string
                 → SPDX.Package * option error
    (* lines 955-994: the goroutines that add a File per path under the
       throttler, for the directory and the license tag; the package they
       leave and the error t.Err() reports *)
}.

(** Modelled from the spec: the constant [gitIgnoreFile] is declared outside
    [implementation.go]; the ignore engine reads "a [.gitignore] at the
    scan root". *)
Definition gitIgnoreFile : string := ".gitignore".

Definition GetDirectoryTree (w : World) (dirPath : string)
    : result (list string) :=
  let walk :=
    fold_left
      (λ (acc : result (list string)) (d : WalkEntry),
         match acc with
         | Err e => Err e
         | Ok fileList =>
             match walkErr d with
             | Some e => Err e
             | None =>
                 if walkIsDir d then Ok fileList
                 else if walkIsSymlink d then Ok fileList
                 else Ok (fileList ++ [walkPath d])
             end
         end)
      (WalkDir w dirPath) (Ok []) in
  match walk with
  | Err e => Err (wrapError "buiding directory tree: " e)
  | Ok fileList => Ok fileList
  end.

(** The test on a line of [.gitignore]. *)
Definition isPatternLine (w : World) (s : string) : bool :=
  negb (strings.HasPrefix s "#")
  && (0 <? String.length (TrimSpace w s))%nat.

Definition IgnorePatterns `{G : Gitignore} (w : World) (dirPath : string)
    (extraPatterns : list string) (skipGitIgnore : bool)
    : result (list Pattern) :=
  let patterns :=
    fold_left (λ ps s, ps ++ [ParsePattern s]) extraPatterns [] in
  if skipGitIgnore then Ok patterns
  else if Exists w (filepath.Join dirPath gitIgnoreFile) then
    match OpenLines w (filepath.Join dirPath gitIgnoreFile) with
    | Err e => Err (wrapError "opening gitignore file: " e)
    | Ok lines =>
        let patterns := patterns ++ [ParsePattern ".git/"] in
        Ok (fold_left
              (λ ps s, if isPatternLine w s then ps ++ [ParsePattern s]
                       else ps)
              lines patterns)
    end
  else Ok patterns.

Definition ApplyIgnorePatterns `{G : Gitignore} (fileList : list string)
    (patterns : list Pattern) : list string :=
  fold_left
    (λ filteredList file,
       if MatcherMatch patterns (strings.Split file filepath.Separator) false
       then filteredList
       else filteredList ++ [file])
    fileList [].

Definition LicenseReader (w : World) (spdxOpts : SPDX.Options)
    : option error :=
  match NewReaderWithOptions w (SPDX.LicenseCacheDir spdxOpts)
          (SPDX.LicenseData spdxOpts) with
  | Some e => Some (wrapError "creating reusable license reader: " e)
  | None => None
  end.

Definition GetDirectoryLicense (w : World) (path : string)
    : result (option License) :=
  match ReadTopLicense w path with
  | (_, Some e) => Err (wrapError "getting directory license: " e)
  | (None, None) => Ok None
  | (Some lic, None) => Ok (Some lic)
  end.

Definition PackageFromDirectory `{G : Gitignore} (w : World)
    (opts : SPDX.Options) (dirPath : string) : result SPDX.Package :=
  match Abs w dirPath with
  | (_, Some e) => Err (wrapError "getting absolute directory path: " e)
  | (dirPath, None) =>
  match GetDirectoryTree w dirPath with
  | Err e => Err (wrapError "building directory tree: " e)
  | Ok fileList =>
  match LicenseReader w opts with
  | Some e => Err (wrapError "creating license reader: " e)
  | None =>
  match GetDirectoryLicense w dirPath with
  | Err e => Err (wrapError "scanning directory for licenses: " e)
  | Ok lic =>
  let licenseTag :=
    match lic with Some l => LicenseID l | None => "" end in
  match IgnorePatterns w dirPath (SPDX.IgnorePatterns opts)
          (SPDX.NoGitignore opts) with
  | Err e => Err (wrapError "building ignore patterns list: " e)
  | Ok patterns =>
  let fileList := ApplyIgnorePatterns fileList patterns in
  if (length fileList =? 0)%nat then
    Err (errorString ("directory " +:+ dirPath +:+ " has no files to scan"))
  else
    let pkg := SPDX.setFilesAnalyzed true SPDX.NewPackage in
    let pkg := SPDX.setName (filepath.Base dirPath) pkg in
    let pkg :=
      if String.eqb (SPDX.Name pkg) ""
      then SPDX.setName (uuidNewString w) pkg else pkg in
    let pkg := SPDX.setLicenseConcluded licenseTag pkg in
    let pkg := SPDX.setWorkDir (filepath.Dir dirPath) pkg in
    match processFiles w dirPath licenseTag pkg fileList with
    | (_, Some e) => Err e
    | (pkg, None) => Ok pkg
    end
  end end end end end.

(** *** Vocabulary of the properties *)

(** The error of the first call of the walk that carries one. *)
Definition firstWalkErr (ds : list WalkEntry) : option error :=
  head (omap walkErr ds).

(** The entry is neither a directory nor a symbolic link. *)
Definition listed (d : WalkEntry) : bool :=
  negb (walkIsDir d) && negb (walkIsSymlink d).

(** The package [PackageFromDirectory] hands to the workers for the
    directory [dirPath] and the license tag [licenseTag]. *)
Definition directoryPackage (dirPath licenseTag : string) : SPDX.Package :=
  SPDX.setWorkDir (filepath.Dir dirPath)
    (SPDX.setLicenseConcluded licenseTag
       (SPDX.setName (filepath.Base dirPath)
          (SPDX.setFilesAnalyzed true SPDX.NewPackage))).

End Scan.

(** ** The workers of the directory scanner: [processDirectoryFile] *)
Module FileWorker.

(** The collaborators of a worker: the license reader, and the methods of
    [File] and [Package] that are declared outside [implementation.go]. *)
Record World := {
  LicenseFromFile : string → option Scan.License * option error;
    (* reader.LicenseFromFile *)
  ReadSourceFile : SPDX.File → string → SPDX.File * option error;
    (* f.ReadSourceFile: the file it leaves, and the error *)
  AddFileErr : SPDX.Package → SPDX.File → option error
    (* the error of pkg.AddFile *)
}.

(** The variables of [PackageFromDirectory] the closure assigns to: the
    named result [err], the license [lic], and the package behind [pkg]. *)
Record Vars := {
  err : option error;
  lic : option Scan.License;
  pkg : SPDX.Package
}.

Definition setErr (e : option error) (v : Vars) : Vars :=
  {| err := e; lic := lic v; pkg := pkg v |}.

(** Assignments to the fields of a file. *)
Definition setFileWorkDir (d : string) (f : SPDX.File) : SPDX.File :=
  {| SPDX.FileName := SPDX.FileName f; SPDX.FileWorkDir := d;
     SPDX.FilePrefix := SPDX.FilePrefix f;
     SPDX.LicenseInfoInFile := SPDX.LicenseInfoInFile f;
     SPDX.FileLicenseConcluded := SPDX.FileLicenseConcluded f |}.

Definition setFilePrefix (p : string) (f : SPDX.File) : SPDX.File :=
  {| SPDX.FileName := SPDX.FileName f; SPDX.FileWorkDir := SPDX.FileWorkDir f;
     SPDX.FilePrefix := p;
     SPDX.LicenseInfoInFile := SPDX.LicenseInfoInFile f;
     SPDX.FileLicenseConcluded := SPDX.FileLicenseConcluded f |}.

Definition setLicenseInfoInFile (t : string) (f : SPDX.File) : SPDX.File :=
  {| SPDX.FileName := SPDX.FileName f; SPDX.FileWorkDir := SPDX.FileWorkDir f;
     SPDX.FilePrefix := SPDX.FilePrefix f;
     SPDX.LicenseInfoInFile := t;
     SPDX.FileLicenseConcluded := SPDX.FileLicenseConcluded f |}.

Definition setFileLicenseConcluded (t : string) (f : SPDX.File) : SPDX.File :=
  {| SPDX.FileName := SPDX.FileName f; SPDX.FileWorkDir := SPDX.FileWorkDir f;
     SPDX.FilePrefix := SPDX.FilePrefix f;
     SPDX.LicenseInfoInFile := SPDX.LicenseInfoInFile f;
     SPDX.FileLicenseConcluded := t |}.

(** One call of the closure, run without interference: the variables it
    leaves, and the error it hands to the throttler.  The statement
    [defer t.Done(err)] evaluates its argument when it is executed, at the
    start of the call; the deferred call passes that value. *)
Definition processDirectoryFile (w : World) (dirPath licenseTag : string)
    (path : string) (v : Vars) : Vars * option error :=
  let done := err v in
  let f := SPDX.NewFile in
  let f := setFileWorkDir dirPath f in
  let f := setFilePrefix (SPDX.Name (pkg v)) f in
  let '(l, e) := LicenseFromFile w (filepath.Join dirPath path) in
  let v := {| err := e; lic := l; pkg := pkg v |} in
  match err v with
  | Some e => (setErr (Some (wrapError "scanning file for license: " e)) v, done)
  | None =>
      let f := setLicenseInfoInFile SPDX.NONE f in
      let f :=
        match lic v with
        | None => setFileLicenseConcluded licenseTag f
        | Some l => setLicenseInfoInFile (Scan.LicenseID l) f
        end in
      let '(f, e) := ReadSourceFile w f (filepath.Join dirPath path) in
      let v := setErr e v in
      match err v with
      | Some e => (setErr (Some (wrapError "checksumming file: " e)) v, done)
      | None =>
          let e := AddFileErr w (pkg v) f in
          let v :=
            {| err := e; lic := lic v;
               pkg := match e with
                      | None => SPDX.AddFile f (pkg v)
                      | Some _ => pkg v
                      end |} in
          match err v with
          | Some e =>
              (setErr
                 (Some (wrapError
                          ("adding " +:+ path
                           +:+ " as file to the spdx package: ") e)) v,
               done)
          | None => (v, done)
          end
      end
  end.

(** The end of [PackageFromDirectory] for a list of one file: the one
    worker runs while the caller waits in [t.Throttle()], [err] is [nil]
    when it starts, and [t.Err()] is the error the worker handed to the
    throttler.  The result is the package the worker leaves, and that
    error. *)
Definition scanOneFile (w : World) (dirPath licenseTag : string)
    (lic0 : option Scan.License) (pkg0 : SPDX.Package) (path : string)
    : SPDX.Package * option error :=
  let '(v, done) :=
    processDirectoryFile w dirPath licenseTag path
      {| err := None; lic := lic0; pkg := pkg0 |} in
  (pkg v, done).

End FileWorker.

(** ** The image assembler *)
Module Image.

(** *** The collaborators *)

(** References of go-containerregistry ([name.Reference]): what the code
    asks of a reference, and of the zero [name.Tag] it holds after a failed
    type assertion. *)
Class Registry := {
  Reference : Type;
  ParseReference : string → result Reference;   (* name.ParseReference *)
  NewDigest : string → result Reference;        (* name.NewDigest *)
  isTag : Reference → bool;                     (* ref.(name.Tag) *)
  isDigest : Reference → bool;                  (* ref.(name.Digest) *)
  RefString : Reference → string;               (* String() *)
  ContextName : Reference → string;             (* Context().Name() *)
  DigestStr : Reference → string;               (* DigestStr() *)
  RegistryStr : Reference → string;
  RepositoryStr : Reference → string;
  zeroTagRegistryStr : string;
  zeroTagRepositoryStr : string
}.

Record Hash := { Algorithm : string; Hex : string }.

Record Platform := { Architecture : string; OS : string }.

(** A child manifest of an index ([v1.Descriptor]). *)
Record ManifestDescriptor := {
  mdMediaType : string;
  mdDigest : Hash;
  mdPlatform : option Platform
}.

Record IndexManifest := {
  imMediaType : string;
  Manifests : list ManifestDescriptor
}.

(** What [v1.Image] answers. *)
Record ImageHandle := {
  imgDigest : result Hash;
  imgMediaType : result string;
  imgConfigFile : result Platform
}.

(** What [remote.Get] returns ([remote.Descriptor]). *)
Record Descriptor `{Registry} := {
  descRef : Reference;
  descIsImage : bool;                       (* MediaType.IsImage() *)
  descDigest : Hash;
  descImage : result ImageHandle;           (* Image() *)
  descImageIndex : result (result IndexManifest)
    (* ImageIndex(), then IndexManifest() *)
}.

(** Modelled from the spec: [ImageReferenceInfo] is declared outside
    [implementation.go]; "a record describing one OCI reference: canonical
    digest string, media type, architecture, OS, optional local archive
    path, optional parent tag string, and a sequence of child
    ImageReferenceInfo".  The fields carry the names the code uses. *)
#[warnings="-register-all"]
Inductive ImageReferenceInfo := mkImageReferenceInfo {
  Digest : string;
  Reference_ : string;            (* the field Reference *)
  Archive : string;
  Arch : string;
  OS_ : string;                   (* the field OS *)
  MediaType : string;
  Images : list ImageReferenceInfo
}.

(** Modelled from the spec: [ArchiveManifest] is declared outside
    [implementation.go]; "a list of config and layer file names plus a
    list of repo tags". *)
Record ArchiveManifest := {
  ConfigFilename : string;
  RepoTags : list string;
  LayerFiles : list string
}.

(** Modelled from the spec: the constant [archiveManifestFilename] is
    declared outside [implementation.go]; "the extracted root must contain
    a [manifest.json]". *)
Definition archiveManifestFilename : string := "manifest.json".

(** Modelled from the spec: [osinfo.PackageDBEntry] is declared in another
    package of the repository; "each entry exposes Package, Version,
    HomePage, MaintainerName, MaintainerEmail, PackageURL()". *)
Record PackageDBEntry := {
  dbPackage : string;
  dbVersion : string;
  dbHomePage : string;
  dbMaintainerName : string;
  dbMaintainerEmail : string;
  dbPackageURL : string
}.

(** A package URL before it is printed ([purl.NewPackageURL]). *)
Record PackageURL := {
  purlType : string;
  purlNamespace : string;
  purlName : string;
  purlVersion : string;
  purlQualifiers : gmap string string;
  purlSubpath : string
}.

(** The calls that leave a trace outside the package graph. *)
Inductive Call :=
| CallExtractTarballTmp (tarPath : string)
| CallPackageFromDirectory (dirPath : string)
| CallAnalyzeImageLayer (layerPath : string)
| CallReadOSPackages (layerPaths : list string)
| CallRemoveAll (path : string).

(** The world of one call of [ImageRefToPackage]: the registry, the file
    system, and the helpers of the package that are declared outside
    [implementation.go] ([BuildID], [ReadSourceFile], the image analyzer,
    the scanner of OS packages).  The methods [ExtractTarballTmp],
    [ReadArchiveManifest] and [PackageFromDirectory] enter as parameters as
    well: the assembler is studied for every result they can return, those
    the models of [Tar] and [Scan] compute among them. *)
Record World `{Registry} := {
  MkdirTemp : string * option error;      (* os.MkdirTemp("", "doc-build-") *)
  remoteGet : Reference → result Descriptor;
  utilExists : string → bool;
  MkdirAll : string → option error;
  remoteImage : Reference → option error;
  MultiWriteToFile : string → string → option error;
    (* the archive path and the tag of the image *)
  schedule : list nat;
    (* the order in which the download tasks finish *)
  craneDigest : string → result string;
  PurlString : PackageURL → string;       (* PackageURL.String() *)
  BuildID : SPDX.Package → list string → string;
  ExtractTarballTmp : string → string * option error;
  ReadArchiveManifest : string → result ArchiveManifest;
  ReadOSPackages : list string → result (Z * option (list PackageDBEntry));
  PackageFromDirectory : SPDX.Options → string → result SPDX.Package;
  ReadSourceFile : SPDX.Package → string → SPDX.Package * option error;
  AnalyzeLayer : string → SPDX.Package → SPDX.Package * option error;
    (* the package as the analyzer leaves it, and the error *)
  AddPackageErr : SPDX.Package → SPDX.Package → option error
}.

(** *** State: the packages reachable through pointers, and the calls *)

Record State := { store : list SPDX.Package; calls : list Call }.

Definition M (A : Type) : Type := State → State * result A.

Definition ret {A} (v : A) : M A := λ s, (s, Ok v).

Definition fail {A} (e : error) : M A := λ s, (s, Err e).

Definition bind {A B} (m : M A) (k : A → M B) : M B :=
  λ s, match m s with
       | (s', Ok v) => k v s'
       | (s', Err e) => (s', Err e)
       end.

Definition call (c : Call) : M unit :=
  λ s, ({| store := store s; calls := calls s ++ [c] |}, Ok tt).

(** [defer os.RemoveAll(path)]: the removal runs when the rest of the
    function has returned, with or without error. *)
Definition deferRemoveAll {A} (path : string) (rest : M A) : M A :=
  λ s, let '(s', r) := rest s in
       ({| store := store s'; calls := calls s' ++ [CallRemoveAll path] |}, r).

(** A new package behind a pointer: its address in the store. *)
Definition alloc (p : SPDX.Package) : M nat :=
  λ s, ({| store := store s ++ [p]; calls := calls s |},
        Ok (length (store s))).

(** An assignment through the pointer [a]. *)
Definition update (a : nat) (f : SPDX.Package → SPDX.Package) : M unit :=
  λ s, ({| store := alter f a (store s); calls := calls s |}, Ok tt).

(** A collaborator's answer, its error wrapped as the code wraps it. *)
Definition wrapping {A} (pre : string) (r : result A) : M A :=
  match r with
  | Ok v => ret v
  | Err e => fail (wrapError pre e)
  end.

Definition wrappingErr (pre : string) (r : option error) : M unit :=
  match r with
  | None => ret tt
  | Some e => fail (wrapError pre e)
  end.

(** An error of the callee [m], wrapped as the caller wraps it. *)
Definition wrapM {A} (pre : string) (m : M A) : M A :=
  λ s, match m s with
       | (s', Err e) => (s', Err (wrapError pre e))
       | r => r
       end.

Notation "'let*' x ':=' c1 'in' c2" := (bind c1 (λ x, c2))
  (at level 10, x name, c1 at level 100, c2 at level 200).

(** Assignments to the fields of an [ImageReferenceInfo]. *)
Definition setDigest (v : string) (r : ImageReferenceInfo) :=
  mkImageReferenceInfo v (Reference_ r) (Archive r) (Arch r) (OS_ r)
    (MediaType r) (Images r).

Definition setArchive (v : string) (r : ImageReferenceInfo) :=
  mkImageReferenceInfo (Digest r) (Reference_ r) v (Arch r) (OS_ r)
    (MediaType r) (Images r).

Definition setPlatform (arch os : string) (r : ImageReferenceInfo) :=
  mkImageReferenceInfo (Digest r) (Reference_ r) (Archive r) arch os
    (MediaType r) (Images r).

Definition setMediaType (v : string) (r : ImageReferenceInfo) :=
  mkImageReferenceInfo (Digest r) (Reference_ r) (Archive r) (Arch r) (OS_ r)
    v (Images r).

Definition setImages (v : list ImageReferenceInfo) (r : ImageReferenceInfo) :=
  mkImageReferenceInfo (Digest r) (Reference_ r) (Archive r) (Arch r) (OS_ r)
    (MediaType r) v.

(** *** The reference resolver: [getImageReferences] *)

(** [fmt.Sprintf("%s/%s@%s:%s", registry, repository, algorithm, hex)] *)
Definition digestReference (registry repository : string) (h : Hash)
    : string :=
  registry +:+ "/" +:+ repository +:+ "@" +:+ Algorithm h +:+ ":" +:+ Hex h.

(** The loop over the manifests of the index. *)
Fixpoint indexImages `{Registry} (registry repository : string)
    (manifests : list ManifestDescriptor) (images : list ImageReferenceInfo)
    : M (list ImageReferenceInfo) :=
  match manifests with
  | [] => ret images
  | manifest :: manifests' =>
      let* archImgDigest := wrapping "generating digest for image: "
        (NewDigest (digestReference registry repository (mdDigest manifest))) in
      let '(arch, osid) :=
        match mdPlatform manifest with
        | Some p => (Architecture p, OS p)
        | None => ("", "")
        end in
      indexImages registry repository manifests'
        (images ++
           [ mkImageReferenceInfo (RefString archImgDigest) "" "" arch osid
               (mdMediaType manifest) [] ])
  end.

Definition getImageReferences `{Registry} (w : World)
    (referenceString : string) : M ImageReferenceInfo :=
  let* ref := wrapping ("parsing image reference " +:+ referenceString +:+ ": ")
    (ParseReference referenceString) in
  let* descr := wrapping "fetching remote descriptor: " (remoteGet w ref) in
  let tok := isTag (descRef descr) in
  let dok := isDigest (descRef descr) in
  if negb tok && negb dok then
    fail (errorString ("could not cast tag or digest from reference "
                       +:+ referenceString +:+ ": %!w(<nil>)"))
  else
    let registry :=
      if tok then RegistryStr (descRef descr) else zeroTagRegistryStr in
    let repository :=
      if tok then RepositoryStr (descRef descr) else zeroTagRepositoryStr in
    let images :=
      mkImageReferenceInfo
        (digestReference registry repository (descDigest descr))
        "" "" "" "" "" [] in
    if descIsImage descr then
      let* im := wrapping "getting image from descriptor: " (descImage descr) in
      let* imageDigest := wrapping "while calculating image digest: "
        (imgDigest im) in
      let* dig := (if tok && negb dok
              then wrapping "building single image digest: "
                     (NewDigest
                        (digestReference registry repository imageDigest))
              else ret (descRef descr)) in
      let images := setDigest (RefString dig) images in
      let images :=
        match imgMediaType im with
        | Ok mt => setMediaType mt images
        | Err _ => images
        end in
      let images :=
        match imgConfigFile im with
        | Ok conf => setPlatform (Architecture conf) (OS conf) images
        | Err _ => images
        end in
      ret images
    else
      let* index := wrapping ("getting image index for " +:+ referenceString
                         +:+ ": ") (descImageIndex descr) in
      let* indexManifest := wrapping ("getting index manifest from "
                                 +:+ referenceString +:+ ": ") index in
      let images := setMediaType (imMediaType indexManifest) images in
      let* children := indexImages registry repository (Manifests indexManifest)
        [] in
      ret (setImages children images).

(** *** The parallel fetcher: [PullImagesToArchive] *)

(** The task of one child: the child with its archive, or the error the
    task hands to the throttler. *)
Definition pullImage `{Registry} (w : World) (path : string)
    (r : ImageReferenceInfo) : result ImageReferenceInfo :=
  match ParseReference (Digest r) with
  | Err e => Err (wrapError ("parsing reference " +:+ Digest r +:+ ": ") e)
  | Ok ref =>
      if negb (isDigest ref) then
        Err (errorString "reference is not a tag or digest")
      else
        let p := strings.Split (DigestStr ref) ":" in
        if (length p <? 2)%nat then
          Err (errorString ("unable to parse digest string "
                            +:+ DigestStr ref))
        else
          let tarPath := filepath.Join path (nth 1 p "" +:+ ".tar") in
          match remoteImage w ref with
          | Some e => Err (wrapError "getting image from remote: " e)
          | None =>
              match MultiWriteToFile w tarPath
                      (ContextName ref +:+ ":" +:+ nth 1 p "") with
              | Some e => Err (wrapError "writing image to disk: " e)
              | None => Ok (setArchive tarPath r)
              end
          end
  end.

(** The order in which the tasks hand their results to the throttler: at
    each step the task the schedule names, among those still running,
    finishes. *)
Fixpoint completionOrder {A} (sched : list nat) (running : list A) : list A :=
  match sched with
  | [] => running
  | k :: sched' =>
      match running !! (k mod length running)%nat with
      | Some x =>
          x :: completionOrder sched' (delete (k mod length running)%nat running)
      | None => running
      end
  end.

Definition taskErrors {A} (rs : list (result A)) : list error :=
  omap (λ r, match r with Err e => Some e | Ok _ => None end) rs.

Definition taskResults {A} (rs : list (result A)) : list A :=
  omap (λ r, match r with Ok v => Some v | Err _ => None end) rs.

(** [fmt.Sprintf("%d", n)] for a number that is not negative. *)
Definition decimal (n : nat) : string :=
  NilEmpty.string_of_uint (Nat.to_uint n).

(** The error [t.Err()] of [github.com/nozzle/throttler] returns when
    tasks handed errors to [t.Done]: the [multiError] of these errors, in
    the order in which they were handed over.  [multiError] has no
    [Unwrap] method, so that all the caller can see of it is its text:
    the text of the first error, followed by [" (and N more errors)"]
    when [N] more were handed over. *)
Definition multiError (first : error) (more : list error) : error :=
  errorString
    (Error first +:+
     match more with
     | [] => ""
     | _ :: _ => " (and " +:+ decimal (length more) +:+ " more errors)"
     end).

(** When the loop ends every task has run: the last [t.Throttle()] waits
    for all of them.  [t.Err()] is [nil] when no task handed over an
    error. *)
Definition PullImagesToArchive `{Registry} (w : World)
    (referenceString path : string) : M ImageReferenceInfo :=
  let* references := getImageReferences w referenceString in
  let* _ := (if negb (utilExists w path)
             then wrappingErr "creating image directory: " (MkdirAll w path)
             else ret tt) in
  let tasks :=
    completionOrder (schedule w) (pullImage w path <$> Images references) in
  match taskErrors tasks with
  | e :: more => fail (multiError e more)
  | [] => ret (setImages (taskResults tasks) references)
  end.

(** *** The purl builder: [purlFromImage] *)

(** The qualifier map [mm] of [purlFromImage]. *)
Definition purlQualifiersOf `{Registry} (imageReference : Reference)
    (url : string) (img : ImageReferenceInfo) : gmap string string :=
  let mm : gmap string string := {[ "repository_url" := url ]} in
  let mm := if negb (String.eqb (Arch img) "")
            then <["arch" := Arch img]> mm else mm in
  let mm := if negb (String.eqb (OS_ img) "")
            then <["os" := OS_ img]> mm else mm in
  let mm := if isTag imageReference
            then <["tag" := RefString imageReference]> mm else mm in
  if negb (String.eqb (MediaType img) "")
  then <["mediaType" := MediaType img]> mm else mm.

(** The package URL of an image, before it is printed; [None] where the
    code returns the empty string. *)
Definition purlOfImage `{Registry} (w : World) (img : ImageReferenceInfo)
    : option PackageURL :=
  match ParseReference (Reference_ img) with
  | Err _ => None
  | Ok imageReference =>
      let digest : option string :=
        if isDigest imageReference then
          let p := strings.Split (RefString imageReference) "@" in
          if (length p <? 2)%nat then None else Some (nth 1 p "")
        else
          match craneDigest w (Reference_ img) with
          | Ok d => Some d
          | Err _ => None
          end in
      match digest with
      | None => None
      | Some digest =>
          let url := ContextName imageReference in
          let parts := strings.Split url "/" in
          if (length parts <? 2)%nat then None
          else
            let imageName := nth (length parts - 1) parts "" in
            let url := strings.TrimSuffix url ("/" +:+ imageName) in
            Some {| purlType := "oci"; purlNamespace := "";
                    purlName := imageName; purlVersion := digest;
                    purlQualifiers := purlQualifiersOf imageReference url img;
                    purlSubpath := "" |}
      end
  end.

Definition purlFromImage `{Registry} (w : World) (img : ImageReferenceInfo)
    : string :=
  match purlOfImage w img with
  | Some packageurl => PurlString w packageurl
  | None => ""
  end.

(** [if packageurl != "" { p.ExternalRefs = append(...) }] *)
Definition attachPurl (packageurl : string) (p : SPDX.Package)
    : SPDX.Package :=
  if negb (String.eqb packageurl "")
  then SPDX.appendExternalRef (SPDX.purlRef packageurl) p
  else p.

(** *** [PackageFromTarball] and [PackageFromImageTarball] *)

(** [pkg.BuildID(seeds...)] *)
Definition buildID `{Registry} (w : World) (seeds : list string)
    (p : SPDX.Package) : SPDX.Package :=
  SPDX.setID (BuildID w p seeds) p.

(** [p.AddPackage(sub)], with the error the method may return. *)
Definition addPackage `{Registry} (w : World) (pre : string)
    (sub p : SPDX.Package) : M SPDX.Package :=
  match AddPackageErr w p sub with
  | Some e => fail (wrapError pre e)
  | None => ret (SPDX.AddPackage sub p)
  end.

Definition PackageFromTarball `{Registry} (w : World) (opts : SPDX.Options)
    (tarOpts : SPDX.TarballOptions) (tarFile : string) : M SPDX.Package :=
  let finish (pkg : SPDX.Package) : M SPDX.Package :=
    let pkg := SPDX.setWorkDir (SPDX.ExtractDir tarOpts) pkg in
    match ReadSourceFile w pkg tarFile with
    | (_, Some e) =>
        fail (wrapError ("reading source file " +:+ tarFile +:+ ": ") e)
    | (pkg, None) => ret pkg
    end in
  if SPDX.AddFiles tarOpts then
    let* _ := call (CallExtractTarballTmp tarFile) in
    match ExtractTarballTmp w tarFile with
    | (_, Some e) =>
        fail (wrapError "extracting tarball to temporary archive: " e)
    | (tmp, None) =>
        deferRemoveAll tmp
          (let* _ := call (CallPackageFromDirectory tmp) in
           let* pkg := wrapping "generating package from tar contents: "
                         (PackageFromDirectory w opts tmp) in
           finish pkg)
    end
  else finish SPDX.NewPackage.

(** The options [PackageFromImageTarball] builds for its layers, before
    the extraction directory is known. *)
Definition layerTarballOptions (spdxOpts : SPDX.Options)
    : SPDX.TarballOptions :=
  {| SPDX.AddFiles :=
       SPDX.AddTarFiles spdxOpts && negb (SPDX.AnalyzeLayers spdxOpts);
     SPDX.ExtractDir := "" |}.

(** The package of one entry of the OS package database. *)
Definition osPackage `{Registry} (w : World) (layerID : string)
    (entry : PackageDBEntry) : SPDX.Package :=
  let ospk := SPDX.setName (dbPackage entry) SPDX.NewPackage in
  let ospk := SPDX.setVersion (dbVersion entry) ospk in
  let ospk := SPDX.setHomePage (dbHomePage entry) ospk in
  let ospk :=
    if negb (String.eqb (dbMaintainerName entry) "") then
      SPDX.setSupplierPerson
        (dbMaintainerName entry +:+
         (if negb (String.eqb (dbMaintainerEmail entry) "")
          then " (" +:+ dbMaintainerEmail entry +:+ ")" else ""))
        ospk
    else ospk in
  let ospk := attachPurl (dbPackageURL entry) ospk in
  buildID w [layerID] ospk.

Fixpoint addOSPackages `{Registry} (w : World)
    (entries : list PackageDBEntry) (pkg : SPDX.Package) : M SPDX.Package :=
  match entries with
  | [] => ret pkg
  | entry :: entries' =>
      let* pkg := addPackage w "adding OS package to container layer: "
                    (osPackage w (SPDX.ID pkg) entry) pkg in
      addOSPackages w entries' pkg
  end.

(** The loop over the layers of the manifest, [i] being the index of the
    first of [layerFiles]. *)
Fixpoint addLayers `{Registry} (w : World) (spdxOpts : SPDX.Options)
    (tarOpts : SPDX.TarballOptions) (repoTag : string) (layerNum : Z)
    (osPackageData : option (list PackageDBEntry)) (i : Z)
    (layerFiles : list string) (imagePackage : SPDX.Package)
    : M SPDX.Package :=
  match layerFiles with
  | [] => ret imagePackage
  | layerFile :: layerFiles' =>
      let layerPath := filepath.Join (SPDX.ExtractDir tarOpts) layerFile in
      let* pkg := wrapM "building package from layer: "
                    (PackageFromTarball w spdxOpts tarOpts layerPath) in
      let pkg := buildID w [repoTag; layerFile] pkg in
      let* pkg :=
        (if SPDX.AnalyzeLayers spdxOpts then
           let* _ := call (CallAnalyzeImageLayer layerPath) in
           match AnalyzeLayer w layerPath pkg with
           | (pkg, Some e) =>
               fail (wrapError ("scanning layer " +:+ SPDX.ID pkg +:+ " :") e)
           | (pkg, None) => ret pkg
           end
         else ret pkg) in
      let* pkg :=
        (match osPackageData with
         | Some entries =>
             if i =? layerNum then addOSPackages w entries pkg else ret pkg
         | None => ret pkg
         end) in
      let* imagePackage :=
        addPackage w "adding layer to image package: " pkg imagePackage in
      addLayers w spdxOpts tarOpts repoTag layerNum osPackageData (i + 1)
        layerFiles' imagePackage
  end.

Definition PackageFromImageTarball `{Registry} (w : World)
    (spdxOpts : SPDX.Options) (tarPath : string) : M SPDX.Package :=
  if String.eqb tarPath "" then fail (errorString "tar path empty")
  else
    let tarOpts := layerTarballOptions spdxOpts in
    let* _ := call (CallExtractTarballTmp tarPath) in
    match ExtractTarballTmp w tarPath with
    | (_, Some e) => fail (wrapError "extracting tarball to temp dir: " e)
    | (extractDir, None) =>
        let tarOpts :=
          {| SPDX.AddFiles := SPDX.AddFiles tarOpts;
             SPDX.ExtractDir := extractDir |} in
        deferRemoveAll extractDir
          (let* manifest :=
             wrapping "while reading docker archive manifest: "
               (ReadArchiveManifest w
                  (filepath.Join extractDir archiveManifestFilename)) in
           match RepoTags manifest with
           | [] => fail (errorString "no RepoTags found in manifest")
           | repoTag :: _ =>
               if String.eqb repoTag "" then
                 fail (errorString
                         "unable to add tar archive, manifest does not have a RepoTags entry")
               else
                 let imagePackage :=
                   SPDX.setWorkDir extractDir SPDX.NewPackage in
                 let imagePackage := SPDX.setName repoTag imagePackage in
                 let imagePackage :=
                   buildID w [SPDX.Name imagePackage] imagePackage in
                 let layerPaths :=
                   filepath.Join extractDir <$> LayerFiles manifest in
                 let* scan :=
                   (if SPDX.ScanImages spdxOpts then
                      let* _ := call (CallReadOSPackages layerPaths) in
                      wrapping "getting os data from container: "
                        (ReadOSPackages w layerPaths)
                    else ret (0, None)) in
                 addLayers w spdxOpts tarOpts repoTag scan.1 scan.2 0
                   (LayerFiles manifest) imagePackage
           end)
    end.

(** *** [ImageRefToPackage] *)

(** The name of the package of a child image. *)
Definition variantName (ref : string) (img : ImageReferenceInfo) : string :=
  if negb (String.eqb (Arch img) "") || negb (String.eqb (OS_ img) "") then
    (ref +:+ " (" +:+ Arch img)
    +:+ (if negb (String.eqb (Arch img) "") then "/" else "")
    +:+ (OS_ img +:+ ")")
  else Reference_ img.

(** The loop over the images of the index; [pkg] is the pointer to the
    package of the index. *)
Fixpoint addVariants `{Registry} (w : World) (opts : SPDX.Options)
    (ref : string) (pkg : nat) (images : list ImageReferenceInfo) : M unit :=
  match images with
  | [] => ret tt
  | img :: images' =>
      let* built := wrapM "adding image variant package: "
                      (PackageFromImageTarball w opts (Archive img)) in
      let* subpkg := alloc built in
      let* _ := update subpkg (SPDX.setName (variantName ref img)) in
      let* _ := update subpkg (attachPurl (purlFromImage w img)) in
      let* _ := update pkg (SPDX.AddRelationship (SPDX.containsRel subpkg)) in
      let* _ := update subpkg (SPDX.AddRelationship (SPDX.variantOfRel pkg)) in
      addVariants w opts ref pkg images'
  end.

Definition ImageRefToPackage `{Registry} (w : World) (ref : string)
    (opts : SPDX.Options) : M nat :=
  match MkdirTemp w with
  | (_, Some e) => fail (wrapError "creating temporary workdir in: " e)
  | (tmpdir, None) =>
      deferRemoveAll tmpdir
        (let* references :=
           wrapM "while downloading images to archive: "
             (PullImagesToArchive w ref tmpdir) in
         if (length (Images references) =? 0)%nat then
           let* p :=
             (if negb (String.eqb (Archive references) "") then
                wrapM "building package from single image: "
                  (PackageFromImageTarball w opts (Archive references))
              else ret SPDX.NewPackage) in
           alloc (attachPurl (purlFromImage w references) p)
         else
           let* pkg := alloc SPDX.zeroPackage in
           let* indexDigest :=
             wrapping ("parsing digest " +:+ Digest references +:+ ": ")
               (NewDigest (Digest references)) in
           let* _ := update pkg (SPDX.setName (DigestStr indexDigest)) in
           let* _ := update pkg (λ p, buildID w [SPDX.Name p] p) in
           let* _ :=
             (if negb (String.eqb (Digest references) "")
              then update pkg (SPDX.setDownloadLocation (Digest references))
              else ret tt) in
           let* _ := addVariants w opts ref pkg (Images references) in
           let* _ :=
             update pkg
               (attachPurl
                  (purlFromImage w
                     (mkImageReferenceInfo "" ref "" "" "" "" []))) in
           ret pkg)
  end.

(** *** Vocabulary of the properties *)

(** The computation leaves the store of packages as it is. *)
Definition keepsStore {A} (m : M A) : Prop :=
  ∀ s s' r, m s = (s', r) → store s' = store s.

(** Every call that [m] adds to the trace satisfies [P]. *)
Definition callsOnly {A} (P : Call → Prop) (m : M A) : Prop :=
  ∀ s s' r, m s = (s', r) →
    ∃ new, calls s' = calls s ++ new ∧ Forall P new.

(** The calls that expand an archive into files: an extraction, or the scan
    of an extracted directory. *)
Definition expandsArchive (c : Call) : Prop :=
  match c with
  | CallPackageFromDirectory _ | CallExtractTarballTmp _ => True
  | _ => False
  end.

(** The relationships and the external references of two packages are the
    same. *)
Definition sameLinks (p q : SPDX.Package) : Prop :=
  SPDX.Relationships q = SPDX.Relationships p ∧
  SPDX.ExternalRefs q = SPDX.ExternalRefs p.

(** The package of the index after the children at the addresses [subs]
    were added. *)
Definition addContains (p : SPDX.Package) (subs : list nat) : SPDX.Package :=
  fold_left (λ p sub, SPDX.AddRelationship (SPDX.containsRel sub) p) subs p.

(** The relationships of a package that have the type [t]. *)
Definition relationshipsOfType (t : SPDX.RelationshipType)
    (p : SPDX.Package) : list SPDX.Relationship :=
  List.filter
    (λ r, match SPDX.Type_ r, t with
          | SPDX.CONTAINS, SPDX.CONTAINS
          | SPDX.VARIANT_OF, SPDX.VARIANT_OF
          | SPDX.DEPENDS_ON, SPDX.DEPENDS_ON
          | SPDX.DESCRIBES, SPDX.DESCRIBES => true
          | _, _ => false
          end)
    (SPDX.Relationships p).

(** The computation leaves the store and the trace of calls as they are. *)
Definition keepsState {A} (m : M A) : Prop :=
  ∀ s s' r, m s = (s', r) → s' = s.

(** The result of the computation is the same from every state. *)
Definition stateFree {A} (m : M A) : Prop :=
  ∀ s s', (m s).2 = (m s').2.

(** The registry and the repository [getImageReferences] builds its digest
    references from: those of the tag [descr.Ref] holds, those of the zero
    [name.Tag] when it holds a digest. *)
Definition registryOf `{Registry} (ref : Reference) : string :=
  if isTag ref then RegistryStr ref else zeroTagRegistryStr.

Definition repositoryOf `{Registry} (ref : Reference) : string :=
  if isTag ref then RepositoryStr ref else zeroTagRepositoryStr.

(** The child [getImageReferences] records for a manifest of an index whose
    digest reference is [digest]. *)
Definition childOf (digest : string) (manifest : ManifestDescriptor)
    : ImageReferenceInfo :=
  match mdPlatform manifest with
  | Some p =>
      mkImageReferenceInfo digest "" "" (Architecture p) (OS p)
        (mdMediaType manifest) []
  | None => mkImageReferenceInfo digest "" "" "" "" (mdMediaType manifest) []
  end.

(** The package of one layer, as a turn of the loop of
    [PackageFromImageTarball] builds it before it nests it in the package
    of the image. *)
Definition layerPackage `{Registry} (w : World) (spdxOpts : SPDX.Options)
    (tarOpts : SPDX.TarballOptions) (repoTag : string) (layerNum : Z)
    (osPackageData : option (list PackageDBEntry)) (i : Z)
    (layerFile : string) : M SPDX.Package :=
  let layerPath := filepath.Join (SPDX.ExtractDir tarOpts) layerFile in
  let* pkg := wrapM "building package from layer: "
                (PackageFromTarball w spdxOpts tarOpts layerPath) in
  let pkg := buildID w [repoTag; layerFile] pkg in
  let* pkg :=
    (if SPDX.AnalyzeLayers spdxOpts then
       let* _ := call (CallAnalyzeImageLayer layerPath) in
       match AnalyzeLayer w layerPath pkg with
       | (pkg, Some e) =>
           fail (wrapError ("scanning layer " +:+ SPDX.ID pkg +:+ " :") e)
       | (pkg, None) => ret pkg
       end
     else ret pkg) in
  match osPackageData with
  | Some entries =>
      if i =? layerNum then addOSPackages w entries pkg else ret pkg
  | None => ret pkg
  end.

(** The package of an index as [ImageRefToPackage] has it before the loop
    over the images of the index. *)
Definition indexPackage `{Registry} (w : World) (indexDigest : Reference)
    (references : ImageReferenceInfo) : SPDX.Package :=
  let pkg := SPDX.setName (DigestStr indexDigest) SPDX.zeroPackage in
  let pkg := buildID w [SPDX.Name pkg] pkg in
  if negb (String.eqb (Digest references) "")
  then SPDX.setDownloadLocation (Digest references) pkg else pkg.

(** The sub-packages [subs] nested in [p], in order. *)
Definition addPackages (p : SPDX.Package) (subs : list SPDX.Package)
    : SPDX.Package :=
  fold_left (λ p sub, SPDX.AddPackage sub p) subs p.

(** The supplier [PackageFromImageTarball] records for an entry of the
    database of OS packages. *)
Definition supplierOf (entry : PackageDBEntry) : string :=
  if String.eqb (dbMaintainerName entry) "" then ""
  else if String.eqb (dbMaintainerEmail entry) "" then dbMaintainerName entry
  else dbMaintainerName entry +:+ " (" +:+ dbMaintainerEmail entry +:+ ")".

End Image.

(** ** The manifest of an image archive: [ReadArchiveManifest] *)
Module Manifest.

(** The collaborators: [util.Exists], [os.ReadFile], and [json.Unmarshal]
    into a slice of [ArchiveManifest]. *)
Record World := {
  Exists : string → bool;
  ReadFile : string → result (list byte);
  Unmarshal : list byte → result (list Image.ArchiveManifest)
}.

(** How a call ends: it returns, or the run-time panics. *)
Inductive Outcome :=
| Returns (r : result Image.ArchiveManifest)
| Panics (msg : string).

(** The lines the call prints ([fmt.Println]) and how it ends.  The
    expression [&manifestData[0]] panics when the slice is empty. *)
Definition ReadArchiveManifest (w : World) (manifestPath : string)
    : list (list byte) * Outcome :=
  if negb (Exists w manifestPath) then
    ([], Returns (Err (errorString
                         ("unable to find manifest file " +:+ manifestPath))))
  else
    match ReadFile w manifestPath with
    | Err e => ([], Returns (Err (wrapError "unable to read from tarfile: " e)))
    | Ok manifestJSON =>
        match Unmarshal w manifestJSON with
        | Err e =>
            ([manifestJSON],
             Returns (Err (wrapError "unmarshalling image manifest: " e)))
        | Ok manifestData =>
            match manifestData with
            | manifest :: _ => ([], Returns (Ok manifest))
            | [] =>
                ([], Panics "runtime error: index out of range [0] with length 0")
            end
        end
    end.

End Manifest.

(** ** The dependencies of a Go module: [GetGoDependencies] *)
Module GoDeps.

(** The Go module behind the pointer [mod] and its methods; the type
    [GoModule] and the functions [NewGoModuleFromPath], [Open],
    [ScanLicenses], [RemoveDownloads] and [ToSPDXPackage] are declared
    outside [implementation.go] and enter as parameters.  A method that
    changes the module returns the module it leaves. *)
Class GoModules := {
  GoModule : Type;
  GoPackage : Type;
  NewGoModuleFromPath : string → result GoModule;
  setOptions : bool → bool → GoModule → GoModule;
    (* mod.Options().OnlyDirectDeps = ...; mod.Options().ScanLicenses = ... *)
  Open : GoModule → GoModule * option error;
  ScanLicenses : GoModule → GoModule * option error;
  RemoveDownloads : GoModule → option error;
  Packages : GoModule → list GoPackage;         (* the field mod.Packages *)
  ToSPDXPackage : GoPackage → result SPDX.Package
}.

(** The methods the function calls on the module. *)
Inductive Call := CallOpen | CallScanLicenses | CallRemoveDownloads.

(** The deferred function: it runs with the results [(spdxPackages, err)]
    the [return] statement has set, and may change [err]. *)
Definition deferred `{M : GoModules} (mod_ : GoModule)
    (results : option (list SPDX.Package) * option error)
    : option (list SPDX.Package) * option error :=
  let preErr := results.2 in
  let err := RemoveDownloads mod_ in
  let err := if negb (isNil preErr) then preErr else err in
  (results.1, err).

(** The loop over [mod.Packages]. *)
Definition convert `{M : GoModules} (goPkgs : list GoPackage)
    : list SPDX.Package :=
  fold_left
    (λ spdxPackages goPkg,
       match ToSPDXPackage goPkg with
       | Err _ => spdxPackages
       | Ok spdxPkg => spdxPackages ++ [spdxPkg]
       end)
    goPkgs [].

(** The calls on the module, and the two results; [None] is the [nil]
    slice.  The variable [err] is the named result: the condition of the
    test that follows [mod.ScanLicenses()] reads it, not [errScan]. *)
Definition GetGoDependencies `{M : GoModules} (path : string)
    (opts : SPDX.Options)
    : list Call * (option (list SPDX.Package) * option error) :=
  match NewGoModuleFromPath path with
  | Err e =>
      ([], (None,
            Some (wrapError "creating a mod from the specified path: " e)))
  | Ok mod_ =>
      let err : option error := None in
      let mod_ :=
        setOptions (SPDX.OnlyDirectDeps opts) (SPDX.ScanLicenses opts) mod_ in
      match Open mod_ with
      | (_, Some e) =>
          ([CallOpen],
           (None, Some (wrapError "opening new module path: " e)))
      | (mod_, None) =>
          let '(calls, mod_, returned) :=
            if SPDX.ScanLicenses opts then
              let '(mod_, errScan) := ScanLicenses mod_ in
              ([CallOpen; CallScanLicenses], mod_,
               if negb (isNil err) then Some errScan else None)
            else ([CallOpen], mod_, None) in
          match returned with
          | Some errScan =>
              (calls ++ [CallRemoveDownloads], deferred mod_ (None, errScan))
          | None =>
              (calls ++ [CallRemoveDownloads],
               deferred mod_ (Some (convert (Packages mod_)), err))
          end
      end
  end.

End GoDeps.

(** ** Sample scans *)
Module ScanSamples.

(** Patterns kept as written; a pattern matches the paths whose last
    element it equals. *)
Definition literalPatterns : Scan.Gitignore :=
  {| Scan.Pattern := string;
     Scan.ParsePattern := λ s, s;
     Scan.MatcherMatch := λ ps path _,
       match last path with
       | Some b => existsb (String.eqb b) ps
       | None => false
       end |}.

(** A directory with the files [files] and without [.gitignore]; the
    license reader is created unless [readerErr] is an error. *)
Definition plainDirectory (files : list string) (readerErr : option error)
    : Scan.World :=
  {| Scan.Abs := λ p, (p, None);
     Scan.WalkDir := λ _,
       (λ f, {| Scan.walkPath := f; Scan.walkErr := None;
                Scan.walkIsDir := false; Scan.walkIsSymlink := false |})
         <$> files;
     Scan.Exists := λ _, false;
     Scan.OpenLines := λ _, Err (errorString "no such file or directory");
     Scan.TrimSpace := λ s, s;
     Scan.NewReaderWithOptions := λ _ _, readerErr;
     Scan.ReadTopLicense := λ _, (None, None);
     Scan.uuidNewString := "00000000-0000-4000-8000-000000000000";
     Scan.processFiles := λ _ _ pkg _, (pkg, None) |}.

(** The same directory with a [.gitignore] of the lines [lines]. *)
Definition gitDirectory (files lines : list string) : Scan.World :=
  {| Scan.Abs := λ p, (p, None);
     Scan.WalkDir := Scan.WalkDir (plainDirectory files None);
     Scan.Exists := λ p, strings.HasSuffix p "/.gitignore";
     Scan.OpenLines := λ _, Ok lines;
     Scan.TrimSpace := λ s, s;
     Scan.NewReaderWithOptions := λ _ _, None;
     Scan.ReadTopLicense := λ _, (None, None);
     Scan.uuidNewString := "00000000-0000-4000-8000-000000000000";
     Scan.processFiles := λ _ _ pkg _, (pkg, None) |}.

Definition defaultOptions : SPDX.Options :=
  {| SPDX.AddTarFiles := false; SPDX.AnalyzeLayers := false;
     SPDX.ScanImages := false; SPDX.ScanLicenses := false;
     SPDX.OnlyDirectDeps := false; SPDX.IgnorePatterns := [];
     SPDX.NoGitignore := false; SPDX.LicenseCacheDir := "";
     SPDX.LicenseData := "" |}.

End ScanSamples.

(** ** Sample registries and images *)
Module ImageSamples.

(** References kept as the name of the repository and a tag or a digest. *)
Inductive SampleRef :=
| STag (context tag : string)
| SDigest (context digest : string).

Definition contextOf (r : SampleRef) : string :=
  match r with STag c _ | SDigest c _ => c end.

Definition parseDigest (s : string) : result SampleRef :=
  match strings.Split s "@" with
  | [c; d] =>
      if String.eqb c "" then Err (errorString "empty repository")
      else Ok (SDigest c d)
  | _ => Err (errorString "a digest must contain exactly one '@' separator")
  end.

Definition parseReference (s : string) : result SampleRef :=
  match parseDigest s with
  | Ok r => Ok r
  | Err _ =>
      match strings.Split s ":" with
      | [c; t] =>
          if String.eqb c "" then Err (errorString "empty repository")
          else Ok (STag c t)
      | [c] =>
          if String.eqb c "" then Err (errorString "empty repository")
          else Ok (STag c "latest")
      | _ => Err (errorString "could not parse reference")
      end
  end.

#[local] Instance sampleRegistry : Image.Registry :=
  {| Image.Reference := SampleRef;
     Image.ParseReference := parseReference;
     Image.NewDigest := parseDigest;
     Image.isTag := λ r, match r with STag _ _ => true | _ => false end;
     Image.isDigest := λ r, match r with SDigest _ _ => true | _ => false end;
     Image.RefString := λ r,
       match r with
       | STag c t => c +:+ ":" +:+ t
       | SDigest c d => c +:+ "@" +:+ d
       end;
     Image.ContextName := contextOf;
     Image.DigestStr := λ r,
       match r with SDigest _ d => d | STag _ _ => "" end;
     Image.RegistryStr := λ r,
       match strings.Split (contextOf r) "/" with
       | reg :: _ => reg
       | [] => ""
       end;
     Image.RepositoryStr := λ r,
       match strings.Split (contextOf r) "/" with
       | _ :: repo :: _ => repo
       | _ => ""
       end;
     Image.zeroTagRegistryStr := "index.docker.io";
     Image.zeroTagRepositoryStr := "" |}.

Definition sha (hex : string) : Image.Hash :=
  {| Image.Algorithm := "sha256"; Image.Hex := hex |}.

Definition child (hex arch os : string) : Image.ManifestDescriptor :=
  {| Image.mdMediaType := "application/vnd.oci.image.manifest.v1+json";
     Image.mdDigest := sha hex;
     Image.mdPlatform :=
       Some {| Image.Architecture := arch; Image.OS := os |} |}.

(** The index [reg.io/app:v1] with an image for amd64 and one for arm64. *)
Definition indexDescriptor : Image.Descriptor :=
  {| Image.descRef := STag "reg.io/app" "v1";
     Image.descIsImage := false;
     Image.descDigest := sha "1dd1";
     Image.descImage := Err (errorString "not an image");
     Image.descImageIndex :=
       Ok (Ok {| Image.imMediaType := "application/vnd.oci.image.index.v1+json";
                 Image.Manifests :=
                   [child "aaaa" "amd64" "linux";
                    child "bbbb" "arm64" "linux"] |}) |}.

(** A printer of package URLs: the name, the version and the qualifiers in
    the order of their keys. *)
Definition printPurl (p : Image.PackageURL) : string :=
  let q (k : string) : option string :=
    (λ v, k +:+ "=" +:+ v) <$> Image.purlQualifiers p !! k in
  "pkg:" +:+ Image.purlType p +:+ "/" +:+ Image.purlName p +:+ "@"
  +:+ Image.purlVersion p +:+ "?"
  +:+ String.concat "&"
        (omap q ["arch"; "mediaType"; "os"; "repository_url"; "tag"]).

(** A world in which every archive holds one layer and every call of a
    collaborator succeeds. *)
Definition indexWorld : Image.World :=
  {| Image.MkdirTemp := ("/tmp/doc-build-1", None);
     Image.remoteGet := λ _, Ok indexDescriptor;
     Image.utilExists := λ _, true;
     Image.MkdirAll := λ _, None;
     Image.remoteImage := λ _, None;
     Image.MultiWriteToFile := λ _ _, None;
     Image.schedule := [1%nat];
     Image.craneDigest := λ _, Ok "sha256:1dd1";
     Image.PurlString := printPurl;
     Image.BuildID := λ _ seeds, "SPDXRef-Package-" +:+ String.concat "-" seeds;
     Image.ExtractTarballTmp := λ _, ("/tmp/spdx-tar-extract-1", None);
     Image.ReadArchiveManifest := λ _,
       Ok {| Image.ConfigFilename := "config.json";
             Image.RepoTags := ["reg.io/app:aaaa"];
             Image.LayerFiles := ["layer0.tar"] |};
     Image.ReadOSPackages := λ _, Ok (0, None);
     Image.PackageFromDirectory := λ _ _, Ok SPDX.NewPackage;
     Image.ReadSourceFile := λ p _, (p, None);
     Image.AnalyzeLayer := λ _ p, (p, None);
     Image.AddPackageErr := λ _ _, None |}.

Definition emptyState : Image.State :=
  {| Image.store := []; Image.calls := [] |}.

Definition analyzeOptions : SPDX.Options :=
  {| SPDX.AddTarFiles := true; SPDX.AnalyzeLayers := true;
     SPDX.ScanImages := false; SPDX.ScanLicenses := false;
     SPDX.OnlyDirectDeps := false; SPDX.IgnorePatterns := [];
     SPDX.NoGitignore := false; SPDX.LicenseCacheDir := "";
     SPDX.LicenseData := "" |}.

(** What [PullImagesToArchive] returns for the index into [/tmp/doc-build-1]:
    by the schedule, the download of the second image finishes first. *)
Definition pulledIndex : Image.ImageReferenceInfo :=
  Image.mkImageReferenceInfo "reg.io/app@sha256:1dd1" "" "" "" ""
    "application/vnd.oci.image.index.v1+json"
    [ Image.mkImageReferenceInfo "reg.io/app@sha256:bbbb" ""
        "/tmp/doc-build-1/bbbb.tar" "arm64" "linux"
        "application/vnd.oci.image.manifest.v1+json" [];
      Image.mkImageReferenceInfo "reg.io/app@sha256:aaaa" ""
        "/tmp/doc-build-1/aaaa.tar" "amd64" "linux"
        "application/vnd.oci.image.manifest.v1+json" [] ].

(** The run of [ImageRefToPackage] on the index. *)
Definition indexRun : Image.State * result nat :=
  Image.ImageRefToPackage indexWorld "reg.io/app:v1" analyzeOptions
    emptyState.

(** The image [reg.io/app:v1] for amd64. *)
Definition imageDescriptor : Image.Descriptor :=
  {| Image.descRef := STag "reg.io/app" "v1";
     Image.descIsImage := true;
     Image.descDigest := sha "cccc";
     Image.descImage :=
       Ok {| Image.imgDigest := Ok (sha "cccc");
             Image.imgMediaType :=
               Ok "application/vnd.oci.image.manifest.v1+json";
             Image.imgConfigFile :=
               Ok {| Image.Architecture := "amd64"; Image.OS := "linux" |} |};
     Image.descImageIndex := Err (errorString "not an index") |}.

(** The world [indexWorld] where the reference resolves to the descriptor
    [descr] and the scanner of OS packages answers [osPackages]. *)
Definition worldOf (descr : Image.Descriptor)
    (osPackages : result (Z * option (list Image.PackageDBEntry)))
    : Image.World :=
  {| Image.MkdirTemp := Image.MkdirTemp indexWorld;
     Image.remoteGet := λ _, Ok descr;
     Image.utilExists := Image.utilExists indexWorld;
     Image.MkdirAll := Image.MkdirAll indexWorld;
     Image.remoteImage := Image.remoteImage indexWorld;
     Image.MultiWriteToFile := Image.MultiWriteToFile indexWorld;
     Image.schedule := Image.schedule indexWorld;
     Image.craneDigest := Image.craneDigest indexWorld;
     Image.PurlString := Image.PurlString indexWorld;
     Image.BuildID := Image.BuildID indexWorld;
     Image.ExtractTarballTmp := Image.ExtractTarballTmp indexWorld;
     Image.ReadArchiveManifest := Image.ReadArchiveManifest indexWorld;
     Image.ReadOSPackages := λ _, osPackages;
     Image.PackageFromDirectory := Image.PackageFromDirectory indexWorld;
     Image.ReadSourceFile := Image.ReadSourceFile indexWorld;
     Image.AnalyzeLayer := Image.AnalyzeLayer indexWorld;
     Image.AddPackageErr := Image.AddPackageErr indexWorld |}.

Definition imageWorld : Image.World := worldOf imageDescriptor (Ok (0, None)).

(** What [getImageReferences] returns for the index and for the image. *)
Definition resolvedIndex : Image.ImageReferenceInfo :=
  Image.mkImageReferenceInfo "reg.io/app@sha256:1dd1" "" "" "" ""
    "application/vnd.oci.image.index.v1+json"
    [ Image.mkImageReferenceInfo "reg.io/app@sha256:aaaa" "" "" "amd64"
        "linux" "application/vnd.oci.image.manifest.v1+json" [];
      Image.mkImageReferenceInfo "reg.io/app@sha256:bbbb" "" "" "arm64"
        "linux" "application/vnd.oci.image.manifest.v1+json" [] ].

Definition resolvedImage : Image.ImageReferenceInfo :=
  Image.mkImageReferenceInfo "reg.io/app@sha256:cccc" "" "" "amd64" "linux"
    "application/vnd.oci.image.manifest.v1+json" [].

(** The world [indexWorld] where no image can be written to disk. *)
Definition fullDiskWorld : Image.World :=
  {| Image.MkdirTemp := Image.MkdirTemp indexWorld;
     Image.remoteGet := Image.remoteGet indexWorld;
     Image.utilExists := Image.utilExists indexWorld;
     Image.MkdirAll := Image.MkdirAll indexWorld;
     Image.remoteImage := Image.remoteImage indexWorld;
     Image.MultiWriteToFile := λ _ _,
       Some (errorString "no space left on device");
     Image.schedule := Image.schedule indexWorld;
     Image.craneDigest := Image.craneDigest indexWorld;
     Image.PurlString := Image.PurlString indexWorld;
     Image.BuildID := Image.BuildID indexWorld;
     Image.ExtractTarballTmp := Image.ExtractTarballTmp indexWorld;
     Image.ReadArchiveManifest := Image.ReadArchiveManifest indexWorld;
     Image.ReadOSPackages := Image.ReadOSPackages indexWorld;
     Image.PackageFromDirectory := Image.PackageFromDirectory indexWorld;
     Image.ReadSourceFile := Image.ReadSourceFile indexWorld;
     Image.AnalyzeLayer := Image.AnalyzeLayer indexWorld;
     Image.AddPackageErr := Image.AddPackageErr indexWorld |}.

(** A record of the image for amd64 that carries the reference it was
    asked for, and its package URL. *)
Definition taggedImage : Image.ImageReferenceInfo :=
  Image.mkImageReferenceInfo "reg.io/app@sha256:cccc" "reg.io/app:v1" ""
    "amd64" "linux" "application/vnd.oci.image.manifest.v1+json" [].

Definition taggedPurl : Image.PackageURL :=
  {| Image.purlType := "oci"; Image.purlNamespace := "";
     Image.purlName := "app"; Image.purlVersion := "sha256:1dd1";
     Image.purlQualifiers :=
       Image.purlQualifiersOf (STag "reg.io/app" "v1") "reg.io" taggedImage;
     Image.purlSubpath := "" |}.

(** An entry of the database of OS packages. *)
Definition bash : Image.PackageDBEntry :=
  {| Image.dbPackage := "bash"; Image.dbVersion := "5.1";
     Image.dbHomePage := "https://www.gnu.org/software/bash";
     Image.dbMaintainerName := "Debian"; Image.dbMaintainerEmail := "";
     Image.dbPackageURL := "pkg:deb/debian/bash@5.1" |}.

Definition scanOptions : SPDX.Options :=
  {| SPDX.AddTarFiles := true; SPDX.AnalyzeLayers := false;
     SPDX.ScanImages := true; SPDX.ScanLicenses := false;
     SPDX.OnlyDirectDeps := false; SPDX.IgnorePatterns := [];
     SPDX.NoGitignore := false; SPDX.LicenseCacheDir := "";
     SPDX.LicenseData := "" |}.

(** The world [indexWorld] with an archive of two layers, where the
    scanner of OS packages finds [bash] in the second. *)
Definition twoLayerWorld : Image.World :=
  {| Image.MkdirTemp := Image.MkdirTemp indexWorld;
     Image.remoteGet := Image.remoteGet indexWorld;
     Image.utilExists := Image.utilExists indexWorld;
     Image.MkdirAll := Image.MkdirAll indexWorld;
     Image.remoteImage := Image.remoteImage indexWorld;
     Image.MultiWriteToFile := Image.MultiWriteToFile indexWorld;
     Image.schedule := Image.schedule indexWorld;
     Image.craneDigest := Image.craneDigest indexWorld;
     Image.PurlString := Image.PurlString indexWorld;
     Image.BuildID := Image.BuildID indexWorld;
     Image.ExtractTarballTmp := Image.ExtractTarballTmp indexWorld;
     Image.ReadArchiveManifest := λ _,
       Ok {| Image.ConfigFilename := "config.json";
             Image.RepoTags := ["reg.io/app:aaaa"];
             Image.LayerFiles := ["layer0.tar"; "layer1.tar"] |};
     Image.ReadOSPackages := λ _, Ok (1, Some [bash]);
     Image.PackageFromDirectory := Image.PackageFromDirectory indexWorld;
     Image.ReadSourceFile := Image.ReadSourceFile indexWorld;
     Image.AnalyzeLayer := Image.AnalyzeLayer indexWorld;
     Image.AddPackageErr := Image.AddPackageErr indexWorld |}.

(** The package of that archive, scanned with [scanOptions]: the two
    layers in the order of the manifest, [bash] in the second. *)
Definition layeredPackage : SPDX.Package :=
  let layer (layerFile : string) :=
    SPDX.setID ("SPDXRef-Package-reg.io/app:aaaa-" +:+ layerFile)
      (SPDX.setWorkDir "/tmp/spdx-tar-extract-1" SPDX.NewPackage) in
  let ospk :=
    SPDX.setID "SPDXRef-Package-SPDXRef-Package-reg.io/app:aaaa-layer1.tar"
      (Image.attachPurl "pkg:deb/debian/bash@5.1"
         (SPDX.setSupplierPerson "Debian"
            (SPDX.setHomePage "https://www.gnu.org/software/bash"
               (SPDX.setVersion "5.1"
                  (SPDX.setName "bash" SPDX.NewPackage))))) in
  SPDX.AddPackage (SPDX.AddPackage ospk (layer "layer1.tar"))
    (SPDX.AddPackage (layer "layer0.tar")
       (SPDX.setID "SPDXRef-Package-reg.io/app:aaaa"
          (SPDX.setName "reg.io/app:aaaa"
             (SPDX.setWorkDir "/tmp/spdx-tar-extract-1" SPDX.NewPackage)))).

End ImageSamples.

(** ** Sample Go modules *)
Module GoSamples.

(** A module kept as the list of the names of its dependencies, known once
    it is open.  A dependency without a name cannot be converted; the scan
    for licenses fails, and so does the removal of the downloads. *)
#[local] Instance sampleModules : GoDeps.GoModules :=
  {| GoDeps.GoModule := list string;
     GoDeps.GoPackage := string;
     GoDeps.NewGoModuleFromPath := λ path,
       if String.eqb path "" then Err (errorString "no go.mod") else Ok [];
     GoDeps.setOptions := λ _ _ m, m;
     GoDeps.Open := λ _, (["golang.org/x/mod"; ""; "sigs.k8s.io/yaml"], None);
     GoDeps.ScanLicenses := λ m, (m, Some (errorString "no license data"));
     GoDeps.RemoveDownloads := λ _, Some (errorString "directory not empty");
     GoDeps.Packages := λ m, m;
     GoDeps.ToSPDXPackage := λ p,
       if String.eqb p "" then Err (errorString "package without a name")
       else Ok (SPDX.setName p SPDX.NewPackage) |}.

Definition licenseOptions : SPDX.Options :=
  {| SPDX.AddTarFiles := false; SPDX.AnalyzeLayers := false;
     SPDX.ScanImages := false; SPDX.ScanLicenses := true;
     SPDX.OnlyDirectDeps := false; SPDX.IgnorePatterns := [];
     SPDX.NoGitignore := false; SPDX.LicenseCacheDir := "";
     SPDX.LicenseData := "" |}.

End GoSamples.

(** ** Sample workers *)
Module WorkerSamples.

(** Workers whose license reader cannot read any file. *)
Definition unreadable : FileWorker.World :=
  {| FileWorker.LicenseFromFile := λ _,
       (None, Some (errorString "permission denied"));
     FileWorker.ReadSourceFile := λ f _, (f, None);
     FileWorker.AddFileErr := λ _ _, None |}.

(** A directory, without [.gitignore], whose only file is [file], scanned
    by the workers of [fw]. *)
Definition oneFileDirectory (fw : FileWorker.World) (file : string)
    : Scan.World :=
  {| Scan.Abs := λ p, (p, None);
     Scan.WalkDir := Scan.WalkDir (ScanSamples.plainDirectory [file] None);
     Scan.Exists := λ _, false;
     Scan.OpenLines := λ _, Err (errorString "no such file or directory");
     Scan.TrimSpace := λ s, s;
     Scan.NewReaderWithOptions := λ _ _, None;
     Scan.ReadTopLicense := λ _, (None, None);
     Scan.uuidNewString := "00000000-0000-4000-8000-000000000000";
     Scan.processFiles := λ dirPath licenseTag pkg files,
       match files with
       | [path] => FileWorker.scanOneFile fw dirPath licenseTag None pkg path
       | _ => (pkg, None)
       end |}.

End WorkerSamples.

(** * Properties *)

(** ** Sanity checks of the path and string functions against the
    documented behaviour of the Go library *)

Example Clean_examples :
  filepath.Clean "abc/../../././../def" = "../../def" /\
  filepath.Clean "/../abc" = "/abc" /\
  filepath.Clean "abc//def//ghi" = "abc/def/ghi" /\
  filepath.Clean "abc/def/../../.." = ".." /\
  filepath.Clean "/abc/def/../../.." = "/" /\
  filepath.Clean "abc/./../def" = "def" /\
  filepath.Clean "abc/" = "abc" /\
  filepath.Clean "" = "." /\
  filepath.Clean "///" = "/" /\
  filepath.Clean "../../abc" = "../../abc" /\
  filepath.Clean "..a/b..//c.." = "..a/b../c..".
Proof. repeat split; vm_compute; reflexivity. Qed.

Example Join_Dir_Base_examples :
  filepath.Join "/tmp/x" "../escape.txt" = "/tmp/escape.txt" /\
  filepath.Join "/tmp/x" "a/b.txt" = "/tmp/x/a/b.txt" /\
  filepath.Join "" "a//b" = "a/b" /\
  filepath.Dir "a/b.txt" = "a" /\
  filepath.Dir "b.txt" = "." /\
  filepath.Dir "/b.txt" = "/" /\
  filepath.Dir "../../x/y" = "../../x" /\
  filepath.Base "dir/.wh.x" = ".wh.x" /\
  filepath.Base "a/b/" = "b" /\
  filepath.Base "" = "." /\
  filepath.Base "//" = "/".
Proof. repeat split; vm_compute; reflexivity. Qed.

Example strings_examples :
  strings.Split "a/b//c" "/" = ["a"; "b"; ""; "c"] /\
  strings.Split "" "/" = [""] /\
  strings.HasPrefix "/tmp/xy/a" "/tmp/x/" = false /\
  strings.HasPrefix "/tmp/x/a" "/tmp/x/" = true /\
  strings.TrimSuffix "gcr.io/proj/app" "/app" = "gcr.io/proj" /\
  strings.Contains "x: illegal file path" "illegal file path" = true.
Proof. repeat split; vm_compute; reflexivity. Qed.

(** ** The tar engine *)
Section TarProperties.
Import Tar.

Variable tmpDir : string.

Lemma unchangedOutside_refl s : unchangedOutside tmpDir s s.
Proof. by intros p _. Qed.

Lemma unchangedOutside_trans s1 s2 s3 :
  unchangedOutside tmpDir s1 s2 → unchangedOutside tmpDir s2 s3 → unchangedOutside tmpDir s1 s3.
Proof. intros H12 H23 p Hp. by rewrite H23, H12. Qed.

Lemma unchangedOutside_writeFile s s' p b :
  inside tmpDir p = true → unchangedOutside tmpDir s s' →
  unchangedOutside tmpDir s (writeFile p b s').
Proof.
  intros Hin Hs q Hq. simpl. rewrite lookup_insert_ne; [by apply Hs|].
  intros ->. congruence.
Qed.

Lemma sanitizeExtractPath_ok name target :
  sanitizeExtractPath tmpDir name = (target, None) →
  target = filepath.Join tmpDir name ∧ inside tmpDir target = true.
Proof.
  unfold sanitizeExtractPath, inside.
  destruct (strings.HasPrefix _ _) eqn:Hpre; simpl; [|discriminate].
  by intros [= <-].
Qed.

Lemma sanitizeExtractPath_illegal name :
  inside tmpDir (filepath.Join tmpDir name) = false →
  sanitizeExtractPath tmpDir name
  = ("", Some (errorString (name +:+ ": illegal file path"))).
Proof. unfold sanitizeExtractPath, inside. by intros ->. Qed.

(** One turn of the loop writes below [tmpDir] only. *)
Lemma extractEntry_outside e st n :
  unchangedOutside tmpDir st (resultState (extractEntry tmpDir e st n)).
Proof.
  unfold extractEntry.
  destruct (IsDir (hdr e)); [apply unchangedOutside_refl|].
  destruct (isWhiteout (hdr e)); [by intros p _|].
  destruct (mkdirAllErr e); [apply unchangedOutside_refl|].
  destruct (sanitizeExtractPath tmpDir (Name (hdr e)))
    as [target [err|]] eqn:Hs; [by intros p _|].
  apply sanitizeExtractPath_ok in Hs as [_ Hin].
  destruct (createErr e); [by intros p _|].
  assert (unchangedOutside tmpDir st
            (mkdir (filepath.Join tmpDir (filepath.Dir (Name (hdr e)))) st))
    as Hmk by (by intros p _).
  destruct (CopyN (body e) (Size (hdr e))) as [written [err|]].
  - destruct (is_EOF err); simpl;
      by repeat apply unchangedOutside_writeFile.
  - simpl. by repeat apply unchangedOutside_writeFile.
Qed.

Lemma extractEntry_passes e st n :
  passes tmpDir e = true →
  ∃ st', extractEntry tmpDir e st n = Continue st' (countEntry n e).
Proof.
  unfold passes, reachesCopy, countEntry, copyErr, skipped, extractEntry.
  destruct (IsDir (hdr e)); simpl; [eauto|].
  destruct (isWhiteout (hdr e)); simpl; [eauto|].
  destruct (mkdirAllErr e); simpl; [done|].
  destruct (sanitizeExtractPath tmpDir (Name (hdr e))) as [target [err|]];
    simpl; [done|].
  destruct (createErr e); simpl; [done|].
  destruct (CopyN (body e) (Size (hdr e))) as [written [err|]]; simpl;
    [done|]. eauto.
Qed.

(** The loop runs through a prefix of entries it passes. *)
Lemma extractLoop_passes tarPath pre rest next st n :
  Forall (λ e, passes tmpDir e = true) pre →
  ∃ st', unchangedOutside tmpDir st st' ∧
    extractLoop tmpDir tarPath (pre ++ rest) next st n
    = extractLoop tmpDir tarPath rest next st' (fold_left countEntry pre n).
Proof.
  intros Hpre. revert st n.
  induction Hpre as [|e pre He _ IH]; intros st n; simpl.
  - exists st. split; [apply unchangedOutside_refl|done].
  - destruct (extractEntry_passes e st n He) as [st1 Hst1].
    pose proof (extractEntry_outside e st n) as Hout.
    rewrite Hst1 in Hout |- *. simpl in Hout.
    destruct (IH st1 (countEntry n e)) as (st' & Hout' & ->).
    exists st'. split; [|done]. by eapply unchangedOutside_trans.
Qed.

Lemma extractLoop_outside tarPath es next st n :
  unchangedOutside tmpDir st (resultState (extractLoop tmpDir tarPath es next st n)).
Proof.
  revert st n. induction es as [|e es IH]; intros st n; simpl.
  - destruct (is_EOF next); apply unchangedOutside_refl.
  - pose proof (extractEntry_outside e st n) as Hout.
    destruct (extractEntry tmpDir e st n) as [st1 n1|st1 n1|st1 err]; simpl in *; auto.
    eapply unchangedOutside_trans; [exact Hout|apply IH].
Qed.

End TarProperties.

(** What [ExtractTarballTmp] returns once the steps before the loop
    succeeded. *)
Lemma ExtractTarballTmp_opens w tarPath st :
  Tar.opens w = true →
  Tar.ExtractTarballTmp w tarPath st
  = match Tar.extractLoop (Tar.mkdirTemp w).1 tarPath (Tar.entries w)
            (Tar.nextErr w) (Tar.mkdir (Tar.mkdirTemp w).1 st) 0 with
    | Tar.Return st' e => (st', ((Tar.mkdirTemp w).1, Some e))
    | Tar.Break st' n | Tar.Continue st' n =>
        (Tar.log (Tar.LogExtracted n tarPath) st', ((Tar.mkdirTemp w).1, None))
    end.
Proof.
  unfold Tar.opens, Tar.ExtractTarballTmp.
  destruct (Tar.mkdirTemp w) as [d [e|]]; simpl; [done|].
  destruct (Tar.openErr w); simpl; [done|].
  destruct (Tar.ReadFull3 (Tar.fileHead w)) as [sample [e|]]; simpl; [done|].
  destruct (Tar.seekErr w); simpl; [done|].
  destruct (Tar.isGzip sample); simpl.
  - destruct (Tar.gzipErr w); simpl; [done|]. done.
  - done.
Qed.

Lemma Contains_aux_app sub a s n :
  String.prefix sub s = true → (String.length a ≤ n)%nat →
  strings.Contains_aux n (a +:+ s) sub = true.
Proof.
  intros Hsub. revert n.
  induction a as [|c a IH]; intros n Hn.
  - change ("" +:+ s) with s.
    destruct n; cbn [strings.Contains_aux]; rewrite Hsub; done.
  - change (String c a +:+ s) with (String c (a +:+ s)).
    destruct n as [|n]; cbn [String.length] in Hn; [lia|].
    cbn [strings.Contains_aux]. rewrite IH by lia. apply orb_true_r.
Qed.

Lemma Contains_app sub a s :
  String.prefix sub s = true → strings.Contains (a +:+ s) sub = true.
Proof.
  intros Hsub. apply Contains_aux_app; [done|].
  induction a; simpl; lia.
Qed.

Lemma append_assoc (a b c : string) : (a +:+ b) +:+ c = a +:+ (b +:+ c).
Proof.
  induction a as [|x a IH]; [done|].
  change (String x ((a +:+ b) +:+ c) = String x (a +:+ (b +:+ c))).
  by rewrite IH.
Qed.

Lemma illegal_file_path_matches name :
  strings.Contains (Error (errorString (name +:+ ": illegal file path")))
    "illegal file path" = true.
Proof.
  simpl. change ": illegal file path" with (": " +:+ "illegal file path").
  rewrite <- append_assoc. by apply Contains_app.
Qed.

(** C1, the defect.  The loop calls [os.MkdirAll] on
    [Join(tmpDir, Dir(name))] (line 130) before [sanitizeExtractPath]
    checks the name of the entry (line 136).  For an entry that the loop
    reaches, that is neither a directory nor a whiteout and whose
    destination [Join(tmpDir, name)] does not start with [Clean(tmpDir)]
    and the separator, the extraction ends: the temp directory is returned
    with an error, and no regular file outside the temp directory was
    created or changed.  But the check comes too late for the directory:
    when [MkdirAll] succeeded the error is [name: illegal file path] and
    the directory [Join(tmpDir, Dir(name))] exists after the run, wherever
    the name of the entry points; when [MkdirAll] failed its error comes
    back wrapped, and the illegal path is not reported. *)
Theorem ExtractTarballTmp_mkdir_precedes_path_check
    (w : Tar.World) (tarPath : string) (st : Tar.State)
    (pre post : list Tar.Entry) (e : Tar.Entry) :
  let tmpDir := (Tar.mkdirTemp w).1 in
  let name := Tar.Name (Tar.hdr e) in
  Tar.opens w = true →
  Tar.entries w = pre ++ e :: post →
  Forall (λ x, Tar.passes tmpDir x = true) pre →
  Tar.skipped e = false →
  strings.HasPrefix (filepath.Join tmpDir name)
    (filepath.Clean tmpDir +:+ "/") = false →
  ∃ st' err,
    Tar.ExtractTarballTmp w tarPath st = (st', (tmpDir, Some err)) ∧
    Tar.unchangedOutside tmpDir st st' ∧
    match Tar.mkdirAllErr e with
    | None =>
        err = errorString (name +:+ ": illegal file path") ∧
        strings.Contains (Error err) "illegal file path" = true ∧
        filepath.Join tmpDir (filepath.Dir name) ∈ Tar.dirs (Tar.fs st')
    | Some cause =>
        err = wrapError "creating image directory structure: " cause
    end.
Proof.
  intros tmpDir name Hopen Hes Hpre Hskip Hout.
  rewrite ExtractTarballTmp_opens by done. fold tmpDir. rewrite Hes.
  destruct (extractLoop_passes tmpDir tarPath pre (e :: post) (Tar.nextErr w)
              (Tar.mkdir tmpDir st) 0 Hpre) as (st1 & Hst1 & ->).
  simpl. unfold Tar.extractEntry.
  unfold Tar.skipped in Hskip. apply orb_false_elim in Hskip as [-> ->].
  destruct (Tar.mkdirAllErr e) as [cause|].
  - exists st1, (wrapError "creating image directory structure: " cause).
    split; [reflexivity|]. split; [|reflexivity].
    intros p Hp. by rewrite (Hst1 p Hp).
  - fold name. rewrite (sanitizeExtractPath_illegal tmpDir) by done.
    eexists _, _. split; [reflexivity|]. split.
    { intros p Hp. simpl. by rewrite (Hst1 p Hp). }
    split; [reflexivity|]. split; [apply illegal_file_path_matches|].
    simpl. apply elem_of_union_l, elem_of_singleton. reflexivity.
Qed.

(** The failing input of C1: in the temp directory [/tmp/x], an entry of a
    regular file named [../foo/].  Its destination is [/tmp/foo], outside
    [/tmp/x]; the run reports the illegal path, and leaves the directory
    [/tmp/foo] behind, at the destination itself. *)
Lemma ExtractTarballTmp_mkdir_precedes_path_check_witness :
  filepath.Join "/tmp/x" "../foo/" = "/tmp/foo" ∧
  Tar.inside "/tmp/x" "/tmp/foo" = false ∧
  ∃ st' err,
    Tar.ExtractTarballTmp
      (Tar.plainTar [Tar.fileEntry "a.txt" [x68; x69];
                     Tar.fileEntry "../foo/" []])
      "layer.tar" Tar.emptyState
    = (st', ("/tmp/x", Some err)) ∧
    Tar.unchangedOutside "/tmp/x" Tar.emptyState st' ∧
    err = errorString ("../foo/" +:+ ": illegal file path") ∧
    strings.Contains (Error err) "illegal file path" = true ∧
    "/tmp/foo" ∈ Tar.dirs (Tar.fs st').
Proof.
  split; [reflexivity|]. split; [reflexivity|].
  apply (ExtractTarballTmp_mkdir_precedes_path_check
           (Tar.plainTar [Tar.fileEntry "a.txt" [x68; x69];
                          Tar.fileEntry "../foo/" []])
           "layer.tar" Tar.emptyState
           [Tar.fileEntry "a.txt" [x68; x69]] []
           (Tar.fileEntry "../foo/" [])).
  - reflexivity.
  - reflexivity.
  - repeat constructor.
  - reflexivity.
  - reflexivity.
Defined.

(** The same defect one level up: the entry [../foo/bar.txt] creates no
    file, and leaves the directory [/tmp/foo]. *)
Example ExtractTarballTmp_escaping_parent :
  let st' :=
    (Tar.ExtractTarballTmp (Tar.plainTar [Tar.fileEntry "../foo/bar.txt" []])
       "layer.tar" Tar.emptyState).1 in
  Tar.files (Tar.fs st') = ∅ ∧ Tar.dirs (Tar.fs st') = {["/tmp/foo"; "/tmp/x"]}.
Proof. split; vm_compute; reflexivity. Qed.

(** An entry the loop skips is not checked at all: a whiteout named
    [../.wh.x] has its destination outside [/tmp/x], and the extraction
    succeeds, creating nothing for it. *)
Lemma ExtractTarballTmp_skips_escaping_whiteout :
  filepath.Join "/tmp/x" "../.wh.x" = "/tmp/.wh.x" ∧
  strings.HasPrefix "/tmp/.wh.x" (filepath.Clean "/tmp/x" +:+ "/") = false ∧
  (Tar.ExtractTarballTmp (Tar.plainTar [Tar.fileEntry "../.wh.x" []])
     "layer.tar" Tar.emptyState).2 = ("/tmp/x", None).
Proof. repeat split; vm_compute; reflexivity. Qed.

(** C2, the defect.  When the temp directory was created and the file was
    opened, and then the sampling of the first three bytes, the rewinding
    or the construction of the gzip reader fails, [ExtractTarballTmp]
    returns the empty string in place of the directory, which stays on
    disk. *)
Theorem ExtractTarballTmp_early_failure_drops_tmpDir
    (w : Tar.World) (tarPath : string) (st : Tar.State) (tmpDir : string) :
  Tar.mkdirTemp w = (tmpDir, None) →
  Tar.openErr w = None →
  Tar.opens w = false →
  ∃ st' err,
    Tar.ExtractTarballTmp w tarPath st = (st', ("", Some err)) ∧
    tmpDir ∈ Tar.dirs (Tar.fs st').
Proof.
  intros Hmk Hopen. unfold Tar.opens, Tar.ExtractTarballTmp.
  rewrite Hmk, Hopen. simpl.
  destruct (Tar.ReadFull3 (Tar.fileHead w)) as [sample [e|]]; simpl.
  { intros _. eexists _, _. split; [reflexivity|set_solver]. }
  destruct (Tar.seekErr w) as [e|]; simpl.
  { intros _. eexists _, _. split; [reflexivity|set_solver]. }
  destruct (Tar.isGzip sample); simpl; [|done].
  destruct (Tar.gzipErr w) as [e|]; simpl; [|done].
  intros _. eexists _, _. split; [reflexivity|set_solver].
Qed.

Lemma ExtractTarballTmp_early_failure_drops_tmpDir_witness :
  ∃ st' err,
    Tar.ExtractTarballTmp (Tar.shortFile []) "empty.tar" Tar.emptyState
    = (st', ("", Some err)) ∧
    "/tmp/spdx-tar-extract-1" ∈ Tar.dirs (Tar.fs st').
Proof.
  apply (ExtractTarballTmp_early_failure_drops_tmpDir
           (Tar.shortFile []) "empty.tar" Tar.emptyState
           "/tmp/spdx-tar-extract-1").
  - reflexivity.
  - reflexivity.
  - reflexivity.
Defined.

(** The failing input of C2: an empty file. *)
Example ExtractTarballTmp_empty_file :
  (Tar.ExtractTarballTmp (Tar.shortFile []) "empty.tar" Tar.emptyState).2
  = ("", Some (wrapError "sampling bytes from file header: " io_EOF)).
Proof. reflexivity. Qed.

(** The sibling paths of the defect of C2: a failure to open the file, and
    every failure inside the loop, return the temp directory. *)
Lemma ExtractTarballTmp_loop_failure_returns_tmpDir
    (w : Tar.World) (tarPath : string) (st st' : Tar.State)
    (dir : string) (err : error) :
  Tar.opens w = true →
  Tar.ExtractTarballTmp w tarPath st = (st', (dir, Some err)) →
  dir = (Tar.mkdirTemp w).1.
Proof.
  intros Hopen. rewrite ExtractTarballTmp_opens by done.
  destruct (Tar.extractLoop _ _ _ _ _ _); by intros [= _ <- _].
Qed.

Lemma CopyN_written (src : Tar.Reader) (n : Z) :
  (Tar.CopyN src n).1 = take (Z.to_nat n) (Tar.data src).
Proof.
  unfold Tar.CopyN, Tar.CopyLimited.
  repeat (case_match; simplify_eq/=); done.
Qed.

(** The contract of [io.CopyN]: without error, [n] bytes were written
    (none for a negative [n]); with an error, fewer than [n]. *)
Lemma CopyN_contract (src : Tar.Reader) (n : Z) :
  match (Tar.CopyN src n).2 with
  | None => 0 ≤ n → Z.of_nat (length (Tar.CopyN src n).1) = n
  | Some _ => Z.of_nat (length (Tar.CopyN src n).1) < n
  end.
Proof.
  unfold Tar.CopyN, Tar.CopyLimited.
  set (written := take (Z.to_nat n) (Tar.data src)).
  assert (Z.of_nat (length written) ≤ Z.max 0 n) as Hle.
  { unfold written. rewrite length_take. lia. }
  destruct (Z.of_nat (length (Tar.data src)) <? n) eqn:Hlt.
  - apply Z.ltb_lt in Hlt.
    assert (Z.of_nat (length written) < n) as Hw.
    { unfold written. rewrite length_take. lia. }
    destruct (Z.of_nat (length written) =? n) eqn:Heq;
      [apply Z.eqb_eq in Heq; lia|].
    destruct (Z.of_nat (length written) <? n) eqn:Hlt';
      [|apply Z.ltb_ge in Hlt'; lia].
    destruct (is_EOF (Tar.stop src)); simpl; done.
  - apply Z.ltb_ge in Hlt.
    destruct (Z.of_nat (length written) =? n) eqn:Heq; simpl.
    + apply Z.eqb_eq in Heq. done.
    + destruct (Z.of_nat (length written) <? n) eqn:Hlt'; simpl.
      * apply Z.ltb_lt in Hlt'. done.
      * apply Z.ltb_ge in Hlt'. apply Z.eqb_neq in Heq. lia.
Qed.

(** The two ways in which the body of an entry ends early: the body of a
    regular entry that the archive cuts short stops the copy with
    [io.ErrUnexpectedEOF]; an entry of a header-only type whose header
    carries a size stops it with [io.EOF] before the first byte. *)
Lemma CopyN_truncated_body (size : Z) (payload : list byte) :
  Z.of_nat (length payload) < size →
  Tar.CopyN (Tar.regFileReader false size payload) size
  = (payload, Some io_ErrUnexpectedEOF).
Proof.
  intros Hlt. unfold Tar.regFileReader.
  destruct (Z.of_nat (length payload) <? size) eqn:Hlt';
    [|apply Z.ltb_ge in Hlt'; lia].
  unfold Tar.CopyN, Tar.CopyLimited. simpl. rewrite Hlt'. simpl.
  rewrite take_ge by lia.
  destruct (Z.of_nat (length payload) =? size) eqn:Heq;
    [apply Z.eqb_eq in Heq; lia|]. by rewrite Hlt'.
Qed.

Lemma CopyN_header_only (size : Z) (payload : list byte) :
  0 < size →
  Tar.CopyN (Tar.regFileReader true size payload) size = ([], Some io_EOF).
Proof.
  intros Hpos. unfold Tar.regFileReader.
  destruct (Z.of_nat (length payload) <? 0) eqn:Hlt;
    [apply Z.ltb_lt in Hlt; lia|].
  assert ((0 <? size) = true) as Hlt' by (apply Z.ltb_lt; lia).
  assert ((0 =? size) = false) as Hne by (apply Z.eqb_neq; lia).
  unfold Tar.CopyN, Tar.CopyLimited.
  cbn [Tar.data Tar.stop is_EOF].
  change (Z.to_nat 0) with 0%nat. rewrite take_0, take_nil.
  cbn [length]. change (Z.of_nat 0) with 0. rewrite Hlt'.
  cbv beta iota zeta. cbn [length]. change (Z.of_nat 0) with 0.
  by rewrite Hne, Hlt'.
Qed.

(** C3, as amended.  For an entry that the loop reaches and whose
    destination file was created: when the copy returns no error, exactly
    [Size] bytes (for a size that is not negative), the first of the body,
    are in the destination file after this turn of the loop; when the copy
    stops short with an error other than [io.EOF], the extraction returns
    the temp directory and that error, wrapped; when it stops short with
    [io.EOF], the loop ends and the extraction returns no error. *)
Theorem ExtractTarballTmp_copy
    (w : Tar.World) (tarPath : string) (st : Tar.State)
    (pre post : list Tar.Entry) (e : Tar.Entry) :
  let tmpDir := (Tar.mkdirTemp w).1 in
  let dest := filepath.Join tmpDir (Tar.Name (Tar.hdr e)) in
  let size := Tar.Size (Tar.hdr e) in
  let written := (Tar.CopyN (Tar.body e) size).1 in
  Tar.opens w = true →
  Tar.entries w = pre ++ e :: post →
  Forall (λ x, Tar.passes tmpDir x = true) pre →
  Tar.reachesCopy tmpDir e = true →
  match Tar.copyErr e with
  | None =>
      (0 ≤ size → Z.of_nat (length written) = size) ∧
      written = take (Z.to_nat size) (Tar.data (Tar.body e)) ∧
      ∀ s n, ∃ s',
        Tar.extractEntry tmpDir e s n = Tar.Continue s' (Tar.int_incr n) ∧
        Tar.files (Tar.fs s') !! dest = Some written
  | Some err =>
      Z.of_nat (length written) < size ∧
      (Tar.ExtractTarballTmp w tarPath st).2
      = (tmpDir,
         if is_EOF err then None
         else Some (wrapError "extracting image data: " err))
  end.
Proof.
  intros tmpDir dest size written Hopen Hes Hpre Hreach.
  pose proof (CopyN_contract (Tar.body e) size) as Hcontract.
  pose proof (CopyN_written (Tar.body e) size) as Hwritten.
  unfold Tar.reachesCopy, Tar.skipped in Hreach.
  repeat (apply andb_prop in Hreach as [Hreach ?]).
  apply negb_true_iff, orb_false_elim in Hreach as [Hdir Hwh].
  destruct (Tar.mkdirAllErr e) eqn:Hmk; [done|].
  destruct (Tar.createErr e) eqn:Hcr; [done|].
  destruct (Tar.sanitizeExtractPath tmpDir (Tar.Name (Tar.hdr e)))
    as [target [serr|]] eqn:Hsan; [done|].
  apply sanitizeExtractPath_ok in Hsan as Htarget. destruct Htarget as [-> _].
  unfold Tar.copyErr. fold size. fold dest in Hsan.
  destruct (Tar.CopyN (Tar.body e) size) as [wr cerr] eqn:Hcopy.
  simpl in Hcontract, Hwritten. subst written. simpl.
  destruct cerr as [err|].
  - split; [done|].
    rewrite ExtractTarballTmp_opens by done. fold tmpDir. rewrite Hes.
    destruct (extractLoop_passes tmpDir tarPath pre (e :: post)
                (Tar.nextErr w) (Tar.mkdir tmpDir st) 0 Hpre)
      as (st1 & _ & ->).
    simpl. unfold Tar.extractEntry.
    rewrite Hdir, Hwh, Hmk, Hsan, Hcr. fold size. rewrite Hcopy.
    by destruct (is_EOF err).
  - split; [done|]. split; [done|]. intros s n.
    unfold Tar.extractEntry.
    rewrite Hdir, Hwh, Hmk, Hsan, Hcr. fold size. rewrite Hcopy.
    eexists. split; [reflexivity|]. simpl. apply lookup_insert_eq.
Qed.

Lemma ExtractTarballTmp_copy_witness :
  (0 ≤ 2 → Z.of_nat (length [x68; x69]) = 2) ∧
  [x68; x69] = take (Z.to_nat 2) [x68; x69] ∧
  ∀ s n, ∃ s',
    Tar.extractEntry "/tmp/x" (Tar.fileEntry "a.txt" [x68; x69]) s n
    = Tar.Continue s' (Tar.int_incr n) ∧
    Tar.files (Tar.fs s') !! "/tmp/x/a.txt" = Some [x68; x69].
Proof.
  apply (ExtractTarballTmp_copy
           (Tar.plainTar [Tar.fileEntry "a.txt" [x68; x69]])
           "layer.tar" Tar.emptyState [] []
           (Tar.fileEntry "a.txt" [x68; x69])).
  - reflexivity.
  - reflexivity.
  - constructor.
  - reflexivity.
Defined.

(** C3 fails as stated: the copy of a link entry whose header carries the
    size 5 delivers no byte, the destination file stays empty, and the
    extraction returns no error. *)
Lemma ExtractTarballTmp_short_copy_without_error :
  let r := Tar.ExtractTarballTmp (Tar.plainTar [Tar.linkEntry "lnk" 5])
             "layer.tar" Tar.emptyState in
  Tar.CopyN (Tar.body (Tar.linkEntry "lnk" 5)) 5 = ([], Some io_EOF) ∧
  Tar.files (Tar.fs r.1) !! "/tmp/x/lnk" = Some [] ∧
  r.2 = ("/tmp/x", None).
Proof. repeat split; vm_compute; reflexivity. Qed.

(** How a turn of the loop that does not return moves the counter. *)
Lemma extractEntry_count tmpDir e st n :
  match Tar.extractEntry tmpDir e st n with
  | Tar.Continue _ n' => n' = Tar.countEntry n e ∧ Tar.copyEndsEOF e = false
  | Tar.Break _ n' => n' = n ∧ Tar.copyEndsEOF e = true
  | Tar.Return _ _ => True
  end.
Proof.
  unfold Tar.extractEntry, Tar.countEntry, Tar.copyEndsEOF, Tar.skipped,
    Tar.copyErr.
  destruct (Tar.IsDir (Tar.hdr e)); [done|].
  destruct (Tar.isWhiteout (Tar.hdr e)); [done|].
  destruct (Tar.mkdirAllErr e); [done|].
  destruct (Tar.sanitizeExtractPath _ _) as [target [err|]]; [done|].
  destruct (Tar.createErr e); [done|].
  destruct (Tar.CopyN _ _) as [written [err|]]; [|done].
  by destruct (is_EOF err) eqn:Heof.
Qed.

(** The counter when the loop ends without returning an error. *)
Lemma extractLoop_count tmpDir tarPath es next st n st' n' :
  Tar.extractLoop tmpDir tarPath es next st n = Tar.Break st' n' →
  n' = fold_left Tar.countEntry (Tar.beforeBreak es) n.
Proof.
  revert st n. induction es as [|e es IH]; intros st n; simpl.
  - destruct (is_EOF next); [|done]. by intros [= _ <-].
  - pose proof (extractEntry_count tmpDir e st n) as Hcount.
    destruct (Tar.extractEntry tmpDir e st n) as [st1 n1|st1 n1|st1 err].
    + destruct Hcount as [-> ->]. simpl. apply IH.
    + destruct Hcount as [-> ->]. by intros [= _ <-].
    + done.
Qed.

Lemma extractLoop_not_Continue tmpDir tarPath es next st n st' n' :
  Tar.extractLoop tmpDir tarPath es next st n ≠ Tar.Continue st' n'.
Proof.
  revert st n. induction es as [|e es IH]; intros st n; simpl.
  - by destruct (is_EOF next).
  - destruct (Tar.extractEntry tmpDir e st n) eqn:He; [apply IH|done..].
Qed.

(** Below [2^63] the counter of 64 bits does not wrap. *)
Lemma fold_countEntry es n :
  0 ≤ n → n + Z.of_nat (length es) < 2 ^ 63 →
  fold_left Tar.countEntry es n = n + Z.of_nat (Tar.fileEntries es).
Proof.
  unfold Tar.fileEntries. revert n.
  induction es as [|e es IH]; intros n Hn Hlen; simpl in *; [lia|].
  unfold Tar.countEntry at 2. destruct (Tar.skipped e); simpl.
  - rewrite IH by lia. done.
  - unfold Tar.int_incr. destruct (n + 1 <? 2 ^ 63) eqn:Hlt.
    + rewrite IH by lia. lia.
    + apply Z.ltb_ge in Hlt. lia.
Qed.

Lemma beforeBreak_length es : (length (Tar.beforeBreak es) ≤ length es)%nat.
Proof.
  induction es as [|e es IH]; simpl; [done|].
  destruct (Tar.copyEndsEOF e); simpl; lia.
Qed.

Lemma beforeBreak_all es :
  Forall (λ e, Tar.copyEndsEOF e = false) es → Tar.beforeBreak es = es.
Proof. induction 1 as [|e es He _ IH]; simpl; [done|]. by rewrite He, IH. Qed.

Lemma ExtractTarballTmp_success_opens w tarPath st st' dir :
  Tar.ExtractTarballTmp w tarPath st = (st', (dir, None)) →
  Tar.opens w = true.
Proof.
  unfold Tar.ExtractTarballTmp, Tar.opens.
  destruct (Tar.mkdirTemp w) as [d [e|]]; simpl; [done|].
  destruct (Tar.openErr w); simpl; [done|].
  destruct (Tar.ReadFull3 (Tar.fileHead w)) as [sample [e|]]; simpl; [done|].
  destruct (Tar.seekErr w); simpl; [done|].
  destruct (Tar.isGzip sample); simpl; [|done].
  by destruct (Tar.gzipErr w).
Qed.

(** C4, as amended.  When [ExtractTarballTmp] returns no error (and the
    archive has fewer than [2^63] entries), the count it logs last is the
    number of entries, neither directories nor whiteouts, that come before
    the first entry whose copy ended with [io.EOF]; when no copy ended
    with [io.EOF] it is the number of such entries of the whole archive. *)
Theorem ExtractTarballTmp_file_count
    (w : Tar.World) (tarPath : string) (st st' : Tar.State) (dir : string) :
  Tar.ExtractTarballTmp w tarPath st = (st', (dir, None)) →
  Z.of_nat (length (Tar.entries w)) < 2 ^ 63 →
  last (Tar.logs st')
  = Some (Tar.LogExtracted
            (Z.of_nat (Tar.fileEntries (Tar.beforeBreak (Tar.entries w))))
            tarPath) ∧
  (Forall (λ e, Tar.copyEndsEOF e = false) (Tar.entries w) →
   last (Tar.logs st')
   = Some (Tar.LogExtracted (Z.of_nat (Tar.fileEntries (Tar.entries w)))
             tarPath)).
Proof.
  intros Hres Hlen.
  pose proof (ExtractTarballTmp_success_opens _ _ _ _ _ Hres) as Hopen.
  rewrite ExtractTarballTmp_opens in Hres by done.
  assert (last (Tar.logs st')
          = Some (Tar.LogExtracted
                    (Z.of_nat (Tar.fileEntries
                                 (Tar.beforeBreak (Tar.entries w))))
                    tarPath)) as Hlast.
  { destruct (Tar.extractLoop _ _ _ _ _ _) as [st1 n1|st1 n1|st1 err] eqn:Hloop.
    - by apply extractLoop_not_Continue in Hloop.
    - apply extractLoop_count in Hloop. injection Hres as <- _.
      simpl. rewrite last_snoc. rewrite Hloop, fold_countEntry; [done|lia|].
      pose proof (beforeBreak_length (Tar.entries w)). lia.
    - done. }
  split; [done|]. intros Hall. by rewrite <- (beforeBreak_all _ Hall) at 1.
Qed.

Lemma ExtractTarballTmp_file_count_witness :
  last (Tar.logs
          (Tar.ExtractTarballTmp
             (Tar.plainTar [Tar.fileEntry "a.txt" [x68; x69];
                            Tar.fileEntry ".wh.deleted" [];
                            Tar.fileEntry "dir/.wh.x" []])
             "layer.tar" Tar.emptyState).1)
  = Some (Tar.LogExtracted 1 "layer.tar").
Proof.
  apply (ExtractTarballTmp_file_count
           (Tar.plainTar [Tar.fileEntry "a.txt" [x68; x69];
                          Tar.fileEntry ".wh.deleted" [];
                          Tar.fileEntry "dir/.wh.x" []])
           "layer.tar" Tar.emptyState _ "/tmp/x").
  - reflexivity.
  - simpl. lia.
  - repeat constructor.
Defined.

(** C4 fails as stated: the extraction of an archive whose only entry is a
    link with a size succeeds and logs the count 0, yet the entry is
    neither a directory nor a whiteout. *)
Lemma ExtractTarballTmp_count_misses_entry :
  let w := Tar.plainTar [Tar.linkEntry "lnk" 5] in
  let r := Tar.ExtractTarballTmp w "layer.tar" Tar.emptyState in
  r.2 = ("/tmp/x", None) ∧
  last (Tar.logs r.1) = Some (Tar.LogExtracted 0 "layer.tar") ∧
  Tar.fileEntries (Tar.entries w) = 1%nat.
Proof. repeat split; vm_compute; reflexivity. Qed.

(** ** The ignore engine and the directory scanner *)
Section ScanProperties.
Context `{G : Scan.Gitignore}.

(** Appending in a loop builds the image of the list. *)
Lemma fold_left_append_map {A B} (f : A → B) (l : list A) (acc : list B) :
  fold_left (λ ps s, ps ++ [f s]) l acc = acc ++ (f <$> l).
Proof.
  revert acc. induction l as [|x l IH]; intros acc; simpl.
  - by rewrite app_nil_r.
  - rewrite IH, <- app_assoc. done.
Qed.

Lemma fold_left_append_filter {A B} (keep : A → bool) (f : A → B)
    (l : list A) (acc : list B) :
  fold_left (λ ps s, if keep s then ps ++ [f s] else ps) l acc
  = acc ++ (f <$> List.filter keep l).
Proof.
  revert acc. induction l as [|x l IH]; intros acc; simpl.
  - by rewrite app_nil_r.
  - rewrite IH. destruct (keep x); simpl; [|done].
    by rewrite <- app_assoc.
Qed.

Lemma fold_left_skip_filter {A} (skip : A → bool) (l acc : list A) :
  fold_left (λ kept x, if skip x then kept else kept ++ [x]) l acc
  = acc ++ List.filter (λ x, negb (skip x)) l.
Proof.
  revert acc. induction l as [|x l IH]; intros acc; simpl.
  - by rewrite app_nil_r.
  - rewrite IH. destruct (skip x); simpl; [done|].
    by rewrite <- app_assoc.
Qed.

(** The loop of [ApplyIgnorePatterns] keeps, in order, the files the
    matcher does not match. *)
Lemma ApplyIgnorePatterns_filter (fileList : list string)
    (patterns : list Scan.Pattern) :
  Scan.ApplyIgnorePatterns fileList patterns
  = List.filter
      (λ file, negb (Scan.MatcherMatch patterns
                       (strings.Split file filepath.Separator) false))
      fileList.
Proof.
  unfold Scan.ApplyIgnorePatterns.
  by rewrite (fold_left_skip_filter
                (λ file, Scan.MatcherMatch patterns
                           (strings.Split file filepath.Separator) false)).
Qed.

Lemma filter_idempotent {A} (keep : A → bool) (l : list A) :
  List.filter keep (List.filter keep l) = List.filter keep l.
Proof.
  induction l as [|x l IH]; simpl; [done|].
  destruct (keep x) eqn:Hx; simpl; [|done]. by rewrite Hx, IH.
Qed.

End ScanProperties.

(** C9.  Applying the ignore patterns twice gives the list that applying
    them once gives. *)
Theorem ApplyIgnorePatterns_idempotent `{G : Scan.Gitignore}
    (fileList : list string) (patterns : list Scan.Pattern) :
  Scan.ApplyIgnorePatterns (Scan.ApplyIgnorePatterns fileList patterns)
    patterns
  = Scan.ApplyIgnorePatterns fileList patterns.
Proof.
  rewrite !ApplyIgnorePatterns_filter. apply filter_idempotent.
Qed.

(** C5, as amended.  When [.gitignore] loading is enabled and the file
    exists at the scan root and can be opened, the compiled list starts
    with the caller's extra patterns and holds [.git/] right after them. *)
Theorem IgnorePatterns_git_follows_extras `{G : Scan.Gitignore}
    (w : Scan.World) (dirPath : string) (extraPatterns lines : list string) :
  Scan.Exists w (filepath.Join dirPath Scan.gitIgnoreFile) = true →
  Scan.OpenLines w (filepath.Join dirPath Scan.gitIgnoreFile) = Ok lines →
  ∃ patterns,
    Scan.IgnorePatterns w dirPath extraPatterns false = Ok patterns ∧
    take (length extraPatterns) patterns = Scan.ParsePattern <$> extraPatterns ∧
    patterns !! length extraPatterns = Some (Scan.ParsePattern ".git/") ∧
    drop (S (length extraPatterns)) patterns
    = Scan.ParsePattern <$> List.filter (Scan.isPatternLine w) lines.
Proof.
  intros Hex Hopen. unfold Scan.IgnorePatterns. rewrite Hex, Hopen.
  eexists. split; [reflexivity|].
  rewrite fold_left_append_filter, fold_left_append_map. simpl.
  rewrite <- !app_assoc. simpl.
  assert (length (Scan.ParsePattern <$> extraPatterns)
          = length extraPatterns) as Hlen by apply length_fmap.
  repeat split.
  - rewrite take_app_length'; done.
  - rewrite lookup_app_r by lia. by rewrite Hlen, Nat.sub_diag.
  - rewrite drop_app_ge by lia.
    by replace (S (length extraPatterns) - length (Scan.ParsePattern <$> extraPatterns))%nat
      with 1%nat by lia.
Qed.

Lemma IgnorePatterns_git_follows_extras_witness :
  ∃ patterns,
    Scan.IgnorePatterns (G := ScanSamples.literalPatterns)
      (ScanSamples.gitDirectory ["a.txt"; "b.log"] ["# logs"; "*.log"])
      "/repo" ["vendor/"] false = Ok patterns ∧
    take 1 patterns = ["vendor/"] ∧
    patterns !! 1%nat = Some ".git/" ∧
    drop 2 patterns = ["*.log"].
Proof.
  apply (IgnorePatterns_git_follows_extras (G := ScanSamples.literalPatterns)
           (ScanSamples.gitDirectory ["a.txt"; "b.log"] ["# logs"; "*.log"])
           "/repo" ["vendor/"] ["# logs"; "*.log"]).
  - reflexivity.
  - reflexivity.
Defined.

(** C5 fails as stated: with [.gitignore] loading enabled, in a directory
    without a [.gitignore] file the compiled list is the caller's extra
    patterns alone. *)
Lemma IgnorePatterns_without_gitignore_file :
  Scan.IgnorePatterns (G := ScanSamples.literalPatterns)
    (ScanSamples.plainDirectory ["a.txt"] None) "/repo" ["*.log"] false
  = Ok ["*.log"].
Proof. vm_compute. reflexivity. Qed.

Lemma no_files_to_scan_matches (dirPath : string) :
  strings.Contains
    (Error (errorString
              ("directory " +:+ dirPath +:+ " has no files to scan")))
    "no files to scan" = true.
Proof.
  simpl. change " has no files to scan" with (" has " +:+ "no files to scan").
  rewrite <- !append_assoc. by apply Contains_app.
Qed.

(** A directory whose file list is empty after the ignore patterns were
    applied yields no package, whatever the license reader does. *)
Lemma PackageFromDirectory_no_files_fails `{G : Scan.Gitignore}
    (w : Scan.World) (opts : SPDX.Options) (dirPath abs : string)
    (fileList : list string) (patterns : list Scan.Pattern) :
  Scan.Abs w dirPath = (abs, None) →
  Scan.GetDirectoryTree w abs = Ok fileList →
  Scan.IgnorePatterns w abs (SPDX.IgnorePatterns opts)
    (SPDX.NoGitignore opts) = Ok patterns →
  Scan.ApplyIgnorePatterns fileList patterns = [] →
  ∃ e, Scan.PackageFromDirectory w opts dirPath = Err e.
Proof.
  intros Habs Htree Hpat Happly. unfold Scan.PackageFromDirectory.
  rewrite Habs, Htree.
  destruct (Scan.LicenseReader w opts); [eauto|].
  destruct (Scan.GetDirectoryLicense w abs); [|eauto].
  rewrite Hpat, Happly. simpl. eauto.
Qed.

(** C8, as amended.  For a directory whose file list is empty after the
    ignore patterns were applied, and for which the license reader was
    created and the scan for the license of the directory did not fail,
    [PackageFromDirectory] returns no package and the error
    [directory <path> has no files to scan]. *)
Theorem PackageFromDirectory_no_files `{G : Scan.Gitignore}
    (w : Scan.World) (opts : SPDX.Options) (dirPath abs : string)
    (fileList : list string) (patterns : list Scan.Pattern)
    (lic : option Scan.License) :
  Scan.Abs w dirPath = (abs, None) →
  Scan.GetDirectoryTree w abs = Ok fileList →
  Scan.LicenseReader w opts = None →
  Scan.GetDirectoryLicense w abs = Ok lic →
  Scan.IgnorePatterns w abs (SPDX.IgnorePatterns opts)
    (SPDX.NoGitignore opts) = Ok patterns →
  Scan.ApplyIgnorePatterns fileList patterns = [] →
  ∃ e, Scan.PackageFromDirectory w opts dirPath = Err e ∧
       e = errorString ("directory " +:+ abs +:+ " has no files to scan") ∧
       strings.Contains (Error e) "no files to scan" = true.
Proof.
  intros Habs Htree Hreader Hlic Hpat Happly.
  unfold Scan.PackageFromDirectory.
  rewrite Habs, Htree, Hreader, Hlic, Hpat, Happly. simpl.
  eexists. split; [reflexivity|]. split; [reflexivity|].
  apply no_files_to_scan_matches.
Qed.

Lemma PackageFromDirectory_no_files_witness :
  ∃ e, Scan.PackageFromDirectory (G := ScanSamples.literalPatterns)
         (ScanSamples.gitDirectory ["b.log"] ["b.log"])
         ScanSamples.defaultOptions "/repo" = Err e ∧
       e = errorString ("directory " +:+ "/repo" +:+ " has no files to scan") ∧
       strings.Contains (Error e) "no files to scan" = true.
Proof.
  apply (PackageFromDirectory_no_files (G := ScanSamples.literalPatterns)
           (ScanSamples.gitDirectory ["b.log"] ["b.log"])
           ScanSamples.defaultOptions "/repo" "/repo" ["b.log"]
           [".git/"; "b.log"] None).
  - reflexivity.
  - reflexivity.
  - reflexivity.
  - reflexivity.
  - reflexivity.
  - reflexivity.
Defined.

(** C8 fails as stated: in an empty directory the file list is empty after
    the ignore patterns were applied, yet when the license reader cannot be
    created the error of [PackageFromDirectory] is that of the reader. *)
Lemma PackageFromDirectory_reader_error_first :
  Scan.ApplyIgnorePatterns (G := ScanSamples.literalPatterns) [] [] = [] ∧
  ∃ e,
    Scan.PackageFromDirectory (G := ScanSamples.literalPatterns)
      (ScanSamples.plainDirectory [] (Some (errorString "no license data")))
      ScanSamples.defaultOptions "/empty" = Err e ∧
    Error e
    = "creating license reader: creating reusable license reader: no license data" ∧
    strings.Contains (Error e) "no files to scan" = false.
Proof.
  split; [reflexivity|]. eexists. split; [reflexivity|].
  split; vm_compute; reflexivity.
Qed.

(** ** The image assembler *)
Section ImageProperties.
Import Image.
Context `{R : Image.Registry} (w : Image.World).

(** *** Runs of the monad *)

Lemma bind_Ok {A B} (m : M A) (k : A → M B) s s' v :
  bind m k s = (s', Ok v) →
  ∃ s1 x, m s = (s1, Ok x) ∧ k x s1 = (s', Ok v).
Proof.
  unfold bind. destruct (m s) as [s1 [x|e]]; [eauto|discriminate].
Qed.

Lemma wrapM_Ok {A} pre (m : M A) s s' v :
  wrapM pre m s = (s', Ok v) → m s = (s', Ok v).
Proof. unfold wrapM. by destruct (m s) as [s1 [x|e]]. Qed.

Lemma wrapping_Ok {A} pre (r : result A) s s' v :
  wrapping pre r s = (s', Ok v) → r = Ok v ∧ s' = s.
Proof. destruct r; simpl; [by intros [= -> ->]|discriminate]. Qed.

Lemma deferRemoveAll_Ok {A} path (m : M A) s s' v :
  deferRemoveAll path m s = (s', Ok v) →
  ∃ s1, m s = (s1, Ok v) ∧ store s' = store s1.
Proof.
  unfold deferRemoveAll. destruct (m s) as [s1 r].
  intros [= <- ->]. eauto.
Qed.

(** *** Computations that leave the store of packages as it is *)

Lemma keepsStore_ret {A} (v : A) : keepsStore (ret v).
Proof. by intros s s' r [= <- _]. Qed.

Lemma keepsStore_fail {A} e : keepsStore (@fail A e).
Proof. by intros s s' r [= <- _]. Qed.

Lemma keepsStore_call c : keepsStore (call c).
Proof. by intros s s' r [= <- _]. Qed.

Lemma keepsStore_wrapping {A} pre (r : result A) : keepsStore (wrapping pre r).
Proof. destruct r; [apply keepsStore_ret|apply keepsStore_fail]. Qed.

Lemma keepsStore_wrappingErr pre r : keepsStore (wrappingErr pre r).
Proof. destruct r; [apply keepsStore_fail|apply keepsStore_ret]. Qed.

Lemma keepsStore_bind {A B} (m : M A) (k : A → M B) :
  keepsStore m → (∀ x, keepsStore (k x)) → keepsStore (bind m k).
Proof.
  intros Hm Hk s s' r. unfold bind.
  destruct (m s) as [s1 [x|e]] eqn:Hms.
  - intros Hks. rewrite (Hk _ _ _ _ Hks). by eapply Hm.
  - intros [= <- _]. by eapply Hm.
Qed.

Lemma keepsStore_wrapM {A} pre (m : M A) : keepsStore m → keepsStore (wrapM pre m).
Proof.
  intros Hm s s' r. unfold wrapM.
  destruct (m s) as [s1 [x|e]] eqn:Hms; intros [= <- _]; by eapply Hm.
Qed.

Lemma keepsStore_deferRemoveAll {A} path (m : M A) :
  keepsStore m → keepsStore (deferRemoveAll path m).
Proof.
  intros Hm s s' r. unfold deferRemoveAll.
  destruct (m s) as [s1 r1] eqn:Hms. intros [= <- _]. simpl. by eapply Hm.
Qed.

Create HintDb keeps.

#[local] Hint Resolve keepsStore_ret keepsStore_fail keepsStore_call
  keepsStore_wrapping keepsStore_wrappingErr keepsStore_bind
  keepsStore_wrapM keepsStore_deferRemoveAll : keeps.

Ltac keeps :=
  repeat first
    [ progress eauto with keeps
    | apply keepsStore_bind; [|intros ?]
    | apply keepsStore_wrapM
    | apply keepsStore_deferRemoveAll
    | match goal with
      | |- keepsStore (if ?b then _ else _) => destruct b
      | |- keepsStore (match ?x with _ => _ end) => destruct x
      | |- keepsStore (let '(_, _) := ?x in _) => destruct x
      end ].

Lemma keepsStore_addPackage pre sub p : keepsStore (addPackage w pre sub p).
Proof. unfold addPackage. keeps. Qed.

Lemma keepsStore_PackageFromTarball opts tarOpts tarFile :
  keepsStore (PackageFromTarball w opts tarOpts tarFile).
Proof. unfold PackageFromTarball. keeps. Qed.

Lemma keepsStore_addOSPackages entries pkg :
  keepsStore (addOSPackages w entries pkg).
Proof.
  revert pkg. induction entries as [|entry entries IH]; intros pkg; simpl.
  - keeps.
  - apply keepsStore_bind; [apply keepsStore_addPackage|]. intros p. apply IH.
Qed.

Lemma keepsStore_addLayers opts tarOpts repoTag layerNum osData i layerFiles
    imagePackage :
  keepsStore (addLayers w opts tarOpts repoTag layerNum osData i layerFiles
                imagePackage).
Proof.
  revert i imagePackage.
  induction layerFiles as [|layerFile layerFiles IH]; intros i imagePackage;
    simpl.
  - keeps.
  - apply keepsStore_bind;
      [apply keepsStore_wrapM, keepsStore_PackageFromTarball|intros pkg].
    apply keepsStore_bind; [keeps|intros pkg1].
    apply keepsStore_bind.
    { destruct osData; [|keeps].
      destruct (i =? layerNum); [apply keepsStore_addOSPackages|keeps]. }
    intros pkg2.
    apply keepsStore_bind; [apply keepsStore_addPackage|intros p; apply IH].
Qed.

Lemma keepsStore_PackageFromImageTarball opts tarPath :
  keepsStore (PackageFromImageTarball w opts tarPath).
Proof.
  unfold PackageFromImageTarball.
  destruct (String.eqb tarPath ""); [keeps|].
  apply keepsStore_bind; [keeps|intros _].
  destruct (ExtractTarballTmp w tarPath) as [dir [e|]]; [keeps|].
  apply keepsStore_deferRemoveAll, keepsStore_bind; [keeps|intros manifest].
  destruct (RepoTags manifest) as [|repoTag tags]; [keeps|].
  destruct (String.eqb repoTag ""); [keeps|].
  apply keepsStore_bind; [keeps|intros scan]. apply keepsStore_addLayers.
Qed.

Lemma keepsStore_indexImages registry repository manifests images :
  keepsStore (indexImages registry repository manifests images).
Proof.
  revert images. induction manifests as [|m ms IH]; intros images; simpl.
  - keeps.
  - apply keepsStore_bind; [keeps|intros d].
    destruct (mdPlatform m); apply IH.
Qed.

Lemma keepsStore_getImageReferences referenceString :
  keepsStore (getImageReferences w referenceString).
Proof.
  unfold getImageReferences.
  apply keepsStore_bind; [keeps|intros ref].
  apply keepsStore_bind; [keeps|intros descr].
  destruct (negb _ && negb _); [keeps|].
  destruct (descIsImage descr).
  - keeps.
  - apply keepsStore_bind; [keeps|intros index].
    apply keepsStore_bind; [keeps|intros indexManifest].
    apply keepsStore_bind; [apply keepsStore_indexImages|intros ?; keeps].
Qed.

Lemma keepsStore_PullImagesToArchive referenceString path :
  keepsStore (PullImagesToArchive w referenceString path).
Proof.
  unfold PullImagesToArchive.
  apply keepsStore_bind; [apply keepsStore_getImageReferences|intros refs].
  apply keepsStore_bind; [keeps|intros _].
  destruct (taskErrors _); keeps.
Qed.

(** *** The calls a computation makes *)

Lemma callsOnly_ret {A} P (v : A) : callsOnly P (ret v).
Proof. intros s s' r [= <- _]. exists []. by rewrite app_nil_r. Qed.

Lemma callsOnly_fail {A} P e : callsOnly P (@fail A e).
Proof. intros s s' r [= <- _]. exists []. by rewrite app_nil_r. Qed.

Lemma callsOnly_call (P : Call → Prop) c : P c → callsOnly P (call c).
Proof. intros Hc s s' r [= <- _]. exists [c]. split; [done|by constructor]. Qed.

Lemma callsOnly_wrapping {A} P pre (r : result A) :
  callsOnly P (wrapping pre r).
Proof. destruct r; [apply callsOnly_ret|apply callsOnly_fail]. Qed.

Lemma callsOnly_bind {A B} P (m : M A) (k : A → M B) :
  callsOnly P m → (∀ x, callsOnly P (k x)) → callsOnly P (bind m k).
Proof.
  intros Hm Hk s s' r. unfold bind.
  destruct (m s) as [s1 [x|e]] eqn:Hms.
  - intros Hks. destruct (Hm _ _ _ Hms) as (n1 & E1 & H1).
    destruct (Hk _ _ _ _ Hks) as (n2 & E2 & H2).
    exists (n1 ++ n2). split; [by rewrite E2, E1, app_assoc|by apply Forall_app].
  - intros [= <- <-]. by eapply Hm.
Qed.

Lemma callsOnly_wrapM {A} P pre (m : M A) :
  callsOnly P m → callsOnly P (wrapM pre m).
Proof.
  intros Hm s s' r. unfold wrapM.
  destruct (m s) as [s1 [x|e]] eqn:Hms; intros [= <- _]; by eapply Hm.
Qed.

Lemma callsOnly_deferRemoveAll {A} (P : Call → Prop) path (m : M A) :
  P (CallRemoveAll path) → callsOnly P m →
  callsOnly P (deferRemoveAll path m).
Proof.
  intros Hp Hm s s' r. unfold deferRemoveAll.
  destruct (m s) as [s1 r1] eqn:Hms. intros [= <- _]. simpl.
  destruct (Hm _ _ _ Hms) as (n1 & E1 & H1).
  exists (n1 ++ [CallRemoveAll path]).
  split; [by rewrite E1, app_assoc|].
  apply Forall_app. split; [done|by constructor].
Qed.

Lemma callsOnly_addPackage P pre sub p : callsOnly P (addPackage w pre sub p).
Proof.
  unfold addPackage.
  destruct (AddPackageErr w p sub); [apply callsOnly_fail|apply callsOnly_ret].
Qed.

Lemma callsOnly_addOSPackages P entries pkg :
  callsOnly P (addOSPackages w entries pkg).
Proof.
  revert pkg. induction entries as [|entry entries IH]; intros pkg; simpl.
  - apply callsOnly_ret.
  - apply callsOnly_bind; [apply callsOnly_addPackage|intros p; apply IH].
Qed.

(** Without [AddFiles], [PackageFromTarball] makes no call: the package is
    a new one with the work directory and the source file set. *)
Lemma PackageFromTarball_without_files opts tarOpts tarFile s :
  SPDX.AddFiles tarOpts = false →
  PackageFromTarball w opts tarOpts tarFile s
  = (s, match ReadSourceFile w
                (SPDX.setWorkDir (SPDX.ExtractDir tarOpts) SPDX.NewPackage)
                tarFile with
        | (_, Some e) =>
            Err (wrapError ("reading source file " +:+ tarFile +:+ ": ") e)
        | (pkg, None) => Ok pkg
        end).
Proof.
  intros Hadd. unfold PackageFromTarball. rewrite Hadd.
  by destruct (ReadSourceFile w _ tarFile) as [pkg [e|]].
Qed.

Lemma callsOnly_PackageFromTarball_without_files P opts tarOpts tarFile :
  SPDX.AddFiles tarOpts = false →
  callsOnly P (PackageFromTarball w opts tarOpts tarFile).
Proof.
  intros Hadd s s' r. rewrite PackageFromTarball_without_files by done.
  intros [= <- _]. exists []. by rewrite app_nil_r.
Qed.

Lemma callsOnly_addLayers_AnalyzeLayers (P : Call → Prop) opts tarOpts repoTag
    layerNum osData i layerFiles imagePackage :
  (∀ p, P (CallAnalyzeImageLayer p)) →
  SPDX.AddFiles tarOpts = false →
  callsOnly P (addLayers w opts tarOpts repoTag layerNum osData i layerFiles
                 imagePackage).
Proof.
  intros HP Hadd. revert i imagePackage.
  induction layerFiles as [|layerFile layerFiles IH]; intros i imagePackage;
    simpl.
  - apply callsOnly_ret.
  - apply callsOnly_bind; [|intros pkg].
    { by apply callsOnly_wrapM, callsOnly_PackageFromTarball_without_files. }
    apply callsOnly_bind; [|intros pkg1].
    { destruct (SPDX.AnalyzeLayers opts); [|apply callsOnly_ret].
      apply callsOnly_bind; [by apply callsOnly_call|intros _].
      destruct (AnalyzeLayer w _ _) as [p [e|]];
        [apply callsOnly_fail|apply callsOnly_ret]. }
    apply callsOnly_bind; [|intros pkg2].
    { destruct osData; [|apply callsOnly_ret].
      destruct (i =? layerNum);
        [apply callsOnly_addOSPackages|apply callsOnly_ret]. }
    apply callsOnly_bind; [apply callsOnly_addPackage|intros p; apply IH].
Qed.

(** *** The package [PackageFromImageTarball] returns *)

Lemma addLayers_sameLinks opts tarOpts repoTag layerNum osData i layerFiles
    imagePackage s s' p :
  addLayers w opts tarOpts repoTag layerNum osData i layerFiles imagePackage s
  = (s', Ok p) →
  sameLinks imagePackage p.
Proof.
  revert i imagePackage s.
  induction layerFiles as [|layerFile layerFiles IH];
    intros i imagePackage s; simpl.
  - by intros [= _ <-].
  - intros Hrun.
    apply bind_Ok in Hrun as (s1 & pkg & _ & Hrun).
    apply bind_Ok in Hrun as (s2 & pkg1 & _ & Hrun).
    apply bind_Ok in Hrun as (s3 & pkg2 & _ & Hrun).
    apply bind_Ok in Hrun as (s4 & img & Hadd & Hrun).
    apply IH in Hrun as [Hrel Hext].
    unfold addPackage in Hadd.
    destruct (AddPackageErr w imagePackage pkg2); [discriminate|].
    injection Hadd as _ <-. done.
Qed.

Lemma PackageFromImageTarball_links opts tarPath s s' p :
  PackageFromImageTarball w opts tarPath s = (s', Ok p) →
  SPDX.Relationships p = [] ∧ SPDX.ExternalRefs p = [].
Proof.
  unfold PackageFromImageTarball.
  destruct (String.eqb tarPath ""); [discriminate|]. intros Hrun.
  apply bind_Ok in Hrun as (s1 & _ & _ & Hrun).
  destruct (ExtractTarballTmp w tarPath) as [dir [e|]]; [discriminate|].
  apply deferRemoveAll_Ok in Hrun as (s2 & Hrun & _).
  apply bind_Ok in Hrun as (s3 & manifest & _ & Hrun).
  destruct (RepoTags manifest) as [|repoTag tags]; [discriminate|].
  destruct (String.eqb repoTag ""); [discriminate|].
  apply bind_Ok in Hrun as (s4 & scan & _ & Hrun).
  by apply addLayers_sameLinks in Hrun.
Qed.

(** *** The loop over the images of an index *)

Lemma addContains_Relationships p subs :
  SPDX.Relationships (addContains p subs)
  = SPDX.Relationships p ++ (SPDX.containsRel <$> subs).
Proof.
  revert p. induction subs as [|c subs IH]; intros p; simpl.
  - by rewrite app_nil_r.
  - unfold addContains in *. simpl. rewrite IH. simpl.
    by rewrite <- app_assoc.
Qed.

Lemma alter_snoc {A} (f : A → A) (l : list A) (x : A) (n : nat) :
  n = length l → alter f n (l ++ [x]) = l ++ [f x].
Proof.
  intros ->. replace (length l) with (length l + 0)%nat by lia.
  by rewrite alter_app_r.
Qed.

Lemma bind_alloc {B} p (k : nat → M B) s :
  bind (alloc p) k s
  = k (length (store s)) {| store := store s ++ [p]; calls := calls s |}.
Proof. reflexivity. Qed.

Lemma bind_update {B} a f (k : unit → M B) s :
  bind (update a f) k s
  = k tt {| store := alter f a (store s); calls := calls s |}.
Proof. reflexivity. Qed.

(** What the loop leaves in the store: the package of the index holds one
    more [CONTAINS] relationship per image, in order, and the package of
    the image number [k] stands at the address [length (store s) + k]. *)
Lemma addVariants_Ok opts ref r images s s' p :
  addVariants w opts ref r images s = (s', Ok tt) →
  store s !! r = Some p →
  length (store s') = (length (store s) + length images)%nat ∧
  (∀ a, (a < length (store s))%nat → a ≠ r → store s' !! a = store s !! a) ∧
  store s' !! r
  = Some (addContains p (seq (length (store s)) (length images))) ∧
  (∀ k img, images !! k = Some img →
     ∃ sub, store s' !! (length (store s) + k)%nat = Some sub ∧
       SPDX.Relationships sub = [SPDX.variantOfRel r] ∧
       SPDX.ExternalRefs sub
       = SPDX.ExternalRefs (attachPurl (purlFromImage w img) SPDX.zeroPackage) ∧
       SPDX.Name sub = variantName ref img).
Proof.
  revert s p. induction images as [|img images IH]; intros s p Hrun Hr.
  - injection Hrun as <-. simpl. rewrite Nat.add_0_r.
    repeat split; [done..|]. intros k img' Hk. done.
  - simpl in Hrun.
    apply bind_Ok in Hrun as (s1 & built & Hbuilt & Hrun).
    apply wrapM_Ok in Hbuilt.
    pose proof (keepsStore_PackageFromImageTarball _ _ _ _ _ Hbuilt) as Hs1.
    apply PackageFromImageTarball_links in Hbuilt as [Hrel Hext].
    rewrite bind_alloc, !bind_update in Hrun. simpl in Hrun.
    rewrite Hs1 in Hrun.
    set (L := length (store s)) in *.
    assert (r < L)%nat as HrL by (by eapply lookup_lt_Some).
    set (sub0 := SPDX.AddRelationship (SPDX.variantOfRel r)
                   (attachPurl (purlFromImage w img)
                      (SPDX.setName (variantName ref img) built))).
    assert (alter (SPDX.AddRelationship (SPDX.variantOfRel r)) L
              (alter (SPDX.AddRelationship (SPDX.containsRel L)) r
                 (alter (attachPurl (purlFromImage w img)) L
                    (alter (SPDX.setName (variantName ref img)) L
                       (store s ++ [built]))))
            = alter (SPDX.AddRelationship (SPDX.containsRel L)) r (store s)
              ++ [sub0]) as Hstore.
    { unfold L. rewrite !(alter_snoc _ _ _ _ eq_refl).
      rewrite alter_app_l by done.
      by rewrite alter_snoc by (by rewrite length_alter). }
    rewrite Hstore in Hrun. clear Hstore.
    match type of Hrun with
    | addVariants _ _ _ _ _ ?st = _ => set (s3 := st) in *
    end.
    assert (length (store s3) = S L) as Hlen3.
    { simpl. rewrite length_app, length_alter. simpl. lia. }
    assert (store s3 !! r
            = Some (SPDX.AddRelationship (SPDX.containsRel L) p)) as Hr3.
    { simpl. rewrite lookup_app_l by (rewrite length_alter; lia).
      rewrite list_lookup_alter_eq, Hr. done. }
    destruct (IH s3 _ Hrun Hr3) as (Hlen & Hother & Hroot & Hsubs).
    rewrite Hlen3 in Hlen, Hother, Hroot, Hsubs.
    assert (store s3 !! L = Some sub0) as HL3.
    { simpl. rewrite lookup_app_r by (rewrite length_alter; lia).
      rewrite length_alter. by rewrite Nat.sub_diag. }
    split; [simpl; lia|]. split; [|split].
    + intros a Ha Hne. rewrite Hother by lia. simpl.
      rewrite lookup_app_l by (rewrite length_alter; lia).
      by rewrite list_lookup_alter_ne.
    + rewrite Hroot. done.
    + intros [|k] img' Hk.
      * injection Hk as <-. rewrite Nat.add_0_r.
        rewrite Hother by lia. exists sub0. split; [done|].
        unfold sub0, attachPurl.
        destruct (negb (String.eqb (purlFromImage w img) "")); simpl;
          rewrite ?Hrel, ?Hext; done.
      * simpl in Hk. destruct (Hsubs k img' Hk) as (sub & Hsub & Hfacts).
        exists sub. split; [|done].
        by replace (L + S k)%nat with (S L + k)%nat by lia.
Qed.

Lemma attachPurl_Relationships url p :
  SPDX.Relationships (attachPurl url p) = SPDX.Relationships p.
Proof. unfold attachPurl. by destruct (negb _). Qed.

(** *** The package of a multi-arch index *)

(** The graph [ImageRefToPackage] leaves for an index: the address of the
    package of the index is the first free one, its relationships are one
    [CONTAINS] per image, in order, and the package of the image number [k]
    stands [k] addresses after the one that follows the index. *)
Lemma ImageRefToPackage_index opts ref tmpdir s s1 s' references root :
  MkdirTemp w = (tmpdir, None) →
  PullImagesToArchive w ref tmpdir s = (s1, Ok references) →
  Images references ≠ [] →
  ImageRefToPackage w ref opts s = (s', Ok root) →
  root = length (store s) ∧
  ∃ rootPkg, store s' !! root = Some rootPkg ∧
    SPDX.Relationships rootPkg
    = SPDX.containsRel <$> seq (S root) (length (Images references)) ∧
    ∀ k img, Images references !! k = Some img →
      ∃ sub, store s' !! (S root + k)%nat = Some sub ∧
        SPDX.Relationships sub = [SPDX.variantOfRel root] ∧
        SPDX.ExternalRefs sub
        = SPDX.ExternalRefs
            (attachPurl (purlFromImage w img) SPDX.zeroPackage) ∧
        SPDX.Name sub = variantName ref img.
Proof.
  intros Hmk Hpull Himages. unfold ImageRefToPackage. rewrite Hmk.
  intros Hrun.
  apply deferRemoveAll_Ok in Hrun as (s2 & Hrun & Hs').
  apply bind_Ok in Hrun as (s3 & refs & Hpull' & Hrun).
  apply wrapM_Ok in Hpull'. rewrite Hpull in Hpull'.
  injection Hpull' as <- <-.
  pose proof (keepsStore_PullImagesToArchive _ _ _ _ _ Hpull) as Hs1.
  destruct (length (Images references) =? 0)%nat eqn:Hlen.
  { apply Nat.eqb_eq in Hlen. by destruct (Images references). }
  clear Hlen. rewrite bind_alloc in Hrun.
  apply bind_Ok in Hrun as (s4 & indexDigest & Hdig & Hrun).
  apply wrapping_Ok in Hdig as [_ ->].
  rewrite !bind_update in Hrun. simpl in Hrun.
  set (L := length (store s1)) in *.
  set (named := λ p : SPDX.Package,
         buildID w [SPDX.Name (SPDX.setName (DigestStr indexDigest) p)]
           (SPDX.setName (DigestStr indexDigest) p)).
  assert (∃ root0 sA,
            SPDX.Relationships root0 = [] ∧
            store sA = store s1 ++ [root0] ∧
            bind (addVariants w opts ref L (Images references))
              (λ _, bind (update L
                            (attachPurl
                               (purlFromImage w
                                  (mkImageReferenceInfo "" ref "" "" "" "" []))))
                      (λ _, ret L)) sA = (s2, Ok root))
    as (root0 & sA & Hrel0 & HsA & Hrun').
  { destruct (negb (String.eqb (Digest references) "")).
    - rewrite bind_update in Hrun. simpl in Hrun.
      eexists _, _. split; [|split; [|exact Hrun]]; simpl.
      2:{ unfold L. by rewrite !(alter_snoc _ _ _ _ eq_refl). }
      done.
    - eexists _, _. split; [|split; [|exact Hrun]]; simpl.
      2:{ unfold L. by rewrite !(alter_snoc _ _ _ _ eq_refl). }
      done. }
  clear Hrun.
  apply bind_Ok in Hrun' as (sB & [] & Hloop & Hrun).
  rewrite bind_update in Hrun. injection Hrun as <- <-.
  assert (store sA !! L = Some root0) as HrootA.
  { rewrite HsA, lookup_app_r by (unfold L; lia).
    unfold L. by rewrite Nat.sub_diag. }
  destruct (addVariants_Ok _ _ _ _ _ _ _ Hloop HrootA)
    as (HlenB & _ & HrootB & Hsubs).
  assert (length (store sA) = S L) as HlenA.
  { rewrite HsA, length_app. simpl. unfold L. lia. }
  rewrite HlenA in HlenB, HrootB, Hsubs.
  split; [by rewrite <- Hs1|].
  rewrite Hs'. simpl.
  eexists. split; [by rewrite list_lookup_alter_eq, HrootB|].
  split.
  - by rewrite attachPurl_Relationships, addContains_Relationships, Hrel0.
  - intros k img Hk. destruct (Hsubs k img Hk) as (sub & Hsub & Hfacts).
    exists sub. split; [|done].
    by rewrite list_lookup_alter_ne by lia.
Qed.

(** *** The images [PullImagesToArchive] returns *)

Lemma indexImages_Reference registry repository manifests images s s' out :
  indexImages registry repository manifests images s = (s', Ok out) →
  Forall (λ img, Reference_ img = "") images →
  Forall (λ img, Reference_ img = "") out.
Proof.
  revert images s. induction manifests as [|m ms IH]; intros images s; simpl.
  - by intros [= _ <-].
  - intros Hrun Himages.
    apply bind_Ok in Hrun as (s1 & d & _ & Hrun).
    destruct (mdPlatform m); eapply IH; try exact Hrun;
      (apply Forall_app; split; [done|by repeat constructor]).
Qed.

Lemma getImageReferences_Reference referenceString s s' references :
  getImageReferences w referenceString s = (s', Ok references) →
  Forall (λ img, Reference_ img = "") (Images references).
Proof.
  unfold getImageReferences. intros Hrun.
  apply bind_Ok in Hrun as (s1 & ref & _ & Hrun).
  apply bind_Ok in Hrun as (s2 & descr & _ & Hrun).
  destruct (negb _ && negb _); [discriminate|].
  destruct (descIsImage descr).
  - apply bind_Ok in Hrun as (s3 & im & _ & Hrun).
    apply bind_Ok in Hrun as (s4 & imageDigest & _ & Hrun).
    apply bind_Ok in Hrun as (s5 & dig & _ & Hrun).
    injection Hrun as _ <-.
    destruct (imgConfigFile im), (imgMediaType im); constructor.
  - apply bind_Ok in Hrun as (s3 & index & _ & Hrun).
    apply bind_Ok in Hrun as (s4 & indexManifest & _ & Hrun).
    apply bind_Ok in Hrun as (s5 & children & Hchildren & Hrun).
    injection Hrun as _ <-. simpl.
    eapply indexImages_Reference; [exact Hchildren|constructor].
Qed.

(** The tasks finish in some order: what they return is what they were
    started with. *)
Lemma completionOrder_elem_of {A} sched (running : list A) x :
  x ∈ completionOrder sched running → x ∈ running.
Proof.
  revert running. induction sched as [|k sched IH]; intros running; simpl;
    [done|].
  destruct (running !! (k mod length running)%nat) as [y|] eqn:Hy; [|done].
  intros [->|Hx]%elem_of_cons.
  - by eapply list_elem_of_lookup_2.
  - apply IH in Hx. by eapply list_elem_of_delete_inv.
Qed.

Lemma completionOrder_length {A} sched (running : list A) :
  length (completionOrder sched running) = length running.
Proof.
  revert running. induction sched as [|k sched IH]; intros running; simpl;
    [done|].
  destruct (running !! (k mod length running)%nat) as [y|] eqn:Hy; [|done].
  simpl. rewrite IH, length_delete by eauto.
  apply lookup_lt_Some in Hy. lia.
Qed.

Lemma pullImage_Reference path r r' :
  pullImage w path r = Ok r' → Reference_ r' = Reference_ r.
Proof.
  unfold pullImage. destruct (ParseReference (Digest r)); [|discriminate].
  destruct (negb (isDigest v)); [discriminate|].
  destruct (length _ <? 2)%nat; [discriminate|].
  destruct (remoteImage w v); [discriminate|].
  destruct (MultiWriteToFile w _ _); [discriminate|].
  by intros [= <-].
Qed.

Lemma taskResults_elem_of {A} (rs : list (result A)) x :
  x ∈ taskResults rs → Ok x ∈ rs.
Proof.
  unfold taskResults. rewrite list_elem_of_omap.
  intros ([v|e] & Hin & Hx); simplify_eq. done.
Qed.

(** No child that [PullImagesToArchive] returns carries a reference:
    neither the resolver nor the fetcher sets the field. *)
Lemma PullImagesToArchive_Reference referenceString path s s' references :
  PullImagesToArchive w referenceString path s = (s', Ok references) →
  Forall (λ img, Reference_ img = "") (Images references).
Proof.
  unfold PullImagesToArchive. intros Hrun.
  apply bind_Ok in Hrun as (s1 & refs & Hrefs & Hrun).
  apply getImageReferences_Reference in Hrefs.
  apply bind_Ok in Hrun as (s2 & _ & _ & Hrun).
  destruct (taskErrors _); [|discriminate].
  injection Hrun as _ <-. simpl.
  apply Forall_forall. intros img Himg.
  apply taskResults_elem_of, completionOrder_elem_of in Himg.
  apply list_elem_of_fmap in Himg as (r & Hr & Hin).
  symmetry in Hr. apply pullImage_Reference in Hr. rewrite Hr.
  by eapply Forall_forall in Hrefs.
Qed.

(** An image without a reference gets no package URL when the registry
    library rejects the empty reference. *)
Lemma purlFromImage_no_Reference img e :
  ParseReference "" = Err e → Reference_ img = "" → purlFromImage w img = "".
Proof.
  intros Hparse Href. unfold purlFromImage, purlOfImage.
  by rewrite Href, Hparse.
Qed.

End ImageProperties.

(** C7.  For an index with [n] child images that [ImageRefToPackage]
    turns into a package, the relationships of the package of the index
    are exactly [n] relationships of type [CONTAINS] with the full-render
    flag set, one to the package of each child, in order; and among the
    relationships of the package of each child exactly one has the type
    [VARIANT_OF], and its peer is the package of the index. *)
Theorem ImageRefToPackage_index_relationships `{R : Image.Registry}
    (w : Image.World) (opts : SPDX.Options) (ref tmpdir : string)
    (s s1 s' : Image.State) (references : Image.ImageReferenceInfo)
    (root : nat) :
  Image.MkdirTemp w = (tmpdir, None) →
  Image.PullImagesToArchive w ref tmpdir s = (s1, Ok references) →
  Image.Images references ≠ [] →
  Image.ImageRefToPackage w ref opts s = (s', Ok root) →
  ∃ (rootPkg : SPDX.Package) (subs : list nat),
    Image.store s' !! root = Some rootPkg ∧
    NoDup (root :: subs) ∧
    SPDX.Relationships rootPkg = SPDX.containsRel <$> subs ∧
    length (Image.relationshipsOfType SPDX.CONTAINS rootPkg)
    = length (Image.Images references) ∧
    Forall (λ r, SPDX.Type_ r = SPDX.CONTAINS ∧ SPDX.FullRender r = true)
      (SPDX.Relationships rootPkg) ∧
    Forall2
      (λ sub img, ∃ subPkg,
         Image.store s' !! sub = Some subPkg ∧
         SPDX.Name subPkg = Image.variantName ref img ∧
         Image.relationshipsOfType SPDX.VARIANT_OF subPkg
         = [SPDX.variantOfRel root])
      subs (Image.Images references).
Proof.
  intros Hmk Hpull Himages Hrun.
  destruct (ImageRefToPackage_index w opts ref tmpdir s s1 s' references root
              Hmk Hpull Himages Hrun)
    as (Hroot & rootPkg & Hlookup & Hrels & Hsubs).
  set (n := length (Image.Images references)) in *.
  exists rootPkg, (seq (S root) n).
  split; [done|]. split.
  { apply NoDup_cons. split; [|apply NoDup_seq].
    rewrite elem_of_seq. lia. }
  split; [done|]. split.
  { unfold Image.relationshipsOfType. rewrite Hrels.
    clear. generalize (S root). induction n as [|n IH]; intros k; simpl;
      [done|]. by rewrite IH. }
  split.
  { rewrite Hrels. apply Forall_fmap, Forall_forall. by intros k _. }
  apply Forall2_same_length_lookup. split; [by rewrite length_seq|].
  intros k sub img Hsub Himg.
  apply lookup_seq in Hsub as [-> _].
  destruct (Hsubs k img Himg) as (subPkg & Hsub & Hrel & _ & Hname).
  exists subPkg. split; [done|]. split; [done|].
  unfold Image.relationshipsOfType. by rewrite Hrel.
Qed.

Lemma ImageRefToPackage_index_relationships_witness :
  ∃ (rootPkg : SPDX.Package) (subs : list nat),
    Image.store ImageSamples.indexRun.1 !! 0%nat = Some rootPkg ∧
    NoDup (0%nat :: subs) ∧
    SPDX.Relationships rootPkg = SPDX.containsRel <$> subs ∧
    length (Image.relationshipsOfType SPDX.CONTAINS rootPkg) = 2%nat ∧
    Forall (λ r, SPDX.Type_ r = SPDX.CONTAINS ∧ SPDX.FullRender r = true)
      (SPDX.Relationships rootPkg) ∧
    Forall2
      (λ sub img, ∃ subPkg,
         Image.store ImageSamples.indexRun.1 !! sub = Some subPkg ∧
         SPDX.Name subPkg = Image.variantName "reg.io/app:v1" img ∧
         Image.relationshipsOfType SPDX.VARIANT_OF subPkg
         = [SPDX.variantOfRel 0])
      subs (Image.Images ImageSamples.pulledIndex).
Proof.
  apply (ImageRefToPackage_index_relationships
           (R := ImageSamples.sampleRegistry) ImageSamples.indexWorld
           ImageSamples.analyzeOptions "reg.io/app:v1" "/tmp/doc-build-1"
           ImageSamples.emptyState ImageSamples.emptyState
           ImageSamples.indexRun.1 ImageSamples.pulledIndex 0%nat).
  - reflexivity.
  - vm_compute. reflexivity.
  - discriminate.
  - vm_compute. reflexivity.
Defined.

(** The qualifiers [purlFromImage] gives to a package URL it builds: the
    architecture and the OS of the image, where they are not empty. *)
Lemma purlOfImage_qualifiers `{R : Image.Registry} (w : Image.World)
    (img : Image.ImageReferenceInfo) (packageurl : Image.PackageURL) :
  Image.purlOfImage w img = Some packageurl →
  Image.purlQualifiers packageurl !! "arch"
  = (if String.eqb (Image.Arch img) "" then None else Some (Image.Arch img)) ∧
  Image.purlQualifiers packageurl !! "os"
  = (if String.eqb (Image.OS_ img) "" then None else Some (Image.OS_ img)).
Proof.
  unfold Image.purlOfImage.
  destruct (Image.ParseReference (Image.Reference_ img)) as [ref|];
    [|discriminate].
  match goal with
  | |- match ?d with _ => _ end = _ → _ => destruct d as [digest|]
  end; [|discriminate].
  destruct (length _ <? 2)%nat; [discriminate|].
  intros [= <-]. unfold Image.purlQualifiersOf. simpl.
  destruct (String.eqb (Image.Arch img) ""),
    (String.eqb (Image.OS_ img) ""), (Image.isTag ref),
    (String.eqb (Image.MediaType img) ""); simpl;
    by simplify_map_eq.
Qed.

(** C6, the defect.  When the registry library rejects the empty
    reference, no package of a child image of an index carries an external
    reference: [purlFromImage] reads the field [Reference] of the child,
    which neither the resolver nor the fetcher sets, and returns the empty
    string. *)
Theorem ImageRefToPackage_variants_carry_no_purl `{R : Image.Registry}
    (w : Image.World) (opts : SPDX.Options) (ref tmpdir : string)
    (s s1 s' : Image.State) (references : Image.ImageReferenceInfo)
    (root : nat) (e : error) :
  Image.ParseReference "" = Err e →
  Image.MkdirTemp w = (tmpdir, None) →
  Image.PullImagesToArchive w ref tmpdir s = (s1, Ok references) →
  Image.Images references ≠ [] →
  Image.ImageRefToPackage w ref opts s = (s', Ok root) →
  Forall (λ img, Image.purlFromImage w img = "") (Image.Images references) ∧
  ∃ rootPkg,
    Image.store s' !! root = Some rootPkg ∧
    length (SPDX.Relationships rootPkg) = length (Image.Images references) ∧
    Forall
      (λ r, ∃ subPkg,
         Image.store s' !! SPDX.Peer r = Some subPkg ∧
         SPDX.ExternalRefs subPkg = [])
      (SPDX.Relationships rootPkg).
Proof.
  intros Hparse Hmk Hpull Himages Hrun.
  pose proof (PullImagesToArchive_Reference w _ _ _ _ _ Hpull) as Hrefs.
  assert (Forall (λ img, Image.purlFromImage w img = "")
            (Image.Images references)) as Hpurls.
  { eapply Forall_impl; [exact Hrefs|]. intros img Himg. simpl in Himg.
    by eapply purlFromImage_no_Reference. }
  split; [done|].
  destruct (ImageRefToPackage_index w opts ref tmpdir s s1 s' references root
              Hmk Hpull Himages Hrun)
    as (Hroot & rootPkg & Hlookup & Hrels & Hsubs).
  exists rootPkg. split; [done|]. rewrite Hrels.
  split; [by rewrite length_fmap, length_seq|].
  apply Forall_fmap, Forall_forall. intros a Ha. simpl.
  apply elem_of_seq in Ha.
  destruct (lookup_lt_is_Some_2 (Image.Images references) (a - S root))
    as [img Himg]; [lia|].
  destruct (Hsubs _ img Himg) as (subPkg & Hsub & _ & Hext & _).
  replace (S root + (a - S root))%nat with a in Hsub by lia.
  exists subPkg. split; [done|]. rewrite Hext.
  eapply Forall_lookup_1 in Hpurls; [|exact Himg]. simpl in Hpurls.
  by rewrite Hpurls.
Qed.

Lemma ImageRefToPackage_variants_carry_no_purl_witness :
  Forall (λ img, Image.purlFromImage ImageSamples.indexWorld img = "")
    (Image.Images ImageSamples.pulledIndex) ∧
  ∃ rootPkg,
    Image.store ImageSamples.indexRun.1 !! 0%nat = Some rootPkg ∧
    length (SPDX.Relationships rootPkg) = 2%nat ∧
    Forall
      (λ r, ∃ subPkg,
         Image.store ImageSamples.indexRun.1 !! SPDX.Peer r = Some subPkg ∧
         SPDX.ExternalRefs subPkg = [])
      (SPDX.Relationships rootPkg).
Proof.
  apply (ImageRefToPackage_variants_carry_no_purl
           (R := ImageSamples.sampleRegistry) ImageSamples.indexWorld
           ImageSamples.analyzeOptions "reg.io/app:v1" "/tmp/doc-build-1"
           ImageSamples.emptyState ImageSamples.emptyState
           ImageSamples.indexRun.1 ImageSamples.pulledIndex 0%nat
           (errorString "empty repository")).
  - vm_compute. reflexivity.
  - reflexivity.
  - vm_compute. reflexivity.
  - discriminate.
  - vm_compute. reflexivity.
Defined.

(** C10.  The options [PackageFromImageTarball] builds for its layers have
    [AddFiles] set exactly when [AddTarFiles] is set and [AnalyzeLayers] is
    not; and with [AnalyzeLayers] set, apart from the extraction of the
    image archive itself with which a run starts, the run extracts no
    archive and scans no extracted directory, so that no layer is expanded
    into files, whatever [AddTarFiles] is. *)
Theorem PackageFromImageTarball_AnalyzeLayers_keeps_layers_closed
    `{R : Image.Registry} (w : Image.World) (spdxOpts : SPDX.Options)
    (tarPath : string) (s s' : Image.State) (r : result SPDX.Package) :
  Image.PackageFromImageTarball w spdxOpts tarPath s = (s', r) →
  (SPDX.AddFiles (Image.layerTarballOptions spdxOpts) = true
   ↔ SPDX.AddTarFiles spdxOpts = true ∧ SPDX.AnalyzeLayers spdxOpts = false) ∧
  (SPDX.AnalyzeLayers spdxOpts = true →
   ∃ rest,
     Image.calls s'
     = Image.calls s ++
       (if String.eqb tarPath "" then []
        else Image.CallExtractTarballTmp tarPath :: rest) ∧
     Forall (λ c, ¬ Image.expandsArchive c) rest).
Proof.
  intros Hrun. split.
  { unfold Image.layerTarballOptions. simpl.
    rewrite andb_true_iff, negb_true_iff. done. }
  intros Hanalyze.
  assert (SPDX.AddFiles (Image.layerTarballOptions spdxOpts) = false) as Hadd.
  { unfold Image.layerTarballOptions. simpl. rewrite Hanalyze.
    apply andb_false_r. }
  unfold Image.PackageFromImageTarball in Hrun.
  destruct (String.eqb tarPath "").
  { injection Hrun as <- _. exists []. by rewrite app_nil_r. }
  set (P := λ c, ¬ Image.expandsArchive c).
  match type of Hrun with
  | Image.bind (Image.call ?c) ?k s = _ =>
      assert (Image.callsOnly P (k tt)) as Hrest
  end.
  { destruct (Image.ExtractTarballTmp w tarPath) as [dir [e|]];
      [apply callsOnly_fail|].
    apply callsOnly_deferRemoveAll; [unfold P; simpl; tauto|].
    apply callsOnly_bind; [apply callsOnly_wrapping|intros manifest].
    destruct (Image.RepoTags manifest) as [|repoTag tags];
      [apply callsOnly_fail|].
    destruct (String.eqb repoTag ""); [apply callsOnly_fail|].
    apply callsOnly_bind; [|intros scan].
    { destruct (SPDX.ScanImages spdxOpts); [|apply callsOnly_ret].
      apply callsOnly_bind; [|intros _; apply callsOnly_wrapping].
      apply callsOnly_call. unfold P. simpl. tauto. }
    apply callsOnly_addLayers_AnalyzeLayers; [|done].
    intros p. unfold P. simpl. tauto. }
  unfold Image.bind at 1 in Hrun. simpl in Hrun.
  apply Hrest in Hrun as (rest & Hcalls & Hforall). simpl in Hcalls.
  exists rest. split; [|done]. by rewrite Hcalls, <- app_assoc.
Qed.

Lemma PackageFromImageTarball_AnalyzeLayers_keeps_layers_closed_witness :
  (SPDX.AddFiles (Image.layerTarballOptions ImageSamples.analyzeOptions) = true
   ↔ SPDX.AddTarFiles ImageSamples.analyzeOptions = true
     ∧ SPDX.AnalyzeLayers ImageSamples.analyzeOptions = false) ∧
  ∃ rest,
    Image.calls
      (Image.PackageFromImageTarball ImageSamples.indexWorld
         ImageSamples.analyzeOptions "image.tar" ImageSamples.emptyState).1
    = [] ++ Image.CallExtractTarballTmp "image.tar" :: rest ∧
    Forall (λ c, ¬ Image.expandsArchive c) rest.
Proof.
  destruct (PackageFromImageTarball_AnalyzeLayers_keeps_layers_closed
              (R := ImageSamples.sampleRegistry) ImageSamples.indexWorld
              ImageSamples.analyzeOptions "image.tar" ImageSamples.emptyState
              (Image.PackageFromImageTarball ImageSamples.indexWorld
                 ImageSamples.analyzeOptions "image.tar"
                 ImageSamples.emptyState).1
              (Image.PackageFromImageTarball ImageSamples.indexWorld
                 ImageSamples.analyzeOptions "image.tar"
                 ImageSamples.emptyState).2)
    as [Hflag Hcalls].
  - by destruct (Image.PackageFromImageTarball _ _ _ _).
  - split; [exact Hflag|]. apply Hcalls. reflexivity.
Defined.

(** * Further properties

    Properties of the code beyond the claims above: what the tar engine
    leaves on disk, what the scanner lists and filters, what the resolver,
    the fetcher and the assembler build, and what they clean up. *)

(** ** The tar engine: the file system after a run *)
Section TarRuns.
Import Tar.

Variable tmpDir : string.

Lemma extends_refl s : extends s s.
Proof. by split. Qed.

Lemma extends_trans s1 s2 s3 : extends s1 s2 → extends s2 s3 → extends s1 s3.
Proof.
  intros [Hd12 Hf12] [Hd23 Hf23]. split; [set_solver|]. intros p Hp. auto.
Qed.

Lemma extends_mkdir p s : extends s (mkdir p s).
Proof. split; simpl; [set_solver|done]. Qed.

Lemma extends_writeFile p b s : extends s (writeFile p b s).
Proof.
  split; simpl; [done|]. intros q Hq.
  destruct (decide (p = q)) as [->|Hne].
  - rewrite lookup_insert_eq. eauto.
  - by rewrite lookup_insert_ne.
Qed.

Lemma extends_log ev s : extends s (log ev s).
Proof. by split. Qed.

(** A turn of the loop removes nothing. *)
Lemma extractEntry_extends e st n :
  extends st (resultState (extractEntry tmpDir e st n)).
Proof.
  unfold extractEntry.
  destruct (IsDir (hdr e)); [apply extends_refl|].
  destruct (isWhiteout (hdr e)); [apply extends_log|].
  destruct (mkdirAllErr e); [apply extends_refl|].
  destruct (sanitizeExtractPath tmpDir (Name (hdr e)))
    as [target [err|]]; [apply extends_mkdir|].
  destruct (createErr e); [apply extends_mkdir|].
  destruct (CopyN (body e) (Size (hdr e))) as [written [err|]];
    [destruct (is_EOF err)|]; simpl;
    (eapply extends_trans; [apply extends_mkdir|]);
    (eapply extends_trans; [apply extends_writeFile|]);
    apply extends_writeFile.
Qed.

Lemma extractLoop_extends tarPath es next st n :
  extends st (resultState (extractLoop tmpDir tarPath es next st n)).
Proof.
  revert st n. induction es as [|e es IH]; intros st n; simpl.
  - destruct (is_EOF next); apply extends_refl.
  - pose proof (extractEntry_extends e st n) as Hext.
    destruct (extractEntry tmpDir e st n) as [st1 n1|st1 n1|st1 err];
      simpl in *; auto.
    eapply extends_trans; [exact Hext|apply IH].
Qed.

(** A file entry after which the loop goes on left its file, inside
    [tmpDir], and the directory of the file. *)
Lemma extractEntry_Continue_file e st n st1 n1 :
  extractEntry tmpDir e st n = Continue st1 n1 →
  skipped e = false →
  inside tmpDir (filepath.Join tmpDir (Name (hdr e))) = true ∧
  is_Some (files (fs st1) !! filepath.Join tmpDir (Name (hdr e))) ∧
  filepath.Join tmpDir (filepath.Dir (Name (hdr e))) ∈ dirs (fs st1).
Proof.
  unfold extractEntry, skipped. intros Hrun [Hd Hw]%orb_false_elim.
  rewrite Hd, Hw in Hrun.
  destruct (mkdirAllErr e); [done|].
  destruct (sanitizeExtractPath tmpDir (Name (hdr e)))
    as [target [err|]] eqn:Hs; [done|].
  apply sanitizeExtractPath_ok in Hs as [-> Hin].
  destruct (createErr e); [done|].
  destruct (CopyN (body e) (Size (hdr e))) as [written [err|]].
  { by destruct (is_EOF err). }
  injection Hrun as <- _. simpl. split; [done|]. split.
  - rewrite lookup_insert_eq. eauto.
  - set_solver.
Qed.

(** When the loop ends without error, every file entry before the break
    left its file and its directory. *)
Lemma extractLoop_Break_files tarPath es next st n st' n' e :
  extractLoop tmpDir tarPath es next st n = Break st' n' →
  e ∈ beforeBreak es → skipped e = false →
  inside tmpDir (filepath.Join tmpDir (Name (hdr e))) = true ∧
  is_Some (files (fs st') !! filepath.Join tmpDir (Name (hdr e))) ∧
  filepath.Join tmpDir (filepath.Dir (Name (hdr e))) ∈ dirs (fs st').
Proof.
  revert st n. induction es as [|x es IH]; intros st n; simpl.
  { intros _ Hin. by apply elem_of_nil in Hin. }
  pose proof (extractEntry_count tmpDir x st n) as Hcount.
  destruct (extractEntry tmpDir x st n) as [st1 n1|st1 n1|st1 err] eqn:Hx.
  - destruct Hcount as [_ ->]. intros Hloop Hin Hskip.
    apply elem_of_cons in Hin as [->|Hin].
    + destruct (extractEntry_Continue_file _ _ _ _ _ Hx Hskip)
        as (Hin & Hfile & Hdir).
      pose proof (extractLoop_extends tarPath es next st1 n1) as [Hd Hf].
      rewrite Hloop in Hd, Hf. simpl in Hd, Hf.
      split; [done|]. split; [by apply Hf|by apply Hd].
    + by eapply IH.
  - destruct Hcount as [_ ->]. intros _ Hin. by apply elem_of_nil in Hin.
  - done.
Qed.

(** A skipped entry leaves the view of the state as it is. *)
Lemma extractEntry_skipped e st n :
  skipped e = true →
  viewResult (extractEntry tmpDir e st n) = (view st, inl (true, n)).
Proof.
  unfold extractEntry, skipped.
  destruct (IsDir (hdr e)); simpl; [done|]. intros ->. simpl.
  unfold view, extractionLogs. simpl.
  by rewrite List.filter_app, app_nil_r.
Qed.

(** A turn of the loop sees of the state its view only. *)
Lemma extractEntry_view e st st' n :
  view st = view st' →
  viewResult (extractEntry tmpDir e st n)
  = viewResult (extractEntry tmpDir e st' n).
Proof.
  unfold view, extractionLogs. intros [= Hfs Hlogs]. unfold extractEntry.
  destruct (IsDir (hdr e)); [|destruct (isWhiteout (hdr e))];
    [| |destruct (mkdirAllErr e)];
    [| | |destruct (sanitizeExtractPath tmpDir (Name (hdr e)))
            as [target [err|]]];
    [| | | |destruct (createErr e)];
    [| | | | |destruct (CopyN (body e) (Size (hdr e))) as [written [err|]]];
    [| | | | | destruct (is_EOF err)|];
    simpl; unfold view, extractionLogs; simpl;
    rewrite ?List.filter_app, ?Hfs, ?Hlogs; done.
Qed.

Lemma extractLoop_view tarPath es next st st' n :
  view st = view st' →
  viewResult (extractLoop tmpDir tarPath es next st n)
  = viewResult
      (extractLoop tmpDir tarPath (List.filter (λ e, negb (skipped e)) es)
         next st' n).
Proof.
  revert st st' n. induction es as [|e es IH]; intros st st' n Hview; simpl.
  - destruct (is_EOF next); simpl; by rewrite Hview.
  - destruct (skipped e) eqn:Hskip; simpl.
    + pose proof (extractEntry_skipped e st n Hskip) as He.
      destruct (extractEntry tmpDir e st n) as [st1 n1|st1 n1|st1 err];
        simpl in He; try done.
      injection He as Hfs Hlogs <-. apply IH.
      etrans; [|exact Hview]. unfold view. by rewrite Hfs, Hlogs.
    + pose proof (extractEntry_view e st st' n Hview) as He.
      destruct (extractEntry tmpDir e st n) as [st1 n1|st1 n1|st1 err],
        (extractEntry tmpDir e st' n) as [st2 n2|st2 n2|st2 err2];
        simpl in He; try done.
      injection He as Hfs Hlogs <-. apply IH.
      unfold view. by rewrite Hfs, Hlogs.
Qed.

(** The error with which a turn of the loop returns. *)
Lemma extractEntry_Return e st n st1 err :
  extractEntry tmpDir e st n = Return st1 err →
  skipped e = false ∧
  ((∃ e0, mkdirAllErr e = Some e0 ∧
          err = wrapError "creating image directory structure: " e0) ∨
   (inside tmpDir (filepath.Join tmpDir (Name (hdr e))) = false ∧
    err = errorString (Name (hdr e) +:+ ": illegal file path")) ∨
   (∃ e0, createErr e = Some e0 ∧
          err = wrapError "creating image layer file: " e0) ∨
   (∃ e0, copyErr e = Some e0 ∧ is_EOF e0 = false ∧
          err = wrapError "extracting image data: " e0)).
Proof.
  unfold extractEntry, skipped, copyErr.
  destruct (IsDir (hdr e)); [done|].
  destruct (isWhiteout (hdr e)); [done|].
  destruct (mkdirAllErr e) as [e0|]; [intros [= _ <-]; eauto 10|].
  unfold sanitizeExtractPath, inside.
  destruct (strings.HasPrefix _ _) eqn:Hpre; simpl;
    [|intros [= _ <-]; eauto 10].
  destruct (createErr e) as [e0|]; [intros [= _ <-]; eauto 10|].
  destruct (CopyN (body e) (Size (hdr e))) as [written [e0|]]; [|done].
  destruct (is_EOF e0) eqn:Heof; [done|]. intros [= _ <-]. simpl.
  split; [done|]. right; right; right. eauto.
Qed.

Lemma extractLoop_Return tarPath es next st n st1 err :
  extractLoop tmpDir tarPath es next st n = Return st1 err →
  (∃ e, e ∈ es ∧ ∃ st0 n0 : _, extractEntry tmpDir e st0 n0 = Return st1 err) ∨
  (is_EOF next = false ∧
   err = wrapError ("reading tarfile " +:+ tarPath +:+ ": ") next).
Proof.
  revert st n. induction es as [|x es IH]; intros st n; simpl.
  - destruct (is_EOF next); [done|]. intros [= _ <-]. by right.
  - destruct (extractEntry tmpDir x st n) as [st2 n2|st2 n2|st2 err2] eqn:Hx.
    + intros Hloop. destruct (IH _ _ Hloop) as [(e & Hin & Hret)|Hnext].
      * left. exists e. split; [by right|done].
      * by right.
    + done.
    + intros [= <- <-]. left. exists x. split; [by left|eauto].
Qed.

End TarRuns.

(** [ExtractTarballTmp] creates and changes no regular file outside the
    temp directory: whatever the archive holds and however the run ends, a
    path that does not start with [Clean(tmpDir)] and the separator names
    after the run the regular file it named before, or none as before.
    The statement is about regular files, those [os.Create] and [io.CopyN]
    write.  It does not bound the directories: [os.MkdirAll] runs before
    the name of the entry is checked, and the second part shows a run that
    leaves a directory outside the temp directory. *)
Theorem ExtractTarballTmp_files_outside_unchanged
    (w : Tar.World) (tarPath : string) (st : Tar.State) :
  Tar.unchangedOutside (Tar.mkdirTemp w).1 st
    (Tar.ExtractTarballTmp w tarPath st).1 ∧
  ∃ (w0 : Tar.World) (d : string),
    Tar.inside (Tar.mkdirTemp w0).1 d = false ∧
    (d ∉ Tar.dirs (Tar.fs Tar.emptyState)) ∧
    d ∈ Tar.dirs (Tar.fs (Tar.ExtractTarballTmp w0 tarPath Tar.emptyState).1).
Proof.
  split.
  - intros p Hp. unfold Tar.ExtractTarballTmp.
    destruct (Tar.mkdirTemp w) as [tmpDir [e|]]; simpl in *; [done|].
    destruct (Tar.openErr w); simpl; [done|].
    destruct (Tar.ReadFull3 (Tar.fileHead w)) as [sample [e|]]; simpl;
      [done|].
    destruct (Tar.seekErr w); simpl; [done|].
    destruct (if Tar.isGzip sample then Tar.gzipErr w else None); simpl;
      [done|].
    pose proof (extractLoop_outside tmpDir tarPath (Tar.entries w)
                  (Tar.nextErr w) (Tar.mkdir tmpDir st) 0 p Hp) as Hout.
    destruct (Tar.extractLoop _ _ _ _ _ _); simpl in *; by rewrite Hout.
  - exists (Tar.plainTar [Tar.fileEntry "../../etc/cron.d/job" [x68; x69]]),
      "/etc/cron.d".
    split; [reflexivity|]. split; [apply not_elem_of_empty|].
    rewrite ExtractTarballTmp_opens by reflexivity.
    apply elem_of_union_l, elem_of_singleton. reflexivity.
Qed.

(** Directories and whiteouts are inert: the run on the archive and the run
    on the archive without its directory and whiteout entries return the
    same directory and the same error, and leave the same file system and
    the same log, apart from the notes on skipped whiteouts. *)
Theorem ExtractTarballTmp_skipped_entries_inert
    (w : Tar.World) (tarPath : string) (st : Tar.State) :
  let files_only :=
    Tar.withEntries w
      (List.filter (λ e, negb (Tar.skipped e)) (Tar.entries w)) in
  (Tar.ExtractTarballTmp files_only tarPath st).2
  = (Tar.ExtractTarballTmp w tarPath st).2 ∧
  Tar.fs (Tar.ExtractTarballTmp files_only tarPath st).1
  = Tar.fs (Tar.ExtractTarballTmp w tarPath st).1 ∧
  Tar.extractionLogs (Tar.ExtractTarballTmp files_only tarPath st).1
  = Tar.extractionLogs (Tar.ExtractTarballTmp w tarPath st).1.
Proof.
  intros files_only. unfold Tar.ExtractTarballTmp, files_only. simpl.
  destruct (Tar.mkdirTemp w) as [tmpDir [e|]]; simpl; [done|].
  destruct (Tar.openErr w); simpl; [done|].
  destruct (Tar.ReadFull3 (Tar.fileHead w)) as [sample [e|]]; simpl; [done|].
  destruct (Tar.seekErr w); simpl; [done|].
  destruct (if Tar.isGzip sample then Tar.gzipErr w else None); simpl; [done|].
  pose proof (extractLoop_view tmpDir tarPath (Tar.entries w) (Tar.nextErr w)
                (Tar.mkdir tmpDir st) (Tar.mkdir tmpDir st) 0 eq_refl) as Hview.
  destruct (Tar.extractLoop tmpDir tarPath (Tar.entries w) _ _ _)
    as [st1 n1|st1 n1|st1 err1],
    (Tar.extractLoop tmpDir tarPath (List.filter _ _) _ _ _)
    as [st2 n2|st2 n2|st2 err2];
    simpl in Hview; try done;
    injection Hview as Hfs Hlogs <-; simpl;
    unfold Tar.extractionLogs in *; simpl;
    rewrite ?List.filter_app, ?Hfs, ?Hlogs; done.
Qed.

(** When [ExtractTarballTmp] returns no error, every entry, neither a
    directory nor a whiteout, that comes before the first entry whose copy
    ended with [io.EOF] has its file in the file system, at
    [Join(tmpDir, name)] below the temp directory, and the directory
    [Join(tmpDir, Dir(name))] exists, like the temp directory itself. *)
Theorem ExtractTarballTmp_success_leaves_files
    (w : Tar.World) (tarPath : string) (st st' : Tar.State) (dir : string)
    (e : Tar.Entry) :
  Tar.ExtractTarballTmp w tarPath st = (st', (dir, None)) →
  e ∈ Tar.beforeBreak (Tar.entries w) →
  Tar.skipped e = false →
  dir = (Tar.mkdirTemp w).1 ∧
  dir ∈ Tar.dirs (Tar.fs st') ∧
  Tar.inside dir (filepath.Join dir (Tar.Name (Tar.hdr e))) = true ∧
  is_Some (Tar.files (Tar.fs st')
             !! filepath.Join dir (Tar.Name (Tar.hdr e))) ∧
  filepath.Join dir (filepath.Dir (Tar.Name (Tar.hdr e)))
  ∈ Tar.dirs (Tar.fs st').
Proof.
  intros Hres Hin Hskip.
  pose proof (ExtractTarballTmp_success_opens _ _ _ _ _ Hres) as Hopen.
  rewrite ExtractTarballTmp_opens in Hres by done.
  set (tmpDir := (Tar.mkdirTemp w).1) in *.
  pose proof (extractLoop_extends tmpDir tarPath (Tar.entries w)
                (Tar.nextErr w) (Tar.mkdir tmpDir st) 0) as [Hdirs _].
  destruct (Tar.extractLoop _ _ _ _ _ _) as [st1 n1|st1 n1|st1 err] eqn:Hloop.
  - by apply extractLoop_not_Continue in Hloop.
  - injection Hres as <- <-. split; [done|]. simpl in *.
    split; [set_solver|].
    by eapply extractLoop_Break_files.
  - done.
Qed.

Lemma ExtractTarballTmp_success_leaves_files_witness :
  "/tmp/x" = (Tar.mkdirTemp
                (Tar.plainTar [Tar.fileEntry "usr/b.txt" [];
                               Tar.fileEntry "usr/a.txt" [x68; x69]])).1 ∧
  "/tmp/x"
  ∈ Tar.dirs
      (Tar.fs
         (Tar.ExtractTarballTmp
            (Tar.plainTar [Tar.fileEntry "usr/b.txt" [];
                           Tar.fileEntry "usr/a.txt" [x68; x69]])
            "layer.tar" Tar.emptyState).1) ∧
  Tar.inside "/tmp/x" (filepath.Join "/tmp/x" "usr/a.txt") = true ∧
  is_Some
    (Tar.files
       (Tar.fs
          (Tar.ExtractTarballTmp
             (Tar.plainTar [Tar.fileEntry "usr/b.txt" [];
                            Tar.fileEntry "usr/a.txt" [x68; x69]])
             "layer.tar" Tar.emptyState).1)
       !! filepath.Join "/tmp/x" "usr/a.txt") ∧
  filepath.Join "/tmp/x" (filepath.Dir "usr/a.txt")
  ∈ Tar.dirs
      (Tar.fs
         (Tar.ExtractTarballTmp
            (Tar.plainTar [Tar.fileEntry "usr/b.txt" [];
                           Tar.fileEntry "usr/a.txt" [x68; x69]])
            "layer.tar" Tar.emptyState).1).
Proof.
  apply (ExtractTarballTmp_success_leaves_files
           (Tar.plainTar [Tar.fileEntry "usr/b.txt" [];
                          Tar.fileEntry "usr/a.txt" [x68; x69]])
           "layer.tar" Tar.emptyState _ "/tmp/x"
           (Tar.fileEntry "usr/a.txt" [x68; x69])).
  - vm_compute. reflexivity.
  - change (Tar.fileEntry "usr/a.txt" [x68; x69]
            ∈ [Tar.fileEntry "usr/b.txt" []; Tar.fileEntry "usr/a.txt" [x68; x69]]).
    apply elem_of_cons. right. apply elem_of_cons. by left.
  - reflexivity.
Defined.

(** The errors of [ExtractTarballTmp], and the directory that comes with
    each.  When [os.MkdirTemp] fails the error comes wrapped with what
    [MkdirTemp] returned for the directory; when the archive cannot be
    opened, with the temp directory.  When the sampling of the first three
    bytes, the rewinding or the construction of the gzip reader fails, the
    directory returned is the empty string; the error of the gzip reader
    is not wrapped.  Every other error comes with the temp directory, and
    it is the error of the reader of the archive, other than [io.EOF],
    after the last header, or the error of one entry that is neither a
    directory nor a whiteout: its directory or its file could not be
    created, its destination is outside the temp directory, or its copy
    stopped with an error other than [io.EOF]. *)
Theorem ExtractTarballTmp_errors
    (w : Tar.World) (tarPath : string) (st st' : Tar.State) (dir : string)
    (err : error) :
  Tar.ExtractTarballTmp w tarPath st = (st', (dir, Some err)) →
  (∃ e0, (Tar.mkdirTemp w).2 = Some e0 ∧ dir = (Tar.mkdirTemp w).1 ∧
         err = wrapError "creating temporary directory for tar extraction: "
                 e0) ∨
  (∃ e0, (Tar.mkdirTemp w).2 = None ∧ Tar.openErr w = Some e0 ∧
         dir = (Tar.mkdirTemp w).1 ∧ err = wrapError "opening tarball: " e0) ∨
  ((Tar.mkdirTemp w).2 = None ∧ Tar.openErr w = None ∧ Tar.opens w = false ∧
   dir = "" ∧
   ((∃ e0, (Tar.ReadFull3 (Tar.fileHead w)).2 = Some e0 ∧
           err = wrapError "sampling bytes from file header: " e0) ∨
    (∃ e0, (Tar.ReadFull3 (Tar.fileHead w)).2 = None ∧
           Tar.seekErr w = Some e0 ∧
           err = wrapError "rewinding read pointer: " e0) ∨
    ((Tar.ReadFull3 (Tar.fileHead w)).2 = None ∧ Tar.seekErr w = None ∧
     Tar.isGzip (Tar.ReadFull3 (Tar.fileHead w)).1 = true ∧
     Tar.gzipErr w = Some err))) ∨
  (Tar.opens w = true ∧ dir = (Tar.mkdirTemp w).1 ∧
   ((is_EOF (Tar.nextErr w) = false ∧
     err = wrapError ("reading tarfile " +:+ tarPath +:+ ": ")
             (Tar.nextErr w)) ∨
    ∃ e, e ∈ Tar.entries w ∧ Tar.skipped e = false ∧
      ((∃ e0, Tar.mkdirAllErr e = Some e0 ∧
              err = wrapError "creating image directory structure: " e0) ∨
       (Tar.inside dir (filepath.Join dir (Tar.Name (Tar.hdr e))) = false ∧
        err = errorString (Tar.Name (Tar.hdr e) +:+ ": illegal file path")) ∨
       (∃ e0, Tar.createErr e = Some e0 ∧
              err = wrapError "creating image layer file: " e0) ∨
       (∃ e0, Tar.copyErr e = Some e0 ∧ is_EOF e0 = false ∧
              err = wrapError "extracting image data: " e0)))).
Proof.
  destruct (Tar.opens w) eqn:Hopen.
  - rewrite ExtractTarballTmp_opens by done.
    destruct (Tar.extractLoop _ _ _ _ _ _) as [st1 n1|st1 n1|st1 err1]
      eqn:Hloop; [done..|].
    intros [= <- <- <-]. right; right; right.
    split; [done|]. split; [done|].
    apply extractLoop_Return in Hloop as [(e & Hin & st0 & n0 & He)|Hnext].
    + right. exists e. split; [done|].
      by apply extractEntry_Return in He.
    + by left.
  - revert Hopen. unfold Tar.opens, Tar.ExtractTarballTmp.
    destruct (Tar.mkdirTemp w) as [tmpDir [e0|]]; simpl.
    { intros _ [= <- <- <-]. left. by exists e0. }
    destruct (Tar.openErr w) as [e0|]; simpl.
    { intros _ [= <- <- <-]. right; left. by exists e0. }
    destruct (Tar.ReadFull3 (Tar.fileHead w)) as [sample [e0|]]; simpl.
    { intros _ [= <- <- <-]. right; right; left.
      repeat (split; [done|]). left. by exists e0. }
    destruct (Tar.seekErr w) as [e0|]; simpl.
    { intros _ [= <- <- <-]. right; right; left.
      repeat (split; [done|]). right; left. by exists e0. }
    destruct (Tar.isGzip sample); simpl; [|done].
    destruct (Tar.gzipErr w) as [e0|]; simpl; [|done].
    intros _ [= <- <- <-]. right; right; left.
    repeat (split; [done|]). right; right. done.
Qed.

(** The empty file: the sampling fails, and the error comes with the empty
    string. *)
Lemma ExtractTarballTmp_errors_witness :
  let w := Tar.shortFile [] in
  let err := wrapError "sampling bytes from file header: " io_EOF in
  (∃ e0, (Tar.mkdirTemp w).2 = Some e0 ∧ "" = (Tar.mkdirTemp w).1 ∧
         err = wrapError "creating temporary directory for tar extraction: "
                 e0) ∨
  (∃ e0, (Tar.mkdirTemp w).2 = None ∧ Tar.openErr w = Some e0 ∧
         "" = (Tar.mkdirTemp w).1 ∧ err = wrapError "opening tarball: " e0) ∨
  ((Tar.mkdirTemp w).2 = None ∧ Tar.openErr w = None ∧ Tar.opens w = false ∧
   "" = "" ∧
   ((∃ e0, (Tar.ReadFull3 (Tar.fileHead w)).2 = Some e0 ∧
           err = wrapError "sampling bytes from file header: " e0) ∨
    (∃ e0, (Tar.ReadFull3 (Tar.fileHead w)).2 = None ∧
           Tar.seekErr w = Some e0 ∧
           err = wrapError "rewinding read pointer: " e0) ∨
    ((Tar.ReadFull3 (Tar.fileHead w)).2 = None ∧ Tar.seekErr w = None ∧
     Tar.isGzip (Tar.ReadFull3 (Tar.fileHead w)).1 = true ∧
     Tar.gzipErr w = Some err))) ∨
  (Tar.opens w = true ∧ "" = (Tar.mkdirTemp w).1 ∧
   ((is_EOF (Tar.nextErr w) = false ∧
     err = wrapError ("reading tarfile " +:+ "empty.tar" +:+ ": ")
             (Tar.nextErr w)) ∨
    ∃ e, e ∈ Tar.entries w ∧ Tar.skipped e = false ∧
      ((∃ e0, Tar.mkdirAllErr e = Some e0 ∧
              err = wrapError "creating image directory structure: " e0) ∨
       (Tar.inside "" (filepath.Join "" (Tar.Name (Tar.hdr e))) = false ∧
        err = errorString (Tar.Name (Tar.hdr e) +:+ ": illegal file path")) ∨
       (∃ e0, Tar.createErr e = Some e0 ∧
              err = wrapError "creating image layer file: " e0) ∨
       (∃ e0, Tar.copyErr e = Some e0 ∧ is_EOF e0 = false ∧
              err = wrapError "extracting image data: " e0)))).
Proof.
  apply (ExtractTarballTmp_errors (Tar.shortFile []) "empty.tar"
           Tar.emptyState
           (Tar.ExtractTarballTmp (Tar.shortFile []) "empty.tar"
              Tar.emptyState).1
           "" (wrapError "sampling bytes from file header: " io_EOF)).
  reflexivity.
Defined.

(** ** Paths made of plain elements *)
Section PlainPaths.
Import filepath.

Lemma plainElem_seps e :
  plainElem e = true → forallb (λ c, negb (IsPathSeparator c)) e = true.
Proof.
  destruct e as [|c [|d [|x e]]]; simpl; try done.
  - intros [H _]%andb_prop. by rewrite H.
  - intros [[H1 H2]%andb_prop _]%andb_prop. by rewrite H1, H2.
Qed.

(** The copy loop of the default case of [Clean] copies up to the next
    separator. *)
Lemma cleanLoop_copy rooted t rest out dotdot :
  forallb (λ c, negb (IsPathSeparator c)) t = true →
  atElemEnd rest = true →
  cleanLoop rooted true (t ++ rest) out dotdot
  = cleanLoop rooted false (tail rest) (out ++ t) dotdot.
Proof.
  revert out. induction t as [|c t IH]; intros out Ht Hrest.
  - rewrite app_nil_r. destruct rest as [|c rest]; [done|].
    cbn [app cleanLoop tail]. cbn [atElemEnd] in Hrest. by rewrite Hrest.
  - cbn [forallb] in Ht. apply andb_prop in Ht as [Hc Ht].
    apply negb_true_iff in Hc.
    change ((c :: t) ++ rest) with (c :: (t ++ rest)).
    cbn [cleanLoop]. rewrite Hc, IH by done.
    by rewrite <- app_assoc.
Qed.

(** At the start of a plain element of a rooted path, [Clean] writes a
    separator, unless the root is all that was written, and copies the
    element. *)
Lemma cleanLoop_plainElem e rest out dotdot :
  plainElem e = true → atElemEnd rest = true → out ≠ [] →
  cleanLoop true false (e ++ rest) out dotdot
  = cleanLoop true false (tail rest)
      ((if (length out =? 1)%nat then out else out ++ [Separator]) ++ e)
      dotdot.
Proof.
  intros He Hrest Hout.
  pose proof (plainElem_seps e He) as Hseps.
  destruct e as [|c t]; [done|].
  cbn [forallb] in Hseps. apply andb_prop in Hseps as [Hc Ht].
  apply negb_true_iff in Hc.
  assert ((isDot c && atElemEnd (t ++ rest)) = false) as Hdot.
  { destruct t as [|d t]; simpl.
    - rewrite Hrest. cbn [plainElem] in He.
      apply andb_prop in He as [_ He]. apply negb_true_iff in He.
      by rewrite He.
    - cbn [forallb] in Ht. apply andb_prop in Ht as [Hd _].
      apply negb_true_iff in Hd. rewrite Hd. apply andb_false_r. }
  set (out1 := if (length out =? 1)%nat then out else out ++ [Separator]).
  assert ((if (true && negb (length out =? 1)%nat)
              || (negb true && negb (length out =? 0)%nat)
           then out ++ [Separator] else out) = out1) as Hout1.
  { unfold out1. simpl. rewrite orb_false_r.
    by destruct (length out =? 1)%nat. }
  change ((c :: t) ++ rest) with (c :: (t ++ rest)).
  cbn [cleanLoop]. rewrite Hc, Hdot.
  destruct (t ++ rest) as [|d rest2] eqn:Htr.
  - apply app_eq_nil in Htr as [-> ->]. cbv zeta. rewrite Hout1. done.
  - assert ((isDot c && isDot d && atElemEnd rest2) = false) as Hdd.
    { destruct t as [|d' [|d2 t]]; simpl in Htr.
      - subst rest. simpl in Hrest.
        assert (isDot d = false) as ->; [|by rewrite andb_false_r].
        unfold IsPathSeparator, isDot, Separator in *.
        apply Ascii.eqb_eq in Hrest as ->. done.
      - injection Htr as <- <-. rewrite Hrest. cbn [plainElem] in He.
        apply andb_prop in He as [_ He]. apply negb_true_iff in He.
        by rewrite He.
      - injection Htr as <- <-. cbn [forallb] in Ht.
        apply andb_prop in Ht as [_ [Hd2 _]%andb_prop].
        apply negb_true_iff in Hd2. simpl. rewrite Hd2.
        apply andb_false_r. }
    rewrite Hdd. cbv zeta. rewrite Hout1, <- Htr.
    rewrite cleanLoop_copy by done. by rewrite <- app_assoc.
Qed.

(** [Clean] leaves a rooted path of plain elements as it is. *)
Lemma cleanLoop_plain es out dotdot :
  Forall (λ e, plainElem e = true) es → es ≠ [] → out ≠ [] →
  cleanLoop true false (joinElems es) out dotdot
  = (if (length out =? 1)%nat then out else out ++ [Separator])
    ++ joinElems es.
Proof.
  intros Hes. revert out.
  induction Hes as [|e es He Hes IH]; intros out Hne Hout; [done|].
  destruct es as [|e' es].
  - simpl. rewrite <- (app_nil_r e) at 1.
    rewrite cleanLoop_plainElem by done. done.
  - change (joinElems (e :: e' :: es))
      with (e ++ Separator :: joinElems (e' :: es)).
    rewrite cleanLoop_plainElem by done.
    cbn [tail]. rewrite IH; [|done|].
    2:{ destruct out; [done|]. by destruct (length _ =? 1)%nat. }
    assert ((length
               ((if (length out =? 1)%nat then out else out ++ [Separator])
                ++ e) =? 1)%nat = false) as ->.
    { apply Nat.eqb_neq. rewrite length_app.
      destruct e; [done|]. destruct out; [done|].
      destruct (length _ =? 1)%nat; simpl; lia. }
    by rewrite <- !app_assoc.
Qed.

Lemma cleanBytes_plain es :
  Forall (λ e, plainElem e = true) es → es ≠ [] →
  cleanBytes (Separator :: joinElems es) = Separator :: joinElems es.
Proof.
  intros Hes Hne. unfold cleanBytes.
  assert (IsPathSeparator Separator = true) as -> by done.
  by rewrite cleanLoop_plain.
Qed.

Lemma joinElems_app es1 es2 :
  es1 ≠ [] → es2 ≠ [] →
  joinElems (es1 ++ es2) = joinElems es1 ++ Separator :: joinElems es2.
Proof.
  intros H1 H2. induction es1 as [|e [|e' es1] IH]; [done| |].
  - destruct es2; done.
  - change (joinElems ((e :: e' :: es1) ++ es2))
      with (e ++ Separator :: joinElems ((e' :: es1) ++ es2)).
    rewrite IH by done.
    change (joinElems (e :: e' :: es1))
      with (e ++ Separator :: joinElems (e' :: es1)).
    by rewrite <- app_assoc.
Qed.

Lemma list_ascii_of_string_app (a b : string) :
  list_ascii_of_string (a +:+ b)
  = list_ascii_of_string a ++ list_ascii_of_string b.
Proof.
  induction a as [|c a IH]; [done|].
  change (c :: list_ascii_of_string (a +:+ b)
          = c :: (list_ascii_of_string a ++ list_ascii_of_string b)).
  by rewrite IH.
Qed.

Lemma string_of_list_ascii_app (a b : list ascii) :
  string_of_list_ascii (a ++ b)
  = string_of_list_ascii a +:+ string_of_list_ascii b.
Proof.
  induction a as [|c a IH]; [done|]. simpl.
  change (String c (string_of_list_ascii (a ++ b))
          = String c (string_of_list_ascii a +:+ string_of_list_ascii b)).
  by rewrite IH.
Qed.

Lemma prefix_append (a b : string) : String.prefix a (a +:+ b) = true.
Proof.
  induction a as [|c a IH]; [by destruct b|].
  change (String.prefix (String c a) (String c (a +:+ b)) = true).
  simpl. destruct (Ascii.ascii_dec c c); [done|done].
Qed.

End PlainPaths.

(** [sanitizeExtractPath] accepts every name made of plain elements: for a
    rooted temp directory of one plain element or more, and a name of plain
    elements (none is empty, [.] or [..]) joined by single separators, it
    returns the directory, a separator and the name, without error. *)
Theorem sanitizeExtractPath_accepts_plain_names
    (dirElems nameElems : list (list ascii)) :
  dirElems ≠ [] → nameElems ≠ [] →
  Forall (λ e, filepath.plainElem e = true) (dirElems ++ nameElems) →
  let tmpDir :=
    string_of_list_ascii (filepath.Separator :: filepath.joinElems dirElems) in
  let filePath := string_of_list_ascii (filepath.joinElems nameElems) in
  Tar.sanitizeExtractPath tmpDir filePath
  = (tmpDir +:+ "/" +:+ filePath, None).
Proof.
  intros Hdir Hname Hall tmpDir filePath.
  apply Forall_app in Hall as Hboth. destruct Hboth as [Hd Hn].
  assert (filepath.Clean tmpDir = tmpDir) as Hclean.
  { unfold filepath.Clean, tmpDir.
    rewrite list_ascii_of_string_of_list_ascii.
    by rewrite cleanBytes_plain. }
  assert (filepath.Join tmpDir filePath = tmpDir +:+ "/" +:+ filePath)
    as Hjoin.
  { unfold filepath.Join. assert (String.eqb tmpDir "" = false) as -> by done.
    unfold filepath.Clean.
    rewrite !list_ascii_of_string_app. unfold tmpDir, filePath.
    rewrite !list_ascii_of_string_of_list_ascii.
    change (list_ascii_of_string "/") with [filepath.Separator].
    change ((filepath.Separator :: filepath.joinElems dirElems)
            ++ [filepath.Separator] ++ filepath.joinElems nameElems)
      with (filepath.Separator
            :: (filepath.joinElems dirElems
                ++ filepath.Separator :: filepath.joinElems nameElems)).
    rewrite <- joinElems_app by done.
    rewrite cleanBytes_plain; [|done|by destruct dirElems].
    rewrite joinElems_app by done.
    change (filepath.Separator
            :: (filepath.joinElems dirElems
                ++ filepath.Separator :: filepath.joinElems nameElems))
      with ((filepath.Separator :: filepath.joinElems dirElems)
            ++ [filepath.Separator] ++ filepath.joinElems nameElems).
    by rewrite !string_of_list_ascii_app. }
  unfold Tar.sanitizeExtractPath, strings.HasPrefix.
  rewrite Hjoin, Hclean.
  assert (String.prefix (tmpDir +:+ "/") (tmpDir +:+ "/" +:+ filePath) = true)
    as ->; [|done].
  rewrite <- append_assoc. apply prefix_append.
Qed.

Lemma sanitizeExtractPath_accepts_plain_names_witness :
  Tar.sanitizeExtractPath "/tmp/spdx-tar-extract-1" "usr/bin/..env"
  = ("/tmp/spdx-tar-extract-1" +:+ "/" +:+ "usr/bin/..env", None).
Proof.
  apply (sanitizeExtractPath_accepts_plain_names
           [list_ascii_of_string "tmp";
            list_ascii_of_string "spdx-tar-extract-1"]
           [list_ascii_of_string "usr"; list_ascii_of_string "bin";
            list_ascii_of_string "..env"]).
  - discriminate.
  - discriminate.
  - repeat constructor.
Defined.

(** ** The directory scanner: what the walk, the patterns and the filter
    give *)
Section ScanRuns.
Context `{G : Scan.Gitignore}.

(** The loop of [GetDirectoryTree] over the calls of the walk. *)
Lemma walk_fold (ds : list Scan.WalkEntry) (acc : list string) :
  fold_left
    (λ (acc : result (list string)) (d : Scan.WalkEntry),
       match acc with
       | Err e => Err e
       | Ok fileList =>
           match Scan.walkErr d with
           | Some e => Err e
           | None =>
               if Scan.walkIsDir d then Ok fileList
               else if Scan.walkIsSymlink d then Ok fileList
               else Ok (fileList ++ [Scan.walkPath d])
           end
       end)
    ds (Ok acc)
  = match Scan.firstWalkErr ds with
    | Some e => Err e
    | None => Ok (acc ++ (Scan.walkPath <$> List.filter Scan.listed ds))
    end.
Proof.
  revert acc. induction ds as [|d ds IH]; intros acc.
  - simpl. by rewrite app_nil_r.
  - cbn [fold_left]. unfold Scan.firstWalkErr, Scan.listed in *.
    cbn [omap list_omap List.filter].
    destruct (Scan.walkErr d) as [e|] eqn:He; rewrite ?He; simpl.
    + clear. induction ds as [|x ds IH]; simpl; [done|apply IH].
    + destruct (Scan.walkIsDir d); simpl; [apply IH|].
      destruct (Scan.walkIsSymlink d); simpl; [apply IH|].
      rewrite IH. destruct (head _); [done|]. by rewrite <- app_assoc.
Qed.

Lemma Base_nonempty (path : string) : filepath.Base path ≠ "".
Proof.
  unfold filepath.Base.
  destruct (list_ascii_of_string path) as [|c l]; [done|].
  destruct (filepath.afterLastSep _) as [|b bs]; done.
Qed.

End ScanRuns.

(** [GetDirectoryTree] lists, in the order of the walk, the paths of the
    entries that are neither directories nor symbolic links; the first
    error the walk reports ends it, and the error comes back wrapped,
    without a list. *)
Theorem GetDirectoryTree_lists_regular_files
    (w : Scan.World) (dirPath : string) :
  Scan.GetDirectoryTree w dirPath
  = match Scan.firstWalkErr (Scan.WalkDir w dirPath) with
    | Some e => Err (wrapError "buiding directory tree: " e)
    | None =>
        Ok (Scan.walkPath
              <$> List.filter Scan.listed (Scan.WalkDir w dirPath))
    end.
Proof.
  unfold Scan.GetDirectoryTree. rewrite walk_fold.
  by destruct (Scan.firstWalkErr _).
Qed.

(** [ApplyIgnorePatterns] removes files and does nothing else: the result
    is a sublist of the input, in the order of the input, and a file is in
    it exactly when it is in the input and the matcher does not match its
    path, split at the separators. *)
Theorem ApplyIgnorePatterns_keeps_unmatched `{G : Scan.Gitignore}
    (fileList : list string) (patterns : list Scan.Pattern) :
  sublist (Scan.ApplyIgnorePatterns fileList patterns) fileList ∧
  ∀ file,
    file ∈ Scan.ApplyIgnorePatterns fileList patterns
    ↔ file ∈ fileList ∧
      Scan.MatcherMatch patterns (strings.Split file filepath.Separator) false
      = false.
Proof.
  rewrite ApplyIgnorePatterns_filter. split.
  - induction fileList as [|f l IH]; simpl; [constructor|].
    destruct (negb _); by constructor.
  - intros file. induction fileList as [|f l IH]; simpl.
    + split; [by intros ?%elem_of_nil|by intros [?%elem_of_nil _]].
    + destruct (Scan.MatcherMatch patterns (strings.Split f filepath.Separator)
                  false) eqn:Hf; simpl.
      * rewrite IH, elem_of_cons. split; [tauto|].
        intros [[->|Hin] Hm]; [congruence|done].
      * rewrite !elem_of_cons, IH. split.
        -- intros [->|[Hin Hm]]; [by split; [left|]|by split; [right|]].
        -- intros [[->|Hin] Hm]; [by left|by right].
Qed.

(** [ApplyIgnorePatterns] decides file by file: the filtered concatenation
    of two lists is the concatenation of the two filtered lists. *)
Theorem ApplyIgnorePatterns_app `{G : Scan.Gitignore}
    (l1 l2 : list string) (patterns : list Scan.Pattern) :
  Scan.ApplyIgnorePatterns (l1 ++ l2) patterns
  = Scan.ApplyIgnorePatterns l1 patterns
    ++ Scan.ApplyIgnorePatterns l2 patterns.
Proof. rewrite !ApplyIgnorePatterns_filter. apply List.filter_app. Qed.

(** [IgnorePatterns] fails in one case only: [.gitignore] loading is
    enabled, the file exists at the scan root and it cannot be opened; the
    error is that of the opening, wrapped. *)
Theorem IgnorePatterns_fails_only_on_open `{G : Scan.Gitignore}
    (w : Scan.World) (dirPath : string) (extraPatterns : list string)
    (skipGitIgnore : bool) (err : error) :
  Scan.IgnorePatterns w dirPath extraPatterns skipGitIgnore = Err err
  ↔ skipGitIgnore = false ∧
    Scan.Exists w (filepath.Join dirPath Scan.gitIgnoreFile) = true ∧
    ∃ e, Scan.OpenLines w (filepath.Join dirPath Scan.gitIgnoreFile) = Err e ∧
         err = wrapError "opening gitignore file: " e.
Proof.
  unfold Scan.IgnorePatterns.
  destruct skipGitIgnore; [split; [done|by intros [? _]]|].
  destruct (Scan.Exists w _); [|split; [done|by intros (_ & ? & _)]].
  destruct (Scan.OpenLines w _) as [lines|e].
  - split; [done|]. by intros (_ & _ & e & ? & _).
  - split.
    + intros [= <-]. eauto.
    + intros (_ & _ & e' & [= <-] & ->). done.
Qed.

(** Every list [IgnorePatterns] returns starts with the caller's extra
    patterns, in their order; it is these patterns alone when [.gitignore]
    loading is disabled or there is no such file at the scan root, whatever
    else the directory holds. *)
Theorem IgnorePatterns_extras_first `{G : Scan.Gitignore}
    (w : Scan.World) (dirPath : string) (extraPatterns : list string)
    (skipGitIgnore : bool) (patterns : list Scan.Pattern) :
  Scan.IgnorePatterns w dirPath extraPatterns skipGitIgnore = Ok patterns →
  take (length extraPatterns) patterns = Scan.ParsePattern <$> extraPatterns ∧
  (skipGitIgnore = true
   ∨ Scan.Exists w (filepath.Join dirPath Scan.gitIgnoreFile) = false →
   patterns = Scan.ParsePattern <$> extraPatterns).
Proof.
  unfold Scan.IgnorePatterns. rewrite fold_left_append_map. simpl.
  assert (length (Scan.ParsePattern <$> extraPatterns)
          = length extraPatterns) as Hlen by apply length_fmap.
  destruct skipGitIgnore.
  { intros [= <-]. split; [|done]. by rewrite <- Hlen, firstn_all. }
  destruct (Scan.Exists w _).
  - destruct (Scan.OpenLines w _) as [lines|e]; [|done]. intros [= <-].
    rewrite fold_left_append_filter, <- app_assoc.
    split; [by rewrite take_app_length'|]. by intros [?|?].
  - intros [= <-]. split; [|done]. by rewrite <- Hlen, firstn_all.
Qed.

Lemma IgnorePatterns_extras_first_witness :
  take (length ["*.log"]) ["*.log"]
  = Scan.ParsePattern (Gitignore := ScanSamples.literalPatterns)
      <$> ["*.log"] ∧
  (false = true
   ∨ Scan.Exists (ScanSamples.plainDirectory ["a.txt"] None)
       (filepath.Join "/repo" Scan.gitIgnoreFile) = false →
   ["*.log"]
   = Scan.ParsePattern (Gitignore := ScanSamples.literalPatterns)
       <$> ["*.log"]).
Proof.
  apply (IgnorePatterns_extras_first (G := ScanSamples.literalPatterns)
           (ScanSamples.plainDirectory ["a.txt"] None) "/repo" ["*.log"]
           false ["*.log"]).
  reflexivity.
Defined.

(** [PackageFromDirectory] returns a package only when the five steps
    before the scan succeeded and files are left after the ignore patterns
    were applied; the package is then the one the workers leave, and the
    package they start from has the flag [FilesAnalyzed] set, the license
    of the directory, the parent of the absolute path as work directory
    and, as its name, the base name of the absolute path, which is never
    empty: the random name is never used. *)
Theorem PackageFromDirectory_success `{G : Scan.Gitignore}
    (w : Scan.World) (opts : SPDX.Options) (dirPath : string)
    (pkg : SPDX.Package) :
  Scan.PackageFromDirectory w opts dirPath = Ok pkg →
  ∃ abs fileList lic patterns,
    Scan.Abs w dirPath = (abs, None) ∧
    Scan.GetDirectoryTree w abs = Ok fileList ∧
    Scan.LicenseReader w opts = None ∧
    Scan.GetDirectoryLicense w abs = Ok lic ∧
    Scan.IgnorePatterns w abs (SPDX.IgnorePatterns opts)
      (SPDX.NoGitignore opts) = Ok patterns ∧
    Scan.ApplyIgnorePatterns fileList patterns ≠ [] ∧
    filepath.Base abs ≠ "" ∧
    let licenseTag :=
      match lic with Some l => Scan.LicenseID l | None => "" end in
    Scan.processFiles w abs licenseTag (Scan.directoryPackage abs licenseTag)
      (Scan.ApplyIgnorePatterns fileList patterns)
    = (pkg, None).
Proof.
  unfold Scan.PackageFromDirectory.
  destruct (Scan.Abs w dirPath) as [abs [e|]] eqn:Habs; [done|].
  destruct (Scan.GetDirectoryTree w abs) as [fileList|e] eqn:Htree; [|done].
  destruct (Scan.LicenseReader w opts) eqn:Hreader; [done|].
  destruct (Scan.GetDirectoryLicense w abs) as [lic|e] eqn:Hlic; [|done].
  destruct (Scan.IgnorePatterns w abs _ _) as [patterns|e] eqn:Hpat; [|done].
  destruct (length _ =? 0)%nat eqn:Hlen; [done|].
  apply Nat.eqb_neq in Hlen. cbn [SPDX.Name SPDX.setName].
  pose proof (Base_nonempty abs) as Hbase.
  destruct (String.eqb (filepath.Base abs) "") eqn:Heq.
  { by apply String.eqb_eq in Heq. }
  intros Hrun. exists abs, fileList, lic, patterns.
  repeat (split; [done|]). split.
  { intros Hnil. by rewrite Hnil in Hlen. }
  split; [done|]. unfold Scan.directoryPackage.
  destruct (Scan.processFiles w abs _ _ _) as [pkg' [e|]]; [done|].
  by injection Hrun as ->.
Qed.

Lemma PackageFromDirectory_success_witness :
  ∃ abs fileList lic patterns,
    Scan.Abs (ScanSamples.gitDirectory ["a.txt"; "b.log"] ["*.log"; "b.log"])
      "/repo" = (abs, None) ∧
    Scan.GetDirectoryTree
      (ScanSamples.gitDirectory ["a.txt"; "b.log"] ["*.log"; "b.log"]) abs
    = Ok fileList ∧
    Scan.LicenseReader
      (ScanSamples.gitDirectory ["a.txt"; "b.log"] ["*.log"; "b.log"])
      ScanSamples.defaultOptions = None ∧
    Scan.GetDirectoryLicense
      (ScanSamples.gitDirectory ["a.txt"; "b.log"] ["*.log"; "b.log"]) abs
    = Ok lic ∧
    Scan.IgnorePatterns (G := ScanSamples.literalPatterns)
      (ScanSamples.gitDirectory ["a.txt"; "b.log"] ["*.log"; "b.log"]) abs
      (SPDX.IgnorePatterns ScanSamples.defaultOptions)
      (SPDX.NoGitignore ScanSamples.defaultOptions) = Ok patterns ∧
    Scan.ApplyIgnorePatterns (G := ScanSamples.literalPatterns) fileList
      patterns ≠ [] ∧
    filepath.Base abs ≠ "" ∧
    let licenseTag :=
      match lic with Some l => Scan.LicenseID l | None => "" end in
    Scan.processFiles
      (ScanSamples.gitDirectory ["a.txt"; "b.log"] ["*.log"; "b.log"]) abs
      licenseTag (Scan.directoryPackage abs licenseTag)
      (Scan.ApplyIgnorePatterns (G := ScanSamples.literalPatterns) fileList
         patterns)
    = (Scan.directoryPackage "/repo" "", None).
Proof.
  apply (PackageFromDirectory_success (G := ScanSamples.literalPatterns)
           (ScanSamples.gitDirectory ["a.txt"; "b.log"] ["*.log"; "b.log"])
           ScanSamples.defaultOptions "/repo"
           (Scan.directoryPackage "/repo" "")).
  vm_compute. reflexivity.
Defined.

(** ** The workers of the directory scanner *)

(** A worker hands to the throttler the value the variable [err] had when
    the worker started, not the error of its own steps, which it leaves in
    the variable. *)
Lemma processDirectoryFile_done (fw : FileWorker.World)
    (dirPath licenseTag path : string) (v : FileWorker.Vars) :
  (FileWorker.processDirectoryFile fw dirPath licenseTag path v).2
  = FileWorker.err v.
Proof.
  unfold FileWorker.processDirectoryFile.
  destruct (FileWorker.LicenseFromFile fw _) as [l [e|]]; simpl; [done|].
  destruct (FileWorker.ReadSourceFile fw _ _) as [f [e|]]; simpl; [done|].
  by destruct (FileWorker.AddFileErr fw _ f).
Qed.

(** The files of the package a worker leaves: those it had, and the file
    of the worker when none of its steps failed. *)
Lemma processDirectoryFile_Files (fw : FileWorker.World)
    (dirPath licenseTag path : string) (v : FileWorker.Vars) :
  let v' := (FileWorker.processDirectoryFile fw dirPath licenseTag path v).1 in
  SPDX.Name (FileWorker.pkg v') = SPDX.Name (FileWorker.pkg v) ∧
  match FileWorker.err v' with
  | Some _ => SPDX.Files (FileWorker.pkg v') = SPDX.Files (FileWorker.pkg v)
  | None =>
      ∃ f, SPDX.Files (FileWorker.pkg v')
           = SPDX.Files (FileWorker.pkg v) ++ [f]
  end ∧
  ((FileWorker.LicenseFromFile fw (filepath.Join dirPath path)).2 ≠ None →
   FileWorker.err v' ≠ None).
Proof.
  unfold FileWorker.processDirectoryFile.
  destruct (FileWorker.LicenseFromFile fw _) as [l [e|]]; simpl; [done|].
  destruct (FileWorker.ReadSourceFile fw _ _) as [f [e|]]; simpl; [done|].
  destruct (FileWorker.AddFileErr fw _ f); simpl; [done|].
  split; [done|]. split; [eauto|done].
Qed.

(** For a directory in which one file is left to scan, the errors of the
    scan of the file are lost.  The worker of the file runs alone, and the
    error it hands to the throttler is the value of [err] at its start,
    which is [nil]: [PackageFromDirectory] returns a package and no error
    whatever the worker meets, and when the license reader fails on the
    file, or a later step fails, the package has no file at all. *)
Theorem PackageFromDirectory_one_file_errors_lost `{G : Scan.Gitignore}
    (w : Scan.World) (fw : FileWorker.World) (opts : SPDX.Options)
    (dirPath abs : string) (fileList : list string)
    (patterns : list Scan.Pattern) (lic : option Scan.License)
    (path : string) :
  let licenseTag :=
    match lic with Some l => Scan.LicenseID l | None => "" end in
  let pkg0 := Scan.directoryPackage abs licenseTag in
  Scan.Abs w dirPath = (abs, None) →
  Scan.GetDirectoryTree w abs = Ok fileList →
  Scan.LicenseReader w opts = None →
  Scan.GetDirectoryLicense w abs = Ok lic →
  Scan.IgnorePatterns w abs (SPDX.IgnorePatterns opts)
    (SPDX.NoGitignore opts) = Ok patterns →
  Scan.ApplyIgnorePatterns fileList patterns = [path] →
  Scan.processFiles w abs licenseTag pkg0 [path]
  = FileWorker.scanOneFile fw abs licenseTag lic pkg0 path →
  ∃ pkg,
    Scan.PackageFromDirectory w opts dirPath = Ok pkg ∧
    pkg
    = FileWorker.pkg
        (FileWorker.processDirectoryFile fw abs licenseTag path
           {| FileWorker.err := None; FileWorker.lic := lic;
              FileWorker.pkg := pkg0 |}).1 ∧
    match
      FileWorker.err
        (FileWorker.processDirectoryFile fw abs licenseTag path
           {| FileWorker.err := None; FileWorker.lic := lic;
              FileWorker.pkg := pkg0 |}).1
    with
    | Some _ => SPDX.Files pkg = []
    | None => ∃ f, SPDX.Files pkg = [f]
    end ∧
    ((FileWorker.LicenseFromFile fw (filepath.Join abs path)).2 ≠ None →
     SPDX.Files pkg = []).
Proof.
  intros licenseTag pkg0 Habs Htree Hreader Hlic Hpat Happly Hworkers.
  set (v0 := {| FileWorker.err := None; FileWorker.lic := lic;
                FileWorker.pkg := pkg0 |}).
  pose proof (processDirectoryFile_done fw abs licenseTag path v0) as Hdone.
  pose proof (processDirectoryFile_Files fw abs licenseTag path v0)
    as (_ & Hfiles & Hfail).
  unfold Scan.PackageFromDirectory.
  rewrite Habs, Htree, Hreader, Hlic, Hpat, Happly.
  cbn [length Nat.eqb SPDX.Name SPDX.setName].
  destruct (String.eqb (filepath.Base abs) "") eqn:Heq.
  { apply String.eqb_eq in Heq. by apply Base_nonempty in Heq. }
  fold licenseTag. fold (Scan.directoryPackage abs licenseTag). fold pkg0.
  rewrite Hworkers. unfold FileWorker.scanOneFile. fold v0.
  destruct (FileWorker.processDirectoryFile fw abs licenseTag path v0)
    as [v' done]. simpl in *. subst done.
  eexists. split; [reflexivity|]. split; [done|]. split; [done|].
  intros Hlf. apply Hfail in Hlf.
  by destruct (FileWorker.err v').
Qed.

Lemma PackageFromDirectory_one_file_errors_lost_witness :
  ∃ pkg,
    Scan.PackageFromDirectory (G := ScanSamples.literalPatterns)
      (WorkerSamples.oneFileDirectory WorkerSamples.unreadable "a.txt")
      ScanSamples.defaultOptions "/repo" = Ok pkg ∧
    pkg
    = FileWorker.pkg
        (FileWorker.processDirectoryFile WorkerSamples.unreadable "/repo" ""
           "a.txt"
           {| FileWorker.err := None; FileWorker.lic := None;
              FileWorker.pkg := Scan.directoryPackage "/repo" "" |}).1 ∧
    match
      FileWorker.err
        (FileWorker.processDirectoryFile WorkerSamples.unreadable "/repo" ""
           "a.txt"
           {| FileWorker.err := None; FileWorker.lic := None;
              FileWorker.pkg := Scan.directoryPackage "/repo" "" |}).1
    with
    | Some _ => SPDX.Files pkg = []
    | None => ∃ f, SPDX.Files pkg = [f]
    end ∧
    ((FileWorker.LicenseFromFile WorkerSamples.unreadable
        (filepath.Join "/repo" "a.txt")).2 ≠ None →
     SPDX.Files pkg = []).
Proof.
  apply (PackageFromDirectory_one_file_errors_lost
           (G := ScanSamples.literalPatterns)
           (WorkerSamples.oneFileDirectory WorkerSamples.unreadable "a.txt")
           WorkerSamples.unreadable ScanSamples.defaultOptions "/repo" "/repo"
           ["a.txt"] [] None "a.txt").
  - reflexivity.
  - reflexivity.
  - reflexivity.
  - reflexivity.
  - reflexivity.
  - reflexivity.
  - reflexivity.
Defined.

(** ** The manifest of an image archive *)

Ltac inversions :=
  intros;
  repeat match goal with
         | H : _ ∧ _ |- _ => destruct H
         | H : ∃ _, _ |- _ => destruct H
         | H : Ok _ = Ok _ |- _ => injection H as H
         | H : _ :: _ = _ :: _ |- _ => injection H as ? H
         | H : Manifest.Returns _ = Manifest.Returns _ |- _ => injection H as H
         | H : Manifest.Panics _ = Manifest.Panics _ |- _ => injection H as H
         end;
  subst; try congruence; eauto 10.

(** [ReadArchiveManifest] returns a manifest exactly when the file exists,
    can be read and decodes to a list that is not empty, and the manifest is
    then the first of the list, whatever follows it; when the file decodes
    to the empty list the call does not return: it panics.  It prints the
    content of the file exactly when the content cannot be decoded. *)
Theorem ReadArchiveManifest_first_of_list
    (w : Manifest.World) (manifestPath : string)
    (manifest : Image.ArchiveManifest) (msg : string)
    (line : list byte) (printed : list (list byte)) :
  ((Manifest.ReadArchiveManifest w manifestPath).2
   = Manifest.Returns (Ok manifest)
   ↔ Manifest.Exists w manifestPath = true ∧
     ∃ data rest, Manifest.ReadFile w manifestPath = Ok data ∧
                  Manifest.Unmarshal w data = Ok (manifest :: rest)) ∧
  ((Manifest.ReadArchiveManifest w manifestPath).2 = Manifest.Panics msg
   ↔ Manifest.Exists w manifestPath = true ∧
     msg = "runtime error: index out of range [0] with length 0" ∧
     ∃ data, Manifest.ReadFile w manifestPath = Ok data ∧
             Manifest.Unmarshal w data = Ok []) ∧
  ((Manifest.ReadArchiveManifest w manifestPath).1 = line :: printed
   ↔ Manifest.Exists w manifestPath = true ∧ printed = [] ∧
     Manifest.ReadFile w manifestPath = Ok line ∧
     ∃ e, Manifest.Unmarshal w line = Err e).
Proof.
  unfold Manifest.ReadArchiveManifest.
  destruct (Manifest.Exists w manifestPath); simpl;
    [|repeat split; inversions].
  destruct (Manifest.ReadFile w manifestPath) as [data|e]; simpl;
    [|repeat split; inversions].
  destruct (Manifest.Unmarshal w data) as [[|m rest]|e] eqn:Hdec; simpl;
    repeat split; inversions.
Qed.

(** ** The dependencies of a Go module *)

(** The loop of [GetGoDependencies] keeps, in order, the packages that
    convert. *)
Lemma convert_omap `{M : GoDeps.GoModules} (goPkgs : list GoDeps.GoPackage) :
  GoDeps.convert goPkgs
  = omap (λ goPkg, match GoDeps.ToSPDXPackage goPkg with
                   | Ok spdxPkg => Some spdxPkg
                   | Err _ => None
                   end) goPkgs.
Proof.
  unfold GoDeps.convert.
  assert (∀ acc,
            fold_left
              (λ spdxPackages goPkg,
                 match GoDeps.ToSPDXPackage goPkg with
                 | Err _ => spdxPackages
                 | Ok spdxPkg => spdxPackages ++ [spdxPkg]
                 end) goPkgs acc
            = acc ++ omap (λ goPkg, match GoDeps.ToSPDXPackage goPkg with
                                    | Ok spdxPkg => Some spdxPkg
                                    | Err _ => None
                                    end) goPkgs) as Hfold.
  { induction goPkgs as [|g l IH]; intros acc; simpl.
    - by rewrite app_nil_r.
    - rewrite IH. destruct (GoDeps.ToSPDXPackage g); [|done].
      by rewrite <- app_assoc. }
  apply (Hfold []).
Qed.

(** Once the module is open, [GetGoDependencies] returns a list of packages
    whatever happens next: the dependencies that convert to SPDX packages,
    in the order of the module, those that do not being left out.  An error
    of [ScanLicenses] is never returned, and the module is used as the scan
    left it.  The downloads are removed at the end, and the error of the
    removal, if any, is returned together with the list. *)
Theorem GetGoDependencies_of_open_module `{M : GoDeps.GoModules}
    (path : string) (opts : SPDX.Options) (mod0 mod1 : GoDeps.GoModule) :
  GoDeps.NewGoModuleFromPath path = Ok mod0 →
  GoDeps.Open
    (GoDeps.setOptions (SPDX.OnlyDirectDeps opts) (SPDX.ScanLicenses opts) mod0)
  = (mod1, None) →
  let mod2 :=
    if SPDX.ScanLicenses opts then (GoDeps.ScanLicenses mod1).1 else mod1 in
  GoDeps.GetGoDependencies path opts
  = (GoDeps.CallOpen
       :: (if SPDX.ScanLicenses opts then [GoDeps.CallScanLicenses] else [])
       ++ [GoDeps.CallRemoveDownloads],
     (Some (omap (λ goPkg, match GoDeps.ToSPDXPackage goPkg with
                           | Ok spdxPkg => Some spdxPkg
                           | Err _ => None
                           end) (GoDeps.Packages mod2)),
      GoDeps.RemoveDownloads mod2)).
Proof.
  intros Hnew Hopen. unfold GoDeps.GetGoDependencies.
  rewrite Hnew, Hopen. simpl.
  destruct (SPDX.ScanLicenses opts); simpl.
  - destruct (GoDeps.ScanLicenses mod1) as [mod2 errScan]; simpl.
    unfold GoDeps.deferred. simpl. by rewrite convert_omap.
  - unfold GoDeps.deferred. simpl. by rewrite convert_omap.
Qed.

Lemma GetGoDependencies_of_open_module_witness :
  GoDeps.GetGoDependencies (M := GoSamples.sampleModules) "/src/app"
    GoSamples.licenseOptions
  = ([GoDeps.CallOpen; GoDeps.CallScanLicenses; GoDeps.CallRemoveDownloads],
     (Some [SPDX.setName "golang.org/x/mod" SPDX.NewPackage;
            SPDX.setName "sigs.k8s.io/yaml" SPDX.NewPackage],
      Some (errorString "directory not empty"))).
Proof.
  apply (GetGoDependencies_of_open_module (M := GoSamples.sampleModules)
           "/src/app" GoSamples.licenseOptions []
           ["golang.org/x/mod"; ""; "sigs.k8s.io/yaml"]).
  - reflexivity.
  - reflexivity.
Defined.

(** ** The image assembler: the resolver, the fetcher and the clean-up *)
Section ImageRuns.
Import Image.
Context `{R : Image.Registry} (w : Image.World).

(** *** Computations that leave the state as it is *)

Lemma keepsState_ret {A} (v : A) : keepsState (ret v).
Proof. by intros s s' r [= <- _]. Qed.

Lemma keepsState_fail {A} e : keepsState (@fail A e).
Proof. by intros s s' r [= <- _]. Qed.

Lemma keepsState_wrapping {A} pre (r : result A) : keepsState (wrapping pre r).
Proof. destruct r; [apply keepsState_ret|apply keepsState_fail]. Qed.

Lemma keepsState_wrappingErr pre r : keepsState (wrappingErr pre r).
Proof. destruct r; [apply keepsState_fail|apply keepsState_ret]. Qed.

Lemma keepsState_bind {A B} (m : M A) (k : A → M B) :
  keepsState m → (∀ x, keepsState (k x)) → keepsState (bind m k).
Proof.
  intros Hm Hk s s' r. unfold bind.
  destruct (m s) as [s1 [x|e]] eqn:Hms.
  - intros Hks. rewrite (Hk _ _ _ _ Hks). by eapply Hm.
  - intros [= <- _]. by eapply Hm.
Qed.

Lemma keepsState_indexImages registry repository manifests images :
  keepsState (indexImages registry repository manifests images).
Proof.
  revert images. induction manifests as [|m ms IH]; intros images; simpl.
  - apply keepsState_ret.
  - apply keepsState_bind; [apply keepsState_wrapping|intros d].
    destruct (mdPlatform m); apply IH.
Qed.

Lemma keepsState_getImageReferences referenceString :
  keepsState (getImageReferences w referenceString).
Proof.
  unfold getImageReferences.
  apply keepsState_bind; [apply keepsState_wrapping|intros ref].
  apply keepsState_bind; [apply keepsState_wrapping|intros descr].
  destruct (negb _ && negb _); [apply keepsState_fail|].
  destruct (descIsImage descr).
  - apply keepsState_bind; [apply keepsState_wrapping|intros im].
    apply keepsState_bind; [apply keepsState_wrapping|intros imageDigest].
    apply keepsState_bind; [|intros dig; apply keepsState_ret].
    destruct (_ && _); [apply keepsState_wrapping|apply keepsState_ret].
  - apply keepsState_bind; [apply keepsState_wrapping|intros index].
    apply keepsState_bind; [apply keepsState_wrapping|intros indexManifest].
    apply keepsState_bind; [apply keepsState_indexImages|intros ?].
    apply keepsState_ret.
Qed.

Lemma keepsState_PullImagesToArchive referenceString path :
  keepsState (PullImagesToArchive w referenceString path).
Proof.
  unfold PullImagesToArchive.
  apply keepsState_bind; [apply keepsState_getImageReferences|intros refs].
  apply keepsState_bind; [|intros _].
  { destruct (negb _); [apply keepsState_wrappingErr|apply keepsState_ret]. }
  destruct (taskErrors _); [apply keepsState_ret|apply keepsState_fail].
Qed.

(** *** The children of an index *)

Lemma indexImages_children registry repository manifests images s s' out :
  indexImages registry repository manifests images s = (s', Ok out) →
  ∃ children, out = images ++ children ∧
    Forall2
      (λ manifest img, ∃ d,
         NewDigest (digestReference registry repository (mdDigest manifest))
         = Ok d ∧
         img = childOf (RefString d) manifest)
      manifests children.
Proof.
  revert images s. induction manifests as [|m ms IH]; intros images s; simpl.
  - intros [= _ <-]. exists []. by rewrite app_nil_r.
  - intros Hrun.
    apply bind_Ok in Hrun as (s1 & d & Hd & Hrun).
    apply wrapping_Ok in Hd as [Hd ->].
    assert (∃ children,
              out = (images ++ [childOf (RefString d) m]) ++ children ∧
              Forall2
                (λ manifest img, ∃ d,
                   NewDigest
                     (digestReference registry repository (mdDigest manifest))
                   = Ok d ∧
                   img = childOf (RefString d) manifest)
                ms children) as (children & -> & Hall).
    { unfold childOf. destruct (mdPlatform m); by eapply IH. }
    exists (childOf (RefString d) m :: children).
    split; [by rewrite <- app_assoc|]. constructor; eauto.
Qed.

(** The resolver sets neither the reference nor the archive of the
    record. *)
Lemma getImageReferences_bare referenceString s s' references :
  getImageReferences w referenceString s = (s', Ok references) →
  Reference_ references = "" ∧ Archive references = "".
Proof.
  unfold getImageReferences. intros Hrun.
  apply bind_Ok in Hrun as (s1 & ref & _ & Hrun).
  apply bind_Ok in Hrun as (s2 & descr & _ & Hrun).
  destruct (negb _ && negb _); [discriminate|].
  destruct (descIsImage descr).
  - apply bind_Ok in Hrun as (s3 & im & _ & Hrun).
    apply bind_Ok in Hrun as (s4 & imageDigest & _ & Hrun).
    apply bind_Ok in Hrun as (s5 & dig & _ & Hrun).
    injection Hrun as _ <-.
    by destruct (imgConfigFile im), (imgMediaType im).
  - apply bind_Ok in Hrun as (s3 & index & _ & Hrun).
    apply bind_Ok in Hrun as (s4 & indexManifest & _ & Hrun).
    apply bind_Ok in Hrun as (s5 & children & _ & Hrun).
    by injection Hrun as _ <-.
Qed.

(** *** The order in which the downloads finish *)

Lemma completionOrder_Permutation {A} sched (running : list A) :
  completionOrder sched running ≡ₚ running.
Proof.
  revert running. induction sched as [|k sched IH]; intros running; simpl;
    [done|].
  destruct (running !! (k mod length running)%nat) as [x|] eqn:Hx; [|done].
  rewrite IH. symmetry. by apply delete_Permutation.
Qed.

Lemma taskErrors_nil {A} (rs : list (result A)) :
  taskErrors rs = [] → rs = Ok <$> taskResults rs.
Proof.
  unfold taskErrors, taskResults.
  induction rs as [|[v|e] rs IH]; simpl; [done| |done].
  intros Hrs. f_equal. by apply IH.
Qed.

Lemma taskErrors_Permutation {A} (rs rs' : list (result A)) :
  rs ≡ₚ rs' → taskErrors rs ≡ₚ taskErrors rs'.
Proof. intros Hp. unfold taskErrors. by rewrite Hp. Qed.

Lemma taskResults_Permutation {A} (rs rs' : list (result A)) :
  rs ≡ₚ rs' → taskResults rs ≡ₚ taskResults rs'.
Proof. intros Hp. unfold taskResults. by rewrite Hp. Qed.

(** *** Paths that are not empty *)

Lemma Clean_nonempty (path : string) : filepath.Clean path ≠ "".
Proof.
  unfold filepath.Clean, filepath.cleanBytes.
  destruct (list_ascii_of_string path) as [|c rest]; [done|].
  match goal with
  | |- string_of_list_ascii (match ?o with _ => _ end) ≠ _ => destruct o
  end; done.
Qed.

Lemma Join_nonempty (a b : string) : b ≠ "" → filepath.Join a b ≠ "".
Proof.
  intros Hb. unfold filepath.Join.
  destruct (String.eqb a ""); [|apply Clean_nonempty].
  destruct (String.eqb b "") eqn:Heq; [|apply Clean_nonempty].
  by apply String.eqb_eq in Heq.
Qed.

Lemma append_nonempty (a b : string) : b ≠ "" → a +:+ b ≠ "".
Proof. intros Hb. destruct a; [done|]. done. Qed.

Lemma pullImage_Archive path r r' :
  pullImage w path r = Ok r' →
  r' = setArchive (Archive r') r ∧ Archive r' ≠ "" ∧
  ∃ ref, ParseReference (Digest r) = Ok ref ∧ isDigest ref = true ∧
    Archive r'
    = filepath.Join path
        (nth 1 (strings.Split (DigestStr ref) ":") "" +:+ ".tar").
Proof.
  unfold pullImage.
  destruct (ParseReference (Digest r)) as [ref|]; [|discriminate].
  destruct (isDigest ref) eqn:Hdig; simpl; [|discriminate].
  destruct (length _ <? 2)%nat; [discriminate|].
  destruct (remoteImage w ref); [discriminate|].
  destruct (MultiWriteToFile w _ _); [discriminate|].
  intros [= <-]. simpl. split; [done|]. split; [|eauto].
  by apply Join_nonempty, append_nonempty.
Qed.

End ImageRuns.

(** What [getImageReferences] returns.  The state is as before, and the
    record carries neither a reference nor an archive.  For a single image
    it has no children, its digest is that of the reference, synthesized
    from the digest of the image when the reference is a tag, and its media
    type and platform are those the image reports, where it reports them.
    For an index it has the media type of the index and one child per
    manifest, in the order of the index, with the digest reference, the
    media type and the platform of the manifest.  The digest references are
    built from the registry and the repository of the tag of the
    descriptor, those of the zero tag when the descriptor holds a digest. *)
Theorem getImageReferences_result `{R : Image.Registry} (w : Image.World)
    (referenceString : string) (s s' : Image.State)
    (references : Image.ImageReferenceInfo) :
  Image.getImageReferences w referenceString s = (s', Ok references) →
  s' = s ∧
  Image.Reference_ references = "" ∧ Image.Archive references = "" ∧
  ∃ ref descr,
    Image.ParseReference referenceString = Ok ref ∧
    Image.remoteGet w ref = Ok descr ∧
    let registry := Image.registryOf (Image.descRef descr) in
    let repository := Image.repositoryOf (Image.descRef descr) in
    if Image.descIsImage descr then
      Image.Images references = [] ∧
      ∃ im imageDigest dig,
        Image.descImage descr = Ok im ∧
        Image.imgDigest im = Ok imageDigest ∧
        (if Image.isTag (Image.descRef descr)
            && negb (Image.isDigest (Image.descRef descr))
         then Image.NewDigest
                (Image.digestReference registry repository imageDigest)
              = Ok dig
         else dig = Image.descRef descr) ∧
        Image.Digest references = Image.RefString dig ∧
        Image.MediaType references
        = match Image.imgMediaType im with Ok mt => mt | Err _ => "" end ∧
        (Image.Arch references, Image.OS_ references)
        = match Image.imgConfigFile im with
          | Ok conf => (Image.Architecture conf, Image.OS conf)
          | Err _ => ("", "")
          end
    else
      ∃ indexManifest,
        Image.descImageIndex descr = Ok (Ok indexManifest) ∧
        Image.Digest references
        = Image.digestReference registry repository (Image.descDigest descr) ∧
        Image.MediaType references = Image.imMediaType indexManifest ∧
        Image.Arch references = "" ∧ Image.OS_ references = "" ∧
        Forall2
          (λ manifest img, ∃ d,
             Image.NewDigest
               (Image.digestReference registry repository
                  (Image.mdDigest manifest)) = Ok d ∧
             img = Image.childOf (Image.RefString d) manifest)
          (Image.Manifests indexManifest) (Image.Images references).
Proof.
  intros Hrun.
  pose proof (keepsState_getImageReferences w _ _ _ _ Hrun) as ->.
  split; [done|]. unfold Image.getImageReferences in Hrun.
  apply bind_Ok in Hrun as (s1 & ref & Href & Hrun).
  apply wrapping_Ok in Href as [Href ->].
  apply bind_Ok in Hrun as (s2 & descr & Hdescr & Hrun).
  apply wrapping_Ok in Hdescr as [Hdescr ->].
  destruct (negb _ && negb _); [discriminate|].
  fold (Image.registryOf (Image.descRef descr)) in Hrun.
  fold (Image.repositoryOf (Image.descRef descr)) in Hrun.
  set (registry := Image.registryOf (Image.descRef descr)) in *.
  set (repository := Image.repositoryOf (Image.descRef descr)) in *.
  destruct (Image.descIsImage descr) eqn:Himage.
  - apply bind_Ok in Hrun as (s3 & im & Him & Hrun).
    apply wrapping_Ok in Him as [Him ->].
    apply bind_Ok in Hrun as (s4 & imageDigest & Hdig & Hrun).
    apply wrapping_Ok in Hdig as [Hdig ->].
    apply bind_Ok in Hrun as (s5 & dig & Hsyn & Hrun).
    injection Hrun as _ <-.
    assert (if Image.isTag (Image.descRef descr)
               && negb (Image.isDigest (Image.descRef descr))
            then Image.NewDigest
                   (Image.digestReference registry repository imageDigest)
                 = Ok dig
            else dig = Image.descRef descr) as Hsyn'.
    { destruct (_ && _).
      - by apply wrapping_Ok in Hsyn as [Hsyn _].
      - by injection Hsyn as _ <-. }
    destruct (Image.imgMediaType im) as [mt|] eqn:Hmt,
      (Image.imgConfigFile im) as [conf|] eqn:Hcf; simpl;
      (split; [done|]); (split; [done|]); exists ref, descr;
      rewrite Himage; (split; [done|]); (split; [done|]);
      (split; [done|]); exists im, imageDigest, dig;
      rewrite Hmt, Hcf; done.
  - apply bind_Ok in Hrun as (s3 & index & Hindex & Hrun).
    apply wrapping_Ok in Hindex as [Hindex ->].
    apply bind_Ok in Hrun as (s4 & indexManifest & Hman & Hrun).
    apply wrapping_Ok in Hman as [-> ->].
    apply bind_Ok in Hrun as (s5 & children & Hchildren & Hrun).
    injection Hrun as _ <-. simpl.
    apply indexImages_children in Hchildren as (out & -> & Hall).
    split; [done|]. split; [done|]. exists ref, descr. rewrite Himage.
    split; [done|]. split; [done|]. exists indexManifest. done.
Qed.

Section ResolverSample.
#[local] Existing Instance ImageSamples.sampleRegistry.

Lemma getImageReferences_result_witness :
  ImageSamples.emptyState = ImageSamples.emptyState ∧
  Image.Reference_ ImageSamples.resolvedIndex = "" ∧
  Image.Archive ImageSamples.resolvedIndex = "" ∧
  ∃ ref descr,
    Image.ParseReference "reg.io/app:v1" = Ok ref ∧
    Image.remoteGet ImageSamples.indexWorld ref = Ok descr ∧
    let registry := Image.registryOf (Image.descRef descr) in
    let repository := Image.repositoryOf (Image.descRef descr) in
    if Image.descIsImage descr then
      Image.Images ImageSamples.resolvedIndex = [] ∧
      ∃ im imageDigest dig,
        Image.descImage descr = Ok im ∧
        Image.imgDigest im = Ok imageDigest ∧
        (if Image.isTag (Image.descRef descr)
            && negb (Image.isDigest (Image.descRef descr))
         then Image.NewDigest
                (Image.digestReference registry repository imageDigest)
              = Ok dig
         else dig = Image.descRef descr) ∧
        Image.Digest ImageSamples.resolvedIndex = Image.RefString dig ∧
        Image.MediaType ImageSamples.resolvedIndex
        = match Image.imgMediaType im with Ok mt => mt | Err _ => "" end ∧
        (Image.Arch ImageSamples.resolvedIndex,
         Image.OS_ ImageSamples.resolvedIndex)
        = match Image.imgConfigFile im with
          | Ok conf => (Image.Architecture conf, Image.OS conf)
          | Err _ => ("", "")
          end
    else
      ∃ indexManifest,
        Image.descImageIndex descr = Ok (Ok indexManifest) ∧
        Image.Digest ImageSamples.resolvedIndex
        = Image.digestReference registry repository (Image.descDigest descr) ∧
        Image.MediaType ImageSamples.resolvedIndex
        = Image.imMediaType indexManifest ∧
        Image.Arch ImageSamples.resolvedIndex = "" ∧
        Image.OS_ ImageSamples.resolvedIndex = "" ∧
        Forall2
          (λ manifest img, ∃ d,
             Image.NewDigest
               (Image.digestReference registry repository
                  (Image.mdDigest manifest)) = Ok d ∧
             img = Image.childOf (Image.RefString d) manifest)
          (Image.Manifests indexManifest)
          (Image.Images ImageSamples.resolvedIndex).
Proof.
  apply (getImageReferences_result (R := ImageSamples.sampleRegistry)
           ImageSamples.indexWorld "reg.io/app:v1" ImageSamples.emptyState
           ImageSamples.emptyState ImageSamples.resolvedIndex).
  vm_compute. reflexivity.
Defined.

End ResolverSample.

(** What [PullImagesToArchive] returns for the record [references] of the
    resolver: the state as before, the record itself with new children, and
    as children those of the resolver, each exactly once, in whatever order
    the downloads finished, each with its archive set and otherwise as the
    resolver left it.  The archive is never the empty path. *)
Theorem PullImagesToArchive_children `{R : Image.Registry} (w : Image.World)
    (referenceString path : string) (s s1 s' : Image.State)
    (references pulled : Image.ImageReferenceInfo) :
  Image.getImageReferences w referenceString s = (s1, Ok references) →
  Image.PullImagesToArchive w referenceString path s = (s', Ok pulled) →
  s' = s ∧
  pulled = Image.setImages (Image.Images pulled) references ∧
  ∃ children,
    Image.Images pulled ≡ₚ children ∧
    Forall2
      (λ r r', Image.pullImage w path r = Ok r' ∧
               r' = Image.setArchive (Image.Archive r') r ∧
               Image.Archive r' ≠ "")
      (Image.Images references) children.
Proof.
  intros Hrefs Hrun.
  pose proof (keepsState_PullImagesToArchive w _ _ _ _ _ Hrun) as ->.
  split; [done|]. unfold Image.PullImagesToArchive in Hrun.
  apply bind_Ok in Hrun as (s2 & refs & Hrefs' & Hrun).
  rewrite Hrefs in Hrefs'. injection Hrefs' as <- <-.
  apply bind_Ok in Hrun as (s3 & _ & _ & Hrun).
  set (started := Image.pullImage w path <$> Image.Images references) in *.
  pose proof (completionOrder_Permutation (Image.schedule w) started) as Hperm.
  destruct (Image.taskErrors _) eqn:Herrs; [|discriminate].
  injection Hrun as _ <-. simpl. split; [done|].
  exists (Image.taskResults started).
  split; [by apply taskResults_Permutation|].
  assert (Image.taskErrors started = []) as Hnone.
  { apply Permutation_nil_r. rewrite <- Herrs.
    by apply taskErrors_Permutation. }
  apply taskErrors_nil in Hnone. unfold started in Hnone at 1.
  apply list_eq_Forall2 in Hnone. rewrite Forall2_fmap in Hnone.
  eapply Forall2_impl; [exact Hnone|]. intros r r' Hr. simpl in Hr.
  split; [done|]. apply pullImage_Archive in Hr as (Hr' & Hne & _). done.
Qed.

Lemma PullImagesToArchive_children_witness :
  ImageSamples.emptyState = ImageSamples.emptyState ∧
  ImageSamples.pulledIndex
  = Image.setImages (Image.Images ImageSamples.pulledIndex)
      ImageSamples.resolvedIndex ∧
  ∃ children,
    Image.Images ImageSamples.pulledIndex ≡ₚ children ∧
    Forall2
      (λ r r',
         Image.pullImage ImageSamples.indexWorld "/tmp/doc-build-1" r = Ok r' ∧
         r' = Image.setArchive (Image.Archive r') r ∧
         Image.Archive r' ≠ "")
      (Image.Images ImageSamples.resolvedIndex) children.
Proof.
  apply (PullImagesToArchive_children (R := ImageSamples.sampleRegistry)
           ImageSamples.indexWorld "reg.io/app:v1" "/tmp/doc-build-1"
           ImageSamples.emptyState ImageSamples.emptyState
           ImageSamples.emptyState ImageSamples.resolvedIndex
           ImageSamples.pulledIndex).
  - vm_compute. reflexivity.
  - vm_compute. reflexivity.
Defined.

(** When the download of a child fails, [PullImagesToArchive] returns no
    record and leaves the state as it was.  The error is the [multiError]
    of the throttler, made of the errors of the tasks in the order in which
    the tasks finished, that is of the errors of all the children whose
    download failed, each once: its text is the text of the first of them,
    followed by [" (and N more errors)"] when [N] more downloads failed,
    and it wraps none of them. *)
Theorem PullImagesToArchive_task_failure `{R : Image.Registry}
    (w : Image.World) (referenceString path : string) (s s1 : Image.State)
    (references r0 : Image.ImageReferenceInfo) (e0 : error) :
  Image.getImageReferences w referenceString s = (s1, Ok references) →
  Image.utilExists w path = true ∨ Image.MkdirAll w path = None →
  r0 ∈ Image.Images references →
  Image.pullImage w path r0 = Err e0 →
  ∃ r e more,
    r ∈ Image.Images references ∧
    Image.pullImage w path r = Err e ∧
    e :: more
    = Image.taskErrors
        (Image.completionOrder (Image.schedule w)
           (Image.pullImage w path <$> Image.Images references)) ∧
    e :: more
    ≡ₚ Image.taskErrors (Image.pullImage w path <$> Image.Images references) ∧
    Image.PullImagesToArchive w referenceString path s
    = (s, Err (Image.multiError e more)) ∧
    Image.multiError e more
    = errorString
        (Error e +:+
         match more with
         | [] => ""
         | _ :: _ =>
             " (and " +:+ Image.decimal (length more) +:+ " more errors)"
         end).
Proof.
  intros Hrefs Hdir Hin Hfail.
  pose proof (keepsState_getImageReferences w _ _ _ _ Hrefs) as ->.
  unfold Image.PullImagesToArchive, Image.bind at 1. rewrite Hrefs.
  assert ((if negb (Image.utilExists w path)
           then Image.wrappingErr "creating image directory: "
                  (Image.MkdirAll w path)
           else Image.ret tt) s = (s, Ok tt)) as Hmk.
  { destruct Hdir as [->| ->]; [done|]. by destruct (negb _). }
  unfold Image.bind. rewrite Hmk.
  set (started := Image.pullImage w path <$> Image.Images references).
  pose proof (completionOrder_Permutation (Image.schedule w) started) as Hperm.
  apply taskErrors_Permutation in Hperm.
  destruct (Image.taskErrors (Image.completionOrder _ _)) as [|e more]
    eqn:Herrs.
  - apply Permutation_nil_l in Hperm.
    assert (e0 ∈ Image.taskErrors started) as He0.
    { unfold Image.taskErrors. apply list_elem_of_omap.
      exists (Err e0). split; [|done]. rewrite <- Hfail.
      by apply list_elem_of_fmap_2. }
    rewrite <- Hperm in He0. by apply elem_of_nil in He0.
  - assert (e ∈ Image.taskErrors started) as He.
    { rewrite <- Hperm. by left. }
    unfold Image.taskErrors in He. apply list_elem_of_omap in He
      as ([v|e'] & Hin' & Hsome); [done|]. injection Hsome as ->.
    apply list_elem_of_fmap in Hin' as (r & Hr & Hinr).
    exists r, e, more. done.
Qed.

(** Both downloads of the index fail on a full disk: the error names the
    first failure and counts the other. *)
Lemma PullImagesToArchive_task_failure_witness :
  Error
    (Image.multiError
       (wrapError "writing image to disk: "
          (errorString "no space left on device"))
       [wrapError "writing image to disk: "
          (errorString "no space left on device")])
  = "writing image to disk: no space left on device (and 1 more errors)" ∧
  ∃ r e more,
    r ∈ Image.Images ImageSamples.resolvedIndex ∧
    Image.pullImage ImageSamples.fullDiskWorld "/tmp/doc-build-1" r = Err e ∧
    e :: more
    = Image.taskErrors
        (Image.completionOrder (Image.schedule ImageSamples.fullDiskWorld)
           (Image.pullImage ImageSamples.fullDiskWorld "/tmp/doc-build-1"
            <$> Image.Images ImageSamples.resolvedIndex)) ∧
    e :: more
    ≡ₚ Image.taskErrors
         (Image.pullImage ImageSamples.fullDiskWorld "/tmp/doc-build-1"
          <$> Image.Images ImageSamples.resolvedIndex) ∧
    Image.PullImagesToArchive ImageSamples.fullDiskWorld "reg.io/app:v1"
      "/tmp/doc-build-1" ImageSamples.emptyState
    = (ImageSamples.emptyState, Err (Image.multiError e more)) ∧
    Image.multiError e more
    = errorString
        (Error e +:+
         match more with
         | [] => ""
         | _ :: _ =>
             " (and " +:+ Image.decimal (length more) +:+ " more errors)"
         end).
Proof.
  split; [reflexivity|].
  apply (PullImagesToArchive_task_failure (R := ImageSamples.sampleRegistry)
           ImageSamples.fullDiskWorld "reg.io/app:v1" "/tmp/doc-build-1"
           ImageSamples.emptyState ImageSamples.emptyState
           ImageSamples.resolvedIndex
           (Image.mkImageReferenceInfo "reg.io/app@sha256:aaaa" "" "" "amd64"
              "linux" "application/vnd.oci.image.manifest.v1+json" [])
           (wrapError "writing image to disk: "
              (errorString "no space left on device"))).
  - vm_compute. reflexivity.
  - left. reflexivity.
  - apply elem_of_cons. by left.
  - vm_compute. reflexivity.
Defined.

(** The run of the witness: both downloads fail. *)
Example PullImagesToArchive_full_disk :
  (Image.PullImagesToArchive (H := ImageSamples.sampleRegistry)
     ImageSamples.fullDiskWorld "reg.io/app:v1" "/tmp/doc-build-1"
     ImageSamples.emptyState).2
  = Err (errorString
           "writing image to disk: no space left on device (and 1 more errors)").
Proof. vm_compute. reflexivity. Qed.

(** For a reference that resolves to a single image, [ImageRefToPackage]
    downloads and extracts nothing: [PullImagesToArchive] leaves the archive
    and the reference of the record empty, and the package returned is a new,
    empty package, with no more than the package URL [purlFromImage] gives
    for the record.  The one call it leaves is the removal of its work
    directory. *)
Theorem ImageRefToPackage_single_image `{R : Image.Registry}
    (w : Image.World) (ref : string) (opts : SPDX.Options) (tmpdir : string)
    (s s1 : Image.State) (references : Image.ImageReferenceInfo) :
  Image.MkdirTemp w = (tmpdir, None) →
  Image.PullImagesToArchive w ref tmpdir s = (s1, Ok references) →
  Image.Images references = [] →
  Image.Archive references = "" ∧ Image.Reference_ references = "" ∧
  Image.ImageRefToPackage w ref opts s
  = ({| Image.store :=
          Image.store s
          ++ [Image.attachPurl (Image.purlFromImage w references)
                SPDX.NewPackage];
        Image.calls := Image.calls s ++ [Image.CallRemoveAll tmpdir] |},
     Ok (length (Image.store s))).
Proof.
  intros Hmk Hpull Himages.
  pose proof (keepsState_PullImagesToArchive w _ _ _ _ _ Hpull) as ->.
  assert (Image.Archive references = "" ∧ Image.Reference_ references = "")
    as [Harchive Href].
  { unfold Image.PullImagesToArchive in Hpull.
    apply bind_Ok in Hpull as (s2 & refs & Hrefs & Hpull).
    apply getImageReferences_bare in Hrefs as [Hr Ha].
    apply bind_Ok in Hpull as (s3 & _ & _ & Hpull).
    destruct (Image.taskErrors _); [|discriminate].
    by injection Hpull as _ <-. }
  split; [done|]. split; [done|].
  unfold Image.ImageRefToPackage. rewrite Hmk.
  unfold Image.deferRemoveAll, Image.bind at 1, Image.wrapM.
  rewrite Hpull, Himages, Harchive. reflexivity.
Qed.

Lemma ImageRefToPackage_single_image_witness :
  Image.Archive ImageSamples.resolvedImage = "" ∧
  Image.Reference_ ImageSamples.resolvedImage = "" ∧
  Image.ImageRefToPackage ImageSamples.imageWorld "reg.io/app:v1"
    ImageSamples.analyzeOptions ImageSamples.emptyState
  = ({| Image.store := [SPDX.NewPackage];
        Image.calls := [Image.CallRemoveAll "/tmp/doc-build-1"] |},
     Ok 0%nat).
Proof.
  apply (ImageRefToPackage_single_image (R := ImageSamples.sampleRegistry)
           ImageSamples.imageWorld "reg.io/app:v1" ImageSamples.analyzeOptions
           "/tmp/doc-build-1" ImageSamples.emptyState ImageSamples.emptyState
           ImageSamples.resolvedImage).
  - reflexivity.
  - vm_compute. reflexivity.
  - reflexivity.
Defined.

(** ** The image assembler: layers and packages *)
Section LayerRuns.
Import Image.
Context `{R : Image.Registry} (w : Image.World).

Lemma bind_ext {A B} (m : M A) (k k' : A → M B) s :
  (∀ x s1, k x s1 = k' x s1) → bind m k s = bind m k' s.
Proof. intros Hk. unfold bind. by destruct (m s) as [s1 [x|e]]. Qed.

Lemma bind_assoc {A B C} (m : M A) (k : A → M B) (k' : B → M C) s :
  bind (bind m k) k' s = bind m (λ x, bind (k x) k') s.
Proof. unfold bind. by destruct (m s) as [s1 [x|e]]. Qed.

Lemma bind_ext_l {A B} (m m' : M A) (k : A → M B) s :
  (∀ s0, m s0 = m' s0) → bind m k s = bind m' k s.
Proof. intros Hm. unfold bind. by rewrite Hm. Qed.

(** A turn of the loop over the layers builds the package of the layer and
    nests it in the package of the image. *)
Lemma addLayers_cons opts tarOpts repoTag layerNum osData i layerFile
    layerFiles imagePackage s :
  addLayers w opts tarOpts repoTag layerNum osData i (layerFile :: layerFiles)
    imagePackage s
  = bind (layerPackage w opts tarOpts repoTag layerNum osData i layerFile)
      (λ pkg,
         let* imagePackage :=
           addPackage w "adding layer to image package: " pkg imagePackage in
         addLayers w opts tarOpts repoTag layerNum osData (i + 1) layerFiles
           imagePackage) s.
Proof.
  simpl. unfold layerPackage. rewrite bind_assoc. apply bind_ext.
  intros pkg s1. rewrite bind_assoc. apply bind_ext. intros pkg1 s2. done.
Qed.

Lemma addLayers_app opts tarOpts repoTag layerNum osData i l1 l2
    imagePackage s :
  addLayers w opts tarOpts repoTag layerNum osData i (l1 ++ l2) imagePackage s
  = bind (addLayers w opts tarOpts repoTag layerNum osData i l1 imagePackage)
      (λ p, addLayers w opts tarOpts repoTag layerNum osData
              (i + Z.of_nat (length l1)) l2 p) s.
Proof.
  revert i imagePackage s. induction l1 as [|lf l1 IH]; intros i p s.
  - simpl. by rewrite Z.add_0_r.
  - change ((lf :: l1) ++ l2) with (lf :: (l1 ++ l2)).
    rewrite addLayers_cons.
    etrans; [|symmetry; apply bind_ext_l; intros s0; apply addLayers_cons].
    rewrite bind_assoc. apply bind_ext. intros pkg s1.
    rewrite bind_assoc. apply bind_ext. intros p1 s2.
    rewrite IH. apply bind_ext. intros p2 s3.
    by replace (i + 1 + Z.of_nat (length l1))
      with (i + Z.of_nat (length (lf :: l1))) by (simpl; lia).
Qed.

(** Away from the layer the scanner names, the loop runs as without OS
    packages. *)
Lemma addLayers_no_OS opts tarOpts repoTag layerNum entries i layerFiles
    imagePackage s :
  layerNum < i ∨ i + Z.of_nat (length layerFiles) ≤ layerNum →
  addLayers w opts tarOpts repoTag layerNum (Some entries) i layerFiles
    imagePackage s
  = addLayers w opts tarOpts repoTag layerNum None i layerFiles
      imagePackage s.
Proof.
  revert i imagePackage s.
  induction layerFiles as [|lf l IH]; intros i p s Hout; [done|].
  rewrite !addLayers_cons.
  assert ((i =? layerNum) = false) as Hi.
  { apply Z.eqb_neq. simpl in Hout. lia. }
  unfold layerPackage. rewrite Hi.
  apply bind_ext. intros pkg s1. apply bind_ext. intros p1 s2.
  apply IH. simpl in Hout. lia.
Qed.

(** *** What the loops nest *)

Lemma addPackages_snoc p subs sub :
  addPackages p (subs ++ [sub]) = SPDX.AddPackage sub (addPackages p subs).
Proof. unfold addPackages. by rewrite fold_left_app. Qed.

Lemma addPackages_cons p sub subs :
  addPackages p (sub :: subs) = addPackages (SPDX.AddPackage sub p) subs.
Proof. done. Qed.

Lemma addPackages_fields p subs :
  SPDX.Packages (addPackages p subs) = SPDX.Packages p ++ subs ∧
  SPDX.ID (addPackages p subs) = SPDX.ID p ∧
  SPDX.Name (addPackages p subs) = SPDX.Name p ∧
  SPDX.WorkDir (addPackages p subs) = SPDX.WorkDir p ∧
  SPDX.Files (addPackages p subs) = SPDX.Files p ∧
  SPDX.FilesAnalyzed (addPackages p subs) = SPDX.FilesAnalyzed p.
Proof.
  revert p. induction subs as [|sub subs IH]; intros p.
  - simpl. by rewrite app_nil_r.
  - rewrite addPackages_cons.
    destruct (IH (SPDX.AddPackage sub p)) as (-> & -> & -> & -> & -> & ->).
    simpl. by rewrite <- app_assoc.
Qed.

Lemma addOSPackages_Ok entries pkg s s' p :
  addOSPackages w entries pkg s = (s', Ok p) →
  s' = s ∧ p = addPackages pkg (osPackage w (SPDX.ID pkg) <$> entries).
Proof.
  revert pkg s. induction entries as [|entry entries IH]; intros pkg s; simpl.
  - by intros [= <- <-].
  - intros Hrun. apply bind_Ok in Hrun as (s1 & p1 & Hadd & Hrun).
    unfold addPackage in Hadd.
    destruct (AddPackageErr w pkg _); [discriminate|].
    injection Hadd as <- <-. apply IH in Hrun as [-> ->]. done.
Qed.

(** *** Results that do not depend on the state *)

Lemma stateFree_ret {A} (v : A) : stateFree (ret v).
Proof. done. Qed.

Lemma stateFree_fail {A} e : stateFree (@fail A e).
Proof. done. Qed.

Lemma stateFree_call c : stateFree (call c).
Proof. done. Qed.

Lemma stateFree_wrapping {A} pre (r : result A) : stateFree (wrapping pre r).
Proof. by destruct r. Qed.

Lemma stateFree_bind {A B} (m : M A) (k : A → M B) :
  stateFree m → (∀ x, stateFree (k x)) → stateFree (bind m k).
Proof.
  intros Hm Hk s s'. unfold bind. specialize (Hm s s').
  destruct (m s) as [s1 [x|e]], (m s') as [s1' [x'|e']]; simpl in Hm;
    try discriminate.
  - injection Hm as <-. apply Hk.
  - by injection Hm as <-.
Qed.

Lemma stateFree_wrapM {A} pre (m : M A) : stateFree m → stateFree (wrapM pre m).
Proof.
  intros Hm s s'. unfold wrapM. specialize (Hm s s').
  destruct (m s) as [s1 [x|e]], (m s') as [s1' [x'|e']]; simpl in *;
    congruence.
Qed.

Lemma stateFree_deferRemoveAll {A} path (m : M A) :
  stateFree m → stateFree (deferRemoveAll path m).
Proof.
  intros Hm s s'. unfold deferRemoveAll. specialize (Hm s s').
  by destruct (m s), (m s').
Qed.

Lemma stateFree_addPackage pre sub p : stateFree (addPackage w pre sub p).
Proof. unfold addPackage. by destruct (AddPackageErr w p sub). Qed.

Lemma stateFree_addOSPackages entries pkg :
  stateFree (addOSPackages w entries pkg).
Proof.
  revert pkg. induction entries as [|entry entries IH]; intros pkg; simpl.
  - apply stateFree_ret.
  - apply stateFree_bind; [apply stateFree_addPackage|done].
Qed.

Lemma stateFree_PackageFromTarball opts tarOpts tarFile :
  stateFree (PackageFromTarball w opts tarOpts tarFile).
Proof.
  unfold PackageFromTarball.
  assert (∀ pkg, stateFree
            (match ReadSourceFile w
                     (SPDX.setWorkDir (SPDX.ExtractDir tarOpts) pkg)
                     tarFile with
             | (_, Some e) =>
                 fail (wrapError
                         ("reading source file " +:+ tarFile +:+ ": ") e)
             | (pkg, None) => ret pkg
             end)) as Hfinish.
  { intros pkg. by destruct (ReadSourceFile w _ tarFile) as [p [e|]]. }
  destruct (SPDX.AddFiles tarOpts); [|apply Hfinish].
  apply stateFree_bind; [apply stateFree_call|intros _].
  destruct (ExtractTarballTmp w tarFile) as [tmp [e|]];
    [apply stateFree_fail|].
  apply stateFree_deferRemoveAll.
  apply stateFree_bind; [apply stateFree_call|intros _].
  apply stateFree_bind; [apply stateFree_wrapping|intros pkg].
  apply Hfinish.
Qed.

Lemma stateFree_layerPackage opts tarOpts repoTag layerNum osData i layerFile :
  stateFree (layerPackage w opts tarOpts repoTag layerNum osData i layerFile).
Proof.
  unfold layerPackage.
  apply stateFree_bind; [|intros pkg].
  { apply stateFree_wrapM, stateFree_PackageFromTarball. }
  apply stateFree_bind; [|intros pkg1].
  { destruct (SPDX.AnalyzeLayers opts); [|apply stateFree_ret].
    apply stateFree_bind; [apply stateFree_call|intros _].
    by destruct (AnalyzeLayer w _ _) as [p [e|]]. }
  destruct osData; [|apply stateFree_ret].
  destruct (i =? layerNum);
    [apply stateFree_addOSPackages|apply stateFree_ret].
Qed.

(** The loop nests one package per layer file, in the order of the layer
    files: the package [layerPackage] builds for the file and its index. *)
Lemma addLayers_Ok opts tarOpts repoTag layerNum osData i layerFiles
    imagePackage s s' p :
  addLayers w opts tarOpts repoTag layerNum osData i layerFiles imagePackage s
  = (s', Ok p) →
  ∃ layers, length layers = length layerFiles ∧
            p = addPackages imagePackage layers ∧
            ∀ (k : nat) layerFile, layerFiles !! k = Some layerFile →
              ∃ layer, layers !! k = Some layer ∧
                ∀ s0, (layerPackage w opts tarOpts repoTag layerNum osData
                         (i + Z.of_nat k) layerFile s0).2 = Ok layer.
Proof.
  revert i imagePackage s.
  induction layerFiles as [|lf l IH]; intros i imagePackage s.
  - intros [= _ <-]. exists []. split; [done|]. split; [done|].
    intros k layerFile Hk. by rewrite lookup_nil in Hk.
  - rewrite addLayers_cons. intros Hrun.
    apply bind_Ok in Hrun as (s1 & pkg & Hpkg & Hrun).
    apply bind_Ok in Hrun as (s2 & p1 & Hadd & Hrun).
    unfold addPackage in Hadd.
    destruct (AddPackageErr w imagePackage pkg); [discriminate|].
    injection Hadd as _ <-.
    apply IH in Hrun as (layers & Hlen & -> & Hlayers).
    exists (pkg :: layers). split; [simpl; lia|]. split; [done|].
    intros [|k] layerFile Hk; simpl in Hk.
    + injection Hk as <-. exists pkg. split; [done|]. intros s0.
      rewrite Z.add_0_r.
      rewrite (stateFree_layerPackage _ _ _ _ _ _ _ s0 s). by rewrite Hpkg.
    + destruct (Hlayers k layerFile Hk) as (layer & Hlayer & Hres).
      exists layer. split; [done|]. intros s0.
      replace (i + Z.of_nat (S k)) with (i + 1 + Z.of_nat k) by lia.
      apply Hres.
Qed.

(** *** The calls of the clean-up *)

Lemma deferRemoveAll_calls {A} path (m : M A) s s' r :
  deferRemoveAll path m s = (s', r) →
  ∃ s1, m s = (s1, r) ∧ store s' = store s1 ∧
        calls s' = calls s1 ++ [CallRemoveAll path].
Proof.
  unfold deferRemoveAll. destruct (m s) as [s1 r1].
  intros [= <- <-]. eauto.
Qed.

Lemma callsOnly_True {A} (m : M A) s s' r :
  callsOnly (λ _, True) m → m s = (s', r) → ∃ new, calls s' = calls s ++ new.
Proof. intros Hm Hrun. destruct (Hm _ _ _ Hrun) as (new & -> & _). eauto. Qed.

Lemma callsOnly_PackageFromTarball P opts tarOpts tarFile :
  (∀ c, P c) → callsOnly P (PackageFromTarball w opts tarOpts tarFile).
Proof.
  intros HP. unfold PackageFromTarball.
  assert (∀ pkg, callsOnly P
            (match ReadSourceFile w
                     (SPDX.setWorkDir (SPDX.ExtractDir tarOpts) pkg)
                     tarFile with
             | (_, Some e) =>
                 fail (wrapError
                         ("reading source file " +:+ tarFile +:+ ": ") e)
             | (pkg, None) => ret pkg
             end)) as Hfinish.
  { intros pkg. destruct (ReadSourceFile w _ tarFile) as [p [e|]];
      [apply callsOnly_fail|apply callsOnly_ret]. }
  destruct (SPDX.AddFiles tarOpts); [|apply Hfinish].
  apply callsOnly_bind; [by apply callsOnly_call|intros _].
  destruct (ExtractTarballTmp w tarFile) as [tmp [e|]];
    [apply callsOnly_fail|].
  apply callsOnly_deferRemoveAll; [done|].
  apply callsOnly_bind; [by apply callsOnly_call|intros _].
  apply callsOnly_bind; [apply callsOnly_wrapping|intros pkg].
  apply Hfinish.
Qed.

Lemma callsOnly_addLayers P opts tarOpts repoTag layerNum osData i layerFiles
    imagePackage :
  (∀ c, P c) →
  callsOnly P (addLayers w opts tarOpts repoTag layerNum osData i layerFiles
                 imagePackage).
Proof.
  intros HP. revert i imagePackage.
  induction layerFiles as [|layerFile layerFiles IH]; intros i imagePackage;
    simpl.
  - apply callsOnly_ret.
  - apply callsOnly_bind; [|intros pkg].
    { by apply callsOnly_wrapM, callsOnly_PackageFromTarball. }
    apply callsOnly_bind; [|intros pkg1].
    { destruct (SPDX.AnalyzeLayers opts); [|apply callsOnly_ret].
      apply callsOnly_bind; [by apply callsOnly_call|intros _].
      destruct (AnalyzeLayer w _ _) as [p [e|]];
        [apply callsOnly_fail|apply callsOnly_ret]. }
    apply callsOnly_bind; [|intros pkg2].
    { destruct osData; [|apply callsOnly_ret].
      destruct (i =? layerNum);
        [apply callsOnly_addOSPackages|apply callsOnly_ret]. }
    apply callsOnly_bind; [apply callsOnly_addPackage|intros p; apply IH].
Qed.

End LayerRuns.

Section IndexRoot.
Import Image.
Context `{R : Image.Registry} (w : Image.World).

Lemma addContains_fields p subs :
  SPDX.ID (addContains p subs) = SPDX.ID p ∧
  SPDX.Name (addContains p subs) = SPDX.Name p ∧
  SPDX.DownloadLocation (addContains p subs) = SPDX.DownloadLocation p ∧
  SPDX.ExternalRefs (addContains p subs) = SPDX.ExternalRefs p ∧
  SPDX.Packages (addContains p subs) = SPDX.Packages p ∧
  SPDX.Files (addContains p subs) = SPDX.Files p.
Proof.
  revert p. induction subs as [|c subs IH]; intros p; [done|].
  unfold addContains in *. simpl.
  by destruct (IH (SPDX.AddRelationship (SPDX.containsRel c) p))
    as (-> & -> & -> & -> & -> & ->).
Qed.

Lemma ImageRefToPackage_index_rootPkg opts ref tmpdir s s1 s' references root :
  MkdirTemp w = (tmpdir, None) →
  PullImagesToArchive w ref tmpdir s = (s1, Ok references) →
  Images references ≠ [] →
  ImageRefToPackage w ref opts s = (s', Ok root) →
  ∃ indexDigest,
    NewDigest (Digest references) = Ok indexDigest ∧
    store s' !! root
    = Some (attachPurl
              (purlFromImage w (mkImageReferenceInfo "" ref "" "" "" "" []))
              (addContains (indexPackage w indexDigest references)
                 (seq (S root) (length (Images references))))).
Proof.
  intros Hmk Hpull Himages. unfold ImageRefToPackage. rewrite Hmk.
  intros Hrun.
  apply deferRemoveAll_Ok in Hrun as (s2 & Hrun & Hs').
  apply bind_Ok in Hrun as (s3 & refs & Hpull' & Hrun).
  apply wrapM_Ok in Hpull'. rewrite Hpull in Hpull'.
  injection Hpull' as <- <-.
  pose proof (keepsStore_PullImagesToArchive w _ _ _ _ _ Hpull) as Hs1.
  destruct (length (Images references) =? 0)%nat eqn:Hlen.
  { apply Nat.eqb_eq in Hlen. by destruct (Images references). }
  clear Hlen. rewrite bind_alloc in Hrun.
  apply bind_Ok in Hrun as (s4 & indexDigest & Hdig & Hrun).
  apply wrapping_Ok in Hdig as [Hdig ->].
  rewrite !bind_update in Hrun. simpl in Hrun.
  set (L := length (store s1)) in *.
  assert (∃ sA,
            store sA = store s1 ++ [indexPackage w indexDigest references] ∧
            bind (addVariants w opts ref L (Images references))
              (λ _, bind (update L
                            (attachPurl
                               (purlFromImage w
                                  (mkImageReferenceInfo "" ref "" "" "" "" []))))
                      (λ _, ret L)) sA = (s2, Ok root))
    as (sA & HsA & Hrun').
  { unfold indexPackage.
    destruct (negb (String.eqb (Digest references) "")).
    - rewrite bind_update in Hrun. simpl in Hrun.
      eexists. split; [|exact Hrun]. simpl.
      unfold L. by rewrite !(alter_snoc _ _ _ _ eq_refl).
    - eexists. split; [|exact Hrun]. simpl.
      unfold L. by rewrite !(alter_snoc _ _ _ _ eq_refl). }
  clear Hrun.
  apply bind_Ok in Hrun' as (sB & [] & Hloop & Hrun).
  rewrite bind_update in Hrun. injection Hrun as <- <-.
  assert (store sA !! L = Some (indexPackage w indexDigest references))
    as HrootA.
  { rewrite HsA, lookup_app_r by (unfold L; lia).
    unfold L. by rewrite Nat.sub_diag. }
  destruct (addVariants_Ok w _ _ _ _ _ _ _ Hloop HrootA)
    as (HlenB & _ & HrootB & _).
  assert (length (store sA) = S L) as HlenA.
  { rewrite HsA, length_app. simpl. unfold L. lia. }
  rewrite HlenA in HrootB.
  exists indexDigest. split; [done|].
  rewrite Hs'. simpl. by rewrite list_lookup_alter_eq, HrootB.
Qed.

End IndexRoot.

(** [ImageRefToPackage] removes the work directory it created on every
    path: whatever the run returns, its last call is the removal of the
    directory.  When the directory cannot be created, nothing else is
    attempted. *)
Theorem ImageRefToPackage_removes_workdir `{R : Image.Registry}
    (w : Image.World) (ref : string) (opts : SPDX.Options)
    (s s' : Image.State) (r : result nat) :
  Image.ImageRefToPackage w ref opts s = (s', r) →
  match Image.MkdirTemp w with
  | (tmpdir, None) =>
      last (Image.calls s') = Some (Image.CallRemoveAll tmpdir)
  | (_, Some e) =>
      s' = s ∧ r = Err (wrapError "creating temporary workdir in: " e)
  end.
Proof.
  unfold Image.ImageRefToPackage.
  destruct (Image.MkdirTemp w) as [tmpdir [e|]].
  - by intros [= <- <-].
  - intros (s1 & _ & _ & ->)%deferRemoveAll_calls. apply last_snoc.
Qed.

Lemma ImageRefToPackage_removes_workdir_witness :
  last (Image.calls ImageSamples.indexRun.1)
  = Some (Image.CallRemoveAll "/tmp/doc-build-1").
Proof.
  apply (ImageRefToPackage_removes_workdir (R := ImageSamples.sampleRegistry)
           ImageSamples.indexWorld "reg.io/app:v1" ImageSamples.analyzeOptions
           ImageSamples.emptyState ImageSamples.indexRun.1
           ImageSamples.indexRun.2).
  vm_compute. reflexivity.
Defined.

(** The calls of [PackageFromTarball], in full.  Without [AddFiles] it
    makes none.  With [AddFiles] it extracts the archive once; when the
    extraction fails it stops there, with the error wrapped, and removes
    nothing; when the extraction succeeds it scans the directory once and
    removes it at the end, whether the scan and the reading of the source
    file succeed or not.  The store of packages is as before. *)
Theorem PackageFromTarball_calls `{R : Image.Registry} (w : Image.World)
    (opts : SPDX.Options) (tarOpts : SPDX.TarballOptions) (tarFile : string)
    (s s' : Image.State) (r : result SPDX.Package) :
  Image.PackageFromTarball w opts tarOpts tarFile s = (s', r) →
  Image.store s' = Image.store s ∧
  Image.calls s'
  = Image.calls s ++
    (if SPDX.AddFiles tarOpts then
       Image.CallExtractTarballTmp tarFile ::
       match Image.ExtractTarballTmp w tarFile with
       | (tmp, None) =>
           [Image.CallPackageFromDirectory tmp; Image.CallRemoveAll tmp]
       | (_, Some _) => []
       end
     else []) ∧
  match Image.ExtractTarballTmp w tarFile with
  | (_, Some e) =>
      SPDX.AddFiles tarOpts = true →
      r = Err (wrapError "extracting tarball to temporary archive: " e)
  | (_, None) => True
  end.
Proof.
  intros Hrun.
  split; [by eapply keepsStore_PackageFromTarball|].
  unfold Image.PackageFromTarball in Hrun.
  destruct (SPDX.AddFiles tarOpts).
  - unfold Image.bind at 1, Image.call in Hrun.
    destruct (Image.ExtractTarballTmp w tarFile) as [tmp [e|]].
    + injection Hrun as <- <-. done.
    + apply deferRemoveAll_calls in Hrun as (s1 & Hrun & _ & ->).
      split; [|done].
      unfold Image.bind at 1, Image.call in Hrun.
      assert (Image.calls s1
              = (Image.calls s ++ [Image.CallExtractTarballTmp tarFile])
                ++ [Image.CallPackageFromDirectory tmp]) as ->.
      { unfold Image.bind in Hrun.
        destruct (Image.PackageFromDirectory w opts tmp) as [pkg|e];
          simpl in Hrun.
        - destruct (Image.ReadSourceFile w _ tarFile) as [p [e|]];
            by injection Hrun as <- _.
        - by injection Hrun as <- _. }
      by rewrite <- !app_assoc.
  - split.
    + destruct (Image.ReadSourceFile w _ tarFile) as [p [e|]];
        injection Hrun as <- _; by rewrite app_nil_r.
    + by destruct (Image.ExtractTarballTmp w tarFile) as [tmp [e|]].
Qed.

Lemma PackageFromTarball_calls_witness :
  Image.store
    (Image.PackageFromTarball ImageSamples.indexWorld
       ImageSamples.analyzeOptions
       {| SPDX.AddFiles := true; SPDX.ExtractDir := "/tmp/x" |}
       "/tmp/x/layer0.tar" ImageSamples.emptyState).1 = [] ∧
  Image.calls
    (Image.PackageFromTarball ImageSamples.indexWorld
       ImageSamples.analyzeOptions
       {| SPDX.AddFiles := true; SPDX.ExtractDir := "/tmp/x" |}
       "/tmp/x/layer0.tar" ImageSamples.emptyState).1
  = [Image.CallExtractTarballTmp "/tmp/x/layer0.tar";
     Image.CallPackageFromDirectory "/tmp/spdx-tar-extract-1";
     Image.CallRemoveAll "/tmp/spdx-tar-extract-1"] ∧
  True.
Proof.
  apply (PackageFromTarball_calls (R := ImageSamples.sampleRegistry)
           ImageSamples.indexWorld ImageSamples.analyzeOptions
           {| SPDX.AddFiles := true; SPDX.ExtractDir := "/tmp/x" |}
           "/tmp/x/layer0.tar" ImageSamples.emptyState _
           (Image.PackageFromTarball ImageSamples.indexWorld
              ImageSamples.analyzeOptions
              {| SPDX.AddFiles := true; SPDX.ExtractDir := "/tmp/x" |}
              "/tmp/x/layer0.tar" ImageSamples.emptyState).2).
  by destruct (Image.PackageFromTarball _ _ _ _ _).
Defined.

(** The clean-up of [PackageFromImageTarball].  For the empty path it does
    nothing.  Otherwise its first call is the extraction of the archive;
    when the extraction fails it is the only call, the error comes back
    wrapped and nothing is removed; when the extraction succeeds the last
    call is the removal of the directory of the extraction, whatever the
    run returns. *)
Theorem PackageFromImageTarball_cleanup `{R : Image.Registry}
    (w : Image.World) (spdxOpts : SPDX.Options) (tarPath : string)
    (s s' : Image.State) (r : result SPDX.Package) :
  Image.PackageFromImageTarball w spdxOpts tarPath s = (s', r) →
  if String.eqb tarPath "" then
    s' = s ∧ r = Err (errorString "tar path empty")
  else
    match Image.ExtractTarballTmp w tarPath with
    | (extractDir, None) =>
        ∃ mid,
          Image.calls s'
          = Image.calls s ++ Image.CallExtractTarballTmp tarPath :: mid
            ++ [Image.CallRemoveAll extractDir]
    | (_, Some e) =>
        Image.calls s'
        = Image.calls s ++ [Image.CallExtractTarballTmp tarPath] ∧
        r = Err (wrapError "extracting tarball to temp dir: " e)
    end.
Proof.
  unfold Image.PackageFromImageTarball.
  destruct (String.eqb tarPath ""); [by intros [= <- <-]|].
  unfold Image.bind at 1, Image.call.
  destruct (Image.ExtractTarballTmp w tarPath) as [extractDir [e|]].
  { by intros [= <- <-]. }
  intros (s1 & Hrun & _ & ->)%deferRemoveAll_calls.
  match type of Hrun with
  | ?m _ = _ => assert (Image.callsOnly (λ _, True) m) as Hcalls
  end.
  { apply callsOnly_bind; [apply callsOnly_wrapping|intros manifest].
    destruct (Image.RepoTags manifest) as [|repoTag tags];
      [apply callsOnly_fail|].
    destruct (String.eqb repoTag ""); [apply callsOnly_fail|].
    apply callsOnly_bind; [|intros scan; by apply callsOnly_addLayers].
    destruct (SPDX.ScanImages spdxOpts); [|apply callsOnly_ret].
    apply callsOnly_bind; [by apply callsOnly_call|intros _].
    apply callsOnly_wrapping. }
  apply Hcalls in Hrun as (mid & -> & _). simpl.
  exists mid. by rewrite <- !app_assoc.
Qed.

Lemma PackageFromImageTarball_cleanup_witness :
  ∃ mid,
    Image.calls
      (Image.PackageFromImageTarball ImageSamples.indexWorld
         ImageSamples.analyzeOptions "image.tar" ImageSamples.emptyState).1
    = Image.calls ImageSamples.emptyState
      ++ Image.CallExtractTarballTmp "image.tar" :: mid
      ++ [Image.CallRemoveAll "/tmp/spdx-tar-extract-1"].
Proof.
  apply (PackageFromImageTarball_cleanup (R := ImageSamples.sampleRegistry)
           ImageSamples.indexWorld ImageSamples.analyzeOptions "image.tar"
           ImageSamples.emptyState _
           (Image.PackageFromImageTarball ImageSamples.indexWorld
              ImageSamples.analyzeOptions "image.tar"
              ImageSamples.emptyState).2).
  by destruct (Image.PackageFromImageTarball _ _ _ _).
Defined.

(** The package [PackageFromImageTarball] returns: the archive was
    extracted and its manifest read; the package is named after the first
    repo tag of the manifest, which is not empty; its work directory is the
    directory of the extraction; its ID is built from its name; and its
    sub-packages are the packages of the layers, one per layer file of the
    manifest, in order: the sub-package at the index [k] is the package a
    turn of the loop builds for the layer file at the index [k], with the
    options of the layers and what the scan for OS packages returned, if
    there was one.  It has no file, no relationship and no external
    reference of its own. *)
Theorem PackageFromImageTarball_package `{R : Image.Registry}
    (w : Image.World) (spdxOpts : SPDX.Options) (tarPath : string)
    (s s' : Image.State) (p : SPDX.Package) :
  Image.PackageFromImageTarball w spdxOpts tarPath s = (s', Ok p) →
  ∃ extractDir manifest repoTag scan,
    tarPath ≠ "" ∧
    Image.ExtractTarballTmp w tarPath = (extractDir, None) ∧
    Image.ReadArchiveManifest w
      (filepath.Join extractDir Image.archiveManifestFilename) = Ok manifest ∧
    head (Image.RepoTags manifest) = Some repoTag ∧ repoTag ≠ "" ∧
    (if SPDX.ScanImages spdxOpts
     then Image.ReadOSPackages w
            (filepath.Join extractDir <$> Image.LayerFiles manifest) = Ok scan
     else scan = (0, None)) ∧
    SPDX.Name p = repoTag ∧
    SPDX.WorkDir p = extractDir ∧
    SPDX.ID p
    = Image.BuildID w
        (SPDX.setName repoTag (SPDX.setWorkDir extractDir SPDX.NewPackage))
        [repoTag] ∧
    length (SPDX.Packages p) = length (Image.LayerFiles manifest) ∧
    (∀ (k : nat) (layerFile : string),
       Image.LayerFiles manifest !! k = Some layerFile →
       ∃ layer,
         SPDX.Packages p !! k = Some layer ∧
         ∀ s0,
           (Image.layerPackage w spdxOpts
              {| SPDX.AddFiles :=
                   SPDX.AddTarFiles spdxOpts
                   && negb (SPDX.AnalyzeLayers spdxOpts);
                 SPDX.ExtractDir := extractDir |}
              repoTag scan.1 scan.2 (Z.of_nat k) layerFile s0).2
           = Ok layer) ∧
    SPDX.Files p = [] ∧ SPDX.Relationships p = [] ∧ SPDX.ExternalRefs p = [].
Proof.
  intros Hrun.
  pose proof (PackageFromImageTarball_links w _ _ _ _ _ Hrun) as [Hrel Hext].
  unfold Image.PackageFromImageTarball in Hrun.
  destruct (String.eqb tarPath "") eqn:Hpath; [discriminate|].
  apply String.eqb_neq in Hpath.
  apply bind_Ok in Hrun as (s1 & _ & _ & Hrun).
  destruct (Image.ExtractTarballTmp w tarPath) as [extractDir [e|]];
    [discriminate|].
  apply deferRemoveAll_Ok in Hrun as (s2 & Hrun & _).
  apply bind_Ok in Hrun as (s3 & manifest & Hman & Hrun).
  apply wrapping_Ok in Hman as [Hman ->].
  destruct (Image.RepoTags manifest) as [|repoTag tags] eqn:Htags;
    [discriminate|].
  destruct (String.eqb repoTag "") eqn:Htag; [discriminate|].
  apply String.eqb_neq in Htag.
  apply bind_Ok in Hrun as (s4 & scan & Hscan & Hrun).
  assert (if SPDX.ScanImages spdxOpts
          then Image.ReadOSPackages w
                 (filepath.Join extractDir <$> Image.LayerFiles manifest)
               = Ok scan
          else scan = (0, None)) as Hscan'.
  { destruct (SPDX.ScanImages spdxOpts).
    - apply bind_Ok in Hscan as (s5 & _ & _ & Hscan).
      by apply wrapping_Ok in Hscan as [Hscan _].
    - by injection Hscan as _ <-. }
  apply addLayers_Ok in Hrun as (layers & Hlen & -> & Hlayers).
  destruct (addPackages_fields
              (Image.buildID w
                 [SPDX.Name
                    (SPDX.setName repoTag
                       (SPDX.setWorkDir extractDir SPDX.NewPackage))]
                 (SPDX.setName repoTag
                    (SPDX.setWorkDir extractDir SPDX.NewPackage))) layers)
    as (Hpk & Hid & Hname & Hwd & Hfiles & _).
  exists extractDir, manifest, repoTag, scan.
  rewrite Hid, Hname, Hwd, Hfiles, Hpk, Htags. simpl.
  split_and!; done.
Qed.

Lemma PackageFromImageTarball_package_witness :
  ∃ extractDir manifest repoTag scan,
    "image.tar" ≠ "" ∧
    Image.ExtractTarballTmp ImageSamples.twoLayerWorld "image.tar"
    = (extractDir, None) ∧
    Image.ReadArchiveManifest ImageSamples.twoLayerWorld
      (filepath.Join extractDir Image.archiveManifestFilename) = Ok manifest ∧
    head (Image.RepoTags manifest) = Some repoTag ∧ repoTag ≠ "" ∧
    (if SPDX.ScanImages ImageSamples.scanOptions
     then Image.ReadOSPackages ImageSamples.twoLayerWorld
            (filepath.Join extractDir <$> Image.LayerFiles manifest) = Ok scan
     else scan = (0, None)) ∧
    SPDX.Name ImageSamples.layeredPackage = repoTag ∧
    SPDX.WorkDir ImageSamples.layeredPackage = extractDir ∧
    SPDX.ID ImageSamples.layeredPackage
    = Image.BuildID ImageSamples.twoLayerWorld
        (SPDX.setName repoTag (SPDX.setWorkDir extractDir SPDX.NewPackage))
        [repoTag] ∧
    length (SPDX.Packages ImageSamples.layeredPackage)
    = length (Image.LayerFiles manifest) ∧
    (∀ (k : nat) (layerFile : string),
       Image.LayerFiles manifest !! k = Some layerFile →
       ∃ layer,
         SPDX.Packages ImageSamples.layeredPackage !! k = Some layer ∧
         ∀ s0,
           (Image.layerPackage ImageSamples.twoLayerWorld
              ImageSamples.scanOptions
              {| SPDX.AddFiles :=
                   SPDX.AddTarFiles ImageSamples.scanOptions
                   && negb (SPDX.AnalyzeLayers ImageSamples.scanOptions);
                 SPDX.ExtractDir := extractDir |}
              repoTag scan.1 scan.2 (Z.of_nat k) layerFile s0).2
           = Ok layer) ∧
    SPDX.Files ImageSamples.layeredPackage = [] ∧
    SPDX.Relationships ImageSamples.layeredPackage = [] ∧
    SPDX.ExternalRefs ImageSamples.layeredPackage = [].
Proof.
  apply (PackageFromImageTarball_package (R := ImageSamples.sampleRegistry)
           ImageSamples.twoLayerWorld ImageSamples.scanOptions "image.tar"
           ImageSamples.emptyState
           (Image.PackageFromImageTarball ImageSamples.twoLayerWorld
              ImageSamples.scanOptions "image.tar"
              ImageSamples.emptyState).1
           ImageSamples.layeredPackage).
  vm_compute. reflexivity.
Defined.

(** When the scanner of OS packages names a layer that the manifest does
    not list, a negative number or one past the last layer, the packages it
    found are dropped without notice: the loop over the layers runs as it
    would without them. *)
Theorem addLayers_OS_packages_out_of_range `{R : Image.Registry}
    (w : Image.World) (spdxOpts : SPDX.Options)
    (tarOpts : SPDX.TarballOptions) (repoTag : string) (layerNum : Z)
    (entries : list Image.PackageDBEntry) (layerFiles : list string)
    (imagePackage : SPDX.Package) (s : Image.State) :
  layerNum < 0 ∨ Z.of_nat (length layerFiles) ≤ layerNum →
  Image.addLayers w spdxOpts tarOpts repoTag layerNum (Some entries) 0
    layerFiles imagePackage s
  = Image.addLayers w spdxOpts tarOpts repoTag layerNum None 0 layerFiles
      imagePackage s.
Proof. intros Hout. apply addLayers_no_OS. lia. Qed.

Lemma addLayers_OS_packages_out_of_range_witness :
  Image.addLayers ImageSamples.indexWorld ImageSamples.scanOptions
    {| SPDX.AddFiles := false; SPDX.ExtractDir := "/tmp/x" |}
    "reg.io/app:aaaa" 1 (Some [ImageSamples.bash]) 0 ["layer0.tar"]
    SPDX.NewPackage ImageSamples.emptyState
  = Image.addLayers ImageSamples.indexWorld ImageSamples.scanOptions
      {| SPDX.AddFiles := false; SPDX.ExtractDir := "/tmp/x" |}
      "reg.io/app:aaaa" 1 None 0 ["layer0.tar"]
      SPDX.NewPackage ImageSamples.emptyState.
Proof.
  apply (addLayers_OS_packages_out_of_range
           (R := ImageSamples.sampleRegistry) ImageSamples.indexWorld
           ImageSamples.scanOptions
           {| SPDX.AddFiles := false; SPDX.ExtractDir := "/tmp/x" |}
           "reg.io/app:aaaa" 1 [ImageSamples.bash] ["layer0.tar"]
           SPDX.NewPackage ImageSamples.emptyState).
  right. simpl. lia.
Defined.

(** The OS packages go to one layer only.  For a manifest whose layers are
    [pre], [layerFile] and [post], the scanner naming [layerFile], the loop
    treats the layers of [pre] and of [post] as it would without OS
    packages, and gives the OS packages to the package of [layerFile]
    alone. *)
Theorem addLayers_OS_packages_one_layer `{R : Image.Registry}
    (w : Image.World) (spdxOpts : SPDX.Options)
    (tarOpts : SPDX.TarballOptions) (repoTag : string)
    (entries : list Image.PackageDBEntry) (pre post : list string)
    (layerFile : string) (imagePackage : SPDX.Package) (s : Image.State) :
  let layerNum := Z.of_nat (length pre) in
  Image.addLayers w spdxOpts tarOpts repoTag layerNum (Some entries) 0
    (pre ++ layerFile :: post) imagePackage s
  = Image.bind
      (Image.addLayers w spdxOpts tarOpts repoTag layerNum None 0 pre
         imagePackage)
      (λ imagePackage,
         Image.bind
           (Image.layerPackage w spdxOpts tarOpts repoTag layerNum
              (Some entries) layerNum layerFile)
           (λ pkg,
              Image.bind
                (Image.addPackage w "adding layer to image package: " pkg
                   imagePackage)
                (λ imagePackage,
                   Image.addLayers w spdxOpts tarOpts repoTag layerNum None
                     (layerNum + 1) post imagePackage))) s.
Proof.
  intros layerNum. rewrite addLayers_app. rewrite Z.add_0_l. fold layerNum.
  etrans; [apply bind_ext_l; intros s0; apply addLayers_no_OS; lia|].
  apply bind_ext. intros p1 s1. rewrite addLayers_cons.
  apply bind_ext. intros pkg s2. apply bind_ext. intros p2 s3.
  apply addLayers_no_OS. lia.
Qed.

Lemma append_empty (a : string) : a +:+ "" = a.
Proof.
  induction a as [|c a IH]; [done|].
  change (String c (a +:+ "") = String c a). by rewrite IH.
Qed.

(** The OS packages of a layer.  When the loop over the entries of the
    database succeeds, the package of the layer has gained one sub-package
    per entry, in the order of the database and after those it had, and is
    otherwise unchanged.  The sub-package of an entry has the name, the
    version and the home page of the entry; as supplier the maintainer,
    with the e-mail address in brackets when there is one, and no supplier
    for an entry without a maintainer name, even one with an e-mail
    address; the package URL of the entry as its only external reference,
    when it is not empty; and an ID built from the ID of the layer. *)
Theorem addOSPackages_result `{R : Image.Registry} (w : Image.World)
    (entries : list Image.PackageDBEntry) (pkg : SPDX.Package)
    (s s' : Image.State) (p : SPDX.Package) :
  Image.addOSPackages w entries pkg s = (s', Ok p) →
  s' = s ∧
  p = Image.addPackages pkg (Image.osPackage w (SPDX.ID pkg) <$> entries) ∧
  SPDX.Packages p
  = SPDX.Packages pkg ++ (Image.osPackage w (SPDX.ID pkg) <$> entries) ∧
  SPDX.ID p = SPDX.ID pkg ∧
  Forall
    (λ entry,
       let sub := Image.osPackage w (SPDX.ID pkg) entry in
       SPDX.Name sub = Image.dbPackage entry ∧
       SPDX.Version sub = Image.dbVersion entry ∧
       SPDX.HomePage sub = Image.dbHomePage entry ∧
       SPDX.SupplierPerson sub = Image.supplierOf entry ∧
       SPDX.ExternalRefs sub
       = (if String.eqb (Image.dbPackageURL entry) "" then []
          else [SPDX.purlRef (Image.dbPackageURL entry)]) ∧
       SPDX.ID sub = Image.BuildID w (SPDX.setID "" sub) [SPDX.ID pkg])
    entries.
Proof.
  intros Hrun. apply addOSPackages_Ok in Hrun as [-> ->].
  destruct (addPackages_fields pkg (Image.osPackage w (SPDX.ID pkg) <$> entries))
    as (Hpk & Hid & _).
  split; [done|]. split; [done|]. split; [done|]. split; [done|].
  apply Forall_forall. intros entry _. unfold Image.osPackage, Image.supplierOf,
    Image.attachPurl, Image.buildID.
  destruct (String.eqb (Image.dbMaintainerName entry) ""),
    (String.eqb (Image.dbMaintainerEmail entry) ""),
    (String.eqb (Image.dbPackageURL entry) ""); simpl;
    rewrite ?append_empty; done.
Qed.

Lemma addOSPackages_result_witness :
  let w := ImageSamples.indexWorld in
  let pkg := SPDX.setID "SPDXRef-Package-layer0" SPDX.NewPackage in
  let entries := [ImageSamples.bash] in
  let p := Image.addPackages pkg (Image.osPackage w (SPDX.ID pkg) <$> entries) in
  ImageSamples.emptyState = ImageSamples.emptyState ∧
  p = Image.addPackages pkg (Image.osPackage w (SPDX.ID pkg) <$> entries) ∧
  SPDX.Packages p
  = SPDX.Packages pkg ++ (Image.osPackage w (SPDX.ID pkg) <$> entries) ∧
  SPDX.ID p = SPDX.ID pkg ∧
  Forall
    (λ entry,
       let sub := Image.osPackage w (SPDX.ID pkg) entry in
       SPDX.Name sub = Image.dbPackage entry ∧
       SPDX.Version sub = Image.dbVersion entry ∧
       SPDX.HomePage sub = Image.dbHomePage entry ∧
       SPDX.SupplierPerson sub = Image.supplierOf entry ∧
       SPDX.ExternalRefs sub
       = (if String.eqb (Image.dbPackageURL entry) "" then []
          else [SPDX.purlRef (Image.dbPackageURL entry)]) ∧
       SPDX.ID sub = Image.BuildID w (SPDX.setID "" sub) [SPDX.ID pkg])
    entries.
Proof.
  apply (addOSPackages_result (R := ImageSamples.sampleRegistry)
           ImageSamples.indexWorld [ImageSamples.bash]
           (SPDX.setID "SPDXRef-Package-layer0" SPDX.NewPackage)
           ImageSamples.emptyState ImageSamples.emptyState).
  vm_compute. reflexivity.
Defined.

(** The package of a multi-arch index.  Its name is the digest of the
    index, its ID is built from that name, its download location is the
    digest reference of the index, and its only external reference is the
    package URL of the reference the caller gave, when [purlFromImage]
    builds one.  The packages of the images are tied to it by relationships
    alone: it has no sub-package and no file. *)
Theorem ImageRefToPackage_index_root `{R : Image.Registry}
    (w : Image.World) (opts : SPDX.Options) (ref tmpdir : string)
    (s s1 s' : Image.State) (references : Image.ImageReferenceInfo)
    (root : nat) :
  Image.MkdirTemp w = (tmpdir, None) →
  Image.PullImagesToArchive w ref tmpdir s = (s1, Ok references) →
  Image.Images references ≠ [] →
  Image.ImageRefToPackage w ref opts s = (s', Ok root) →
  ∃ indexDigest rootPkg,
    Image.NewDigest (Image.Digest references) = Ok indexDigest ∧
    Image.store s' !! root = Some rootPkg ∧
    SPDX.Name rootPkg = Image.DigestStr indexDigest ∧
    SPDX.ID rootPkg
    = Image.BuildID w
        (SPDX.setName (Image.DigestStr indexDigest) SPDX.zeroPackage)
        [Image.DigestStr indexDigest] ∧
    SPDX.DownloadLocation rootPkg = Image.Digest references ∧
    SPDX.ExternalRefs rootPkg
    = (let packageurl :=
         Image.purlFromImage w
           (Image.mkImageReferenceInfo "" ref "" "" "" "" []) in
       if String.eqb packageurl "" then [] else [SPDX.purlRef packageurl]) ∧
    SPDX.Packages rootPkg = [] ∧ SPDX.Files rootPkg = [].
Proof.
  intros Hmk Hpull Himages Hrun.
  destruct (ImageRefToPackage_index_rootPkg w opts ref tmpdir s s1 s'
              references root Hmk Hpull Himages Hrun)
    as (indexDigest & Hdig & Hroot).
  eexists indexDigest, _. split; [done|]. split; [exact Hroot|].
  destruct (addContains_fields (Image.indexPackage w indexDigest references)
              (seq (S root) (length (Image.Images references))))
    as (Hid & Hname & Hloc & Hext & Hpk & Hfiles).
  unfold Image.attachPurl.
  destruct (String.eqb (Image.purlFromImage w _) ""); simpl;
    rewrite ?Hid, ?Hname, ?Hloc, ?Hext, ?Hpk, ?Hfiles;
    unfold Image.indexPackage;
    destruct (String.eqb (Image.Digest references) "") eqn:Hd; simpl;
    try apply String.eqb_eq in Hd; rewrite ?Hd; done.
Qed.

Section IndexSample.
#[local] Existing Instance ImageSamples.sampleRegistry.

Lemma ImageRefToPackage_index_root_witness :
  ∃ indexDigest rootPkg,
    Image.NewDigest (Image.Digest ImageSamples.pulledIndex) = Ok indexDigest ∧
    Image.store ImageSamples.indexRun.1 !! 0%nat = Some rootPkg ∧
    SPDX.Name rootPkg = Image.DigestStr indexDigest ∧
    SPDX.ID rootPkg
    = Image.BuildID ImageSamples.indexWorld
        (SPDX.setName (Image.DigestStr indexDigest) SPDX.zeroPackage)
        [Image.DigestStr indexDigest] ∧
    SPDX.DownloadLocation rootPkg = Image.Digest ImageSamples.pulledIndex ∧
    SPDX.ExternalRefs rootPkg
    = (let packageurl :=
         Image.purlFromImage ImageSamples.indexWorld
           (Image.mkImageReferenceInfo "" "reg.io/app:v1" "" "" "" "" []) in
       if String.eqb packageurl "" then [] else [SPDX.purlRef packageurl]) ∧
    SPDX.Packages rootPkg = [] ∧ SPDX.Files rootPkg = [].
Proof.
  apply (ImageRefToPackage_index_root ImageSamples.indexWorld
           ImageSamples.analyzeOptions "reg.io/app:v1" "/tmp/doc-build-1"
           ImageSamples.emptyState ImageSamples.emptyState
           ImageSamples.indexRun.1 ImageSamples.pulledIndex 0%nat).
  - reflexivity.
  - vm_compute. reflexivity.
  - discriminate.
  - vm_compute. reflexivity.
Defined.

End IndexSample.

Lemma lookup_nth_default {A} (l : list A) (i : nat) (d : A) :
  (i < length l)%nat → l !! i = Some (nth i l d).
Proof.
  revert i. induction l as [|x l IH]; intros [|i] Hi; simpl in *;
    [lia|lia|done|]. apply IH. lia.
Qed.

(** The package URL of an image, when [purlFromImage] builds one: the type
    is [oci], without namespace and subpath; the name is the last element
    of the name of the repository, which has two elements at least; the
    version is the digest, read from the reference when it is a digest, and
    asked of the registry otherwise; the qualifier [repository_url] is the
    name of the repository without its last element; the qualifier [tag] is
    present exactly for a tag, [mediaType] exactly for a media type that is
    not empty; and beside these, [arch] and [os], there is no qualifier. *)
Theorem purlFromImage_shape `{R : Image.Registry} (w : Image.World)
    (img : Image.ImageReferenceInfo) (packageurl : Image.PackageURL) :
  Image.purlOfImage w img = Some packageurl →
  Image.purlFromImage w img = Image.PurlString w packageurl ∧
  ∃ imageReference,
    Image.ParseReference (Image.Reference_ img) = Ok imageReference ∧
    let parts := strings.Split (Image.ContextName imageReference) "/" in
    (2 ≤ length parts)%nat ∧
    Image.purlType packageurl = "oci" ∧
    Image.purlNamespace packageurl = "" ∧
    Image.purlSubpath packageurl = "" ∧
    Image.purlName packageurl = nth (length parts - 1) parts "" ∧
    (if Image.isDigest imageReference
     then strings.Split (Image.RefString imageReference) "@" !! 1%nat
          = Some (Image.purlVersion packageurl)
     else Image.craneDigest w (Image.Reference_ img)
          = Ok (Image.purlVersion packageurl)) ∧
    Image.purlQualifiers packageurl !! "repository_url"
    = Some (strings.TrimSuffix (Image.ContextName imageReference)
              ("/" +:+ Image.purlName packageurl)) ∧
    Image.purlQualifiers packageurl !! "tag"
    = (if Image.isTag imageReference
       then Some (Image.RefString imageReference) else None) ∧
    Image.purlQualifiers packageurl !! "mediaType"
    = (if String.eqb (Image.MediaType img) "" then None
       else Some (Image.MediaType img)) ∧
    ∀ k, k ∉ ["repository_url"; "arch"; "os"; "tag"; "mediaType"] →
         Image.purlQualifiers packageurl !! k = None.
Proof.
  intros Hpurl. split.
  { unfold Image.purlFromImage. by rewrite Hpurl. }
  unfold Image.purlOfImage in Hpurl.
  destruct (Image.ParseReference (Image.Reference_ img)) as [ref|];
    [|discriminate].
  exists ref. split; [done|].
  assert (∃ digest,
            (if Image.isDigest ref
             then strings.Split (Image.RefString ref) "@" !! 1%nat
                  = Some digest
             else Image.craneDigest w (Image.Reference_ img) = Ok digest) ∧
            (let url := Image.ContextName ref in
             let parts := strings.Split url "/" in
             if (length parts <? 2)%nat then None
             else
               let imageName := nth (length parts - 1) parts "" in
               let url := strings.TrimSuffix url ("/" +:+ imageName) in
               Some {| Image.purlType := "oci"; Image.purlNamespace := "";
                       Image.purlName := imageName;
                       Image.purlVersion := digest;
                       Image.purlQualifiers :=
                         Image.purlQualifiersOf ref url img;
                       Image.purlSubpath := "" |})
            = Some packageurl) as (digest & Hdigest & Hbuild).
  { destruct (Image.isDigest ref).
    - destruct (length (strings.Split (Image.RefString ref) "@") <? 2)%nat
        eqn:Hlen; [discriminate|].
      apply Nat.ltb_ge in Hlen. eexists. split; [|exact Hpurl].
      apply lookup_nth_default. lia.
    - destruct (Image.craneDigest w (Image.Reference_ img)) as [d|];
        [|discriminate]. eauto. }
  clear Hpurl. simpl in Hbuild.
  destruct (length (strings.Split (Image.ContextName ref) "/") <? 2)%nat
    eqn:Hparts; [discriminate|].
  apply Nat.ltb_ge in Hparts. injection Hbuild as <-. simpl.
  split; [done|]. split; [done|]. split; [done|]. split; [done|].
  split; [done|]. split; [done|].
  unfold Image.purlQualifiersOf.
  destruct (String.eqb (Image.Arch img) ""),
    (String.eqb (Image.OS_ img) ""), (Image.isTag ref),
    (String.eqb (Image.MediaType img) ""); simpl;
    (split; [by simplify_map_eq|]); (split; [by simplify_map_eq|]);
    (split; [by simplify_map_eq|]);
    intros k Hk;
    repeat (rewrite lookup_insert_ne by (intros <-; set_solver));
    apply lookup_singleton_ne; intros <-; set_solver.
Qed.

Lemma purlFromImage_shape_witness :
  Image.purlFromImage ImageSamples.indexWorld ImageSamples.taggedImage
  = Image.PurlString ImageSamples.indexWorld ImageSamples.taggedPurl ∧
  ∃ imageReference,
    Image.ParseReference (Registry := ImageSamples.sampleRegistry)
      (Image.Reference_ ImageSamples.taggedImage) = Ok imageReference ∧
    let parts := strings.Split (Image.ContextName imageReference) "/" in
    (2 ≤ length parts)%nat ∧
    Image.purlType ImageSamples.taggedPurl = "oci" ∧
    Image.purlNamespace ImageSamples.taggedPurl = "" ∧
    Image.purlSubpath ImageSamples.taggedPurl = "" ∧
    Image.purlName ImageSamples.taggedPurl
    = nth (length parts - 1) parts "" ∧
    (if Image.isDigest imageReference
     then strings.Split (Image.RefString imageReference) "@" !! 1%nat
          = Some (Image.purlVersion ImageSamples.taggedPurl)
     else Image.craneDigest ImageSamples.indexWorld
            (Image.Reference_ ImageSamples.taggedImage)
          = Ok (Image.purlVersion ImageSamples.taggedPurl)) ∧
    Image.purlQualifiers ImageSamples.taggedPurl !! "repository_url"
    = Some (strings.TrimSuffix (Image.ContextName imageReference)
              ("/" +:+ Image.purlName ImageSamples.taggedPurl)) ∧
    Image.purlQualifiers ImageSamples.taggedPurl !! "tag"
    = (if Image.isTag imageReference
       then Some (Image.RefString imageReference) else None) ∧
    Image.purlQualifiers ImageSamples.taggedPurl !! "mediaType"
    = (if String.eqb (Image.MediaType ImageSamples.taggedImage) "" then None
       else Some (Image.MediaType ImageSamples.taggedImage)) ∧
    ∀ k, k ∉ ["repository_url"; "arch"; "os"; "tag"; "mediaType"] →
         Image.purlQualifiers ImageSamples.taggedPurl !! k = None.
Proof.
  apply (purlFromImage_shape (R := ImageSamples.sampleRegistry)
           ImageSamples.indexWorld ImageSamples.taggedImage
           ImageSamples.taggedPurl).
  vm_compute. reflexivity.
Defined.

Lemma purlOfImage_qualifiers_witness :
  Image.purlQualifiers ImageSamples.taggedPurl !! "arch"
  = (if String.eqb (Image.Arch ImageSamples.taggedImage) "" then None
     else Some (Image.Arch ImageSamples.taggedImage)) ∧
  Image.purlQualifiers ImageSamples.taggedPurl !! "os"
  = (if String.eqb (Image.OS_ ImageSamples.taggedImage) "" then None
     else Some (Image.OS_ ImageSamples.taggedImage)).
Proof.
  apply (purlOfImage_qualifiers (R := ImageSamples.sampleRegistry)
           ImageSamples.indexWorld ImageSamples.taggedImage
           ImageSamples.taggedPurl).
  vm_compute. reflexivity.
Defined.
